(** * Secure file removal: the overwrite engine

    A shallow embedding of the overwrite engine ([file.ts]), the directory
    mark protocol ([dir.ts]), the catalogue of standards ([standards.ts])
    and the removal entry point ([index.ts]), over an explicit model of the
    Node.js primitives they call ([fs], [crypto], [Buffer], [events]).

    Conventions of the model:
    - JavaScript numbers that hold sizes, offsets and counters are integers
      ([Z]); where the code computes with fractions ([truncate]) the
      rounding of binary64 is written out ([Double.round53]); bytes are
      [Byte.byte]; a [Buffer] is a [list byte];
    - an [async] function is a computation in the monad [IO]: it threads the
      state of the world and either returns, throws, or runs out of fuel;
    - every call to the operating system is appended to the log [syscalls],
      so that statements about "the writes that are issued" are statements
      about that log. *)

From Stdlib Require Import ZArith List Lia Bool Ascii String Strings.Byte Floats.
From stdpp Require Import base gmap sets list strings.

Local Open Scope Z_scope.

(** ** The platform *)

(** [kMaxLength] is imported from Node's [buffer] module: the largest size of
    a single [Buffer].  [path.dirname] and [path.join] come from Node's
    [path] module. *)
Class Platform := {
  kMaxLength : Z;
  kMaxLength_pos : 0 < kMaxLength;
  path_dirname : string -> string;
  path_join : string -> string -> string
}.

(** ** The world: file system, entropy, process-wide state, logs *)

Module OS.

Inductive Errno :=
| ENOENT | EBADF | EISDIR | ENOTDIR | ENOTEMPTY | EINVAL
| ERR_OUT_OF_RANGE | ERR_INVALID_ARG_VALUE | VerificationError.

Inductive Outcome (A : Type) :=
| Ok (a : A)
| Throw (e : Errno)
| Diverge.
Arguments Ok {A} a.
Arguments Throw {A} e.
Arguments Diverge {A}.

Inductive Entry :=
| File (ino : nat)
| Dir.

Definition Buffer := list byte.

Inductive Syscall :=
| SysStat (path : string)
| SysOpen (path : string) (fd : Z)
| SysClose (fd : Z)
| SysRead (fd : Z) (pos len : Z)
| SysWrite (fd : Z) (pos : Z) (data : Buffer)
| SysFtruncate (fd : Z) (len : Z)
| SysRename (old new : string)
| SysUnlink (path : string)
| SysReaddir (path : string)
| SysRmdir (path : string)
| SysRandomBytes (n : Z).

(** An [EventEmitter] object is identified by a number; an emission is the
    emitter, the event name and the path it carries. *)
Definition EventEmitter := nat.

Record World := mkWorld {
  names : gmap string Entry;        (* directory entries, by path *)
  inodes : gmap nat Buffer;         (* file contents *)
  fdt : gmap Z nat;                 (* open file descriptors *)
  entropy : nat -> byte;            (* what the CSPRNG will deliver *)
  drawn : nat;                      (* how many bytes it has delivered *)
  prng : nat -> Z;                  (* what Math.random will deliver *)
  prng_drawn : nat;                 (* how many numbers it has delivered *)
  folderSet : gset string;          (* dir.ts: const folderSet = new Set() *)
  syscalls : list Syscall;          (* log of operating-system calls *)
  emitted : list (EventEmitter * string * string)  (* log of emit calls *)
}.

Definition with_names (f : gmap string Entry -> gmap string Entry) (w : World) : World :=
  mkWorld (f (names w)) (inodes w) (fdt w) (entropy w) (drawn w) (prng w)
          (prng_drawn w) (folderSet w) (syscalls w) (emitted w).

Definition with_inodes (f : gmap nat Buffer -> gmap nat Buffer) (w : World) : World :=
  mkWorld (names w) (f (inodes w)) (fdt w) (entropy w) (drawn w) (prng w)
          (prng_drawn w) (folderSet w) (syscalls w) (emitted w).

Definition with_fdt (f : gmap Z nat -> gmap Z nat) (w : World) : World :=
  mkWorld (names w) (inodes w) (f (fdt w)) (entropy w) (drawn w) (prng w)
          (prng_drawn w) (folderSet w) (syscalls w) (emitted w).

Definition with_drawn (n : nat) (w : World) : World :=
  mkWorld (names w) (inodes w) (fdt w) (entropy w) n (prng w)
          (prng_drawn w) (folderSet w) (syscalls w) (emitted w).

Definition with_prng_drawn (n : nat) (w : World) : World :=
  mkWorld (names w) (inodes w) (fdt w) (entropy w) (drawn w) (prng w)
          n (folderSet w) (syscalls w) (emitted w).

Definition with_folderSet (f : gset string -> gset string) (w : World) : World :=
  mkWorld (names w) (inodes w) (fdt w) (entropy w) (drawn w) (prng w)
          (prng_drawn w) (f (folderSet w)) (syscalls w) (emitted w).

Definition log (c : Syscall) (w : World) : World :=
  mkWorld (names w) (inodes w) (fdt w) (entropy w) (drawn w) (prng w)
          (prng_drawn w) (folderSet w) (syscalls w ++ [c]) (emitted w).

Definition log_emit (e : EventEmitter * string * string) (w : World) : World :=
  mkWorld (names w) (inodes w) (fdt w) (entropy w) (drawn w) (prng w)
          (prng_drawn w) (folderSet w) (syscalls w) (emitted w ++ [e]).

(** *** The monad of asynchronous computations *)

Definition IO (A : Type) : Type := World -> World * Outcome A.

Definition ret {A} (a : A) : IO A := fun w => (w, Ok a).

Definition throw {A} (e : Errno) : IO A := fun w => (w, Throw e).

Definition diverge {A} : IO A := fun w => (w, Diverge).

Definition bind {A B} (m : IO A) (k : A -> IO B) : IO B :=
  fun w =>
    match m w with
    | (w', Ok a) => k a w'
    | (w', Throw e) => (w', Throw e)
    | (w', Diverge) => (w', Diverge)
    end.

Definition modify (f : World -> World) : IO unit := fun w => (f w, Ok tt).

Definition get {A} (f : World -> A) : IO A := fun w => (w, Ok (f w)).

End OS.

Import OS.

Declare Scope io_scope.
Delimit Scope io_scope with io.
Notation "'let*' x ':=' c 'in' k" := (bind c (fun x => k))
  (at level 10, x name, c at level 200, k at level 200) : io_scope.
Notation "c ';;' k" := (bind c (fun _ => k))
  (at level 100, k at level 200, right associativity) : io_scope.
Local Open Scope io_scope.

(** ** Node primitives *)

Module Buf.

(** A number stored into a [Uint8Array] is reduced modulo 256. *)
Definition byte_of_Z (z : Z) : byte :=
  match Byte.of_N (Z.to_N (z mod 256)) with
  | Some b => b
  | None => x00
  end.

Definition Z_of_byte (b : byte) : Z := Z.of_N (Byte.to_N b).

(** [n] bytes taken cyclically from the pattern [pat], starting with
    [cur]; this is how [Buffer.alloc(size, fill)] repeats a multi-byte
    fill. *)
Fixpoint cycle (pat cur : list byte) (n : nat) : list byte :=
  match n with
  | O => []
  | S n' =>
    match cur with
    | b :: cur' => b :: cycle pat cur' n'
    | [] =>
      match pat with
      | b :: cur' => b :: cycle pat cur' n'
      | [] => []
      end
    end
  end.

Section WithPlatform.
Context `{Platform}.

(** [Buffer.alloc(size, fill)] with a numeric [fill]. *)
Definition alloc (size : Z) (fill : Z) : IO Buffer :=
  if (size <? 0) || (kMaxLength <? size) then throw ERR_INVALID_ARG_VALUE
  else ret (replicate (Z.to_nat size) (byte_of_Z fill)).

(** [Buffer.alloc(size, fill)] where [fill] is itself a [Buffer]. *)
Definition alloc_from (size : Z) (fill : Buffer) : IO Buffer :=
  if (size <? 0) || (kMaxLength <? size) then throw ERR_INVALID_ARG_VALUE
  else
    match fill with
    | [] => if size =? 0 then ret [] else throw ERR_INVALID_ARG_VALUE
    | _ => ret (cycle fill fill (Z.to_nat size))
    end.

End WithPlatform.

(** [Buffer.from(array)]: every entry is truncated to a byte. *)
Definition from (data : list Z) : Buffer := map byte_of_Z data.

End Buf.

Module Crypto.

(** [crypto.randomBytes(size)]: the next [size] bytes of the entropy
    stream. *)
Definition randomBytes (size : Z) : IO Buffer :=
  fun w =>
    if size <? 0 then (log (SysRandomBytes size) w, Throw ERR_OUT_OF_RANGE)
    else
      let n := Z.to_nat size in
      (with_drawn (drawn w + n) (log (SysRandomBytes size) w),
       Ok (map (entropy w) (seq (drawn w) n))).

End Crypto.

Module Fs.

Definition is_slash (c : ascii) : bool := Ascii.eqb c "/"%char.

Fixpoint has_slash (s : string) : bool :=
  match s with
  | EmptyString => false
  | String c s' => is_slash c || has_slash s'
  end.

(** [strip_prefix p s] is [Some r] when [s = p ++ r]. *)
Fixpoint strip_prefix (p s : string) : option string :=
  match p, s with
  | EmptyString, _ => Some s
  | String a p', String b s' => if Ascii.eqb a b then strip_prefix p' s' else None
  | String _ _, EmptyString => None
  end.

(** The name of [path] inside the directory [dir], if it is a direct
    child of it. *)
Definition child_name (dir path : string) : option string :=
  match strip_prefix (dir ++ "/") path with
  | Some r => if has_slash r || String.eqb r "" then None else Some r
  | None => None
  end.

Definition children (ns : gmap string Entry) (dir : string) : list string :=
  omap (child_name dir) (elements (dom ns)).

(** [c] with [data] written at [pos]; a gap before [pos] reads as zeros. *)
Definition write_at (c : Buffer) (pos : nat) (data : Buffer) : Buffer :=
  take pos c ++ replicate (pos - length c) x00 ++ data
    ++ drop (pos + length data) c.

(** [c] cut or zero-extended to [len] bytes. *)
Definition resize (c : Buffer) (len : nat) : Buffer :=
  take len c ++ replicate (len - length c) x00.

Definition content_of (w : World) (fd : Z) : option Buffer :=
  match fdt w !! fd with
  | Some ino => inodes w !! ino
  | None => None
  end.

(** [fs.stat(path)], of which only [size] is used. *)
Definition stat_size (path : string) : IO Z :=
  fun w =>
    let w' := log (SysStat path) w in
    match names w !! path with
    | Some (File ino) =>
      match inodes w !! ino with
      | Some c => (w', Ok (Z.of_nat (length c)))
      | None => (w', Throw ENOENT)
      end
    | Some Dir => (w', Ok 0)
    | None => (w', Throw ENOENT)
    end.

(** [fs.open(path, 'r+')]. *)
Definition open (path : string) : IO Z :=
  fun w =>
    match names w !! path with
    | Some (File ino) =>
      let fd := fresh (dom (fdt w)) in
      (with_fdt (insert fd ino) (log (SysOpen path fd) w), Ok fd)
    | Some Dir => (log (SysOpen path (-1)) w, Throw EISDIR)
    | None => (log (SysOpen path (-1)) w, Throw ENOENT)
    end.

Definition close (fd : Z) : IO unit :=
  fun w =>
    let w' := log (SysClose fd) w in
    match fdt w !! fd with
    | Some _ => (with_fdt (delete fd) w', Ok tt)
    | None => (w', Throw EBADF)
    end.

(** [fs.read(fd, buffer, offset, length, position)], returning the
    [buffer] field of the result: the bytes read, at most [length] and as
    many as the file has from [position], replace those of [buffer] from
    [offset]. *)
Definition read (fd : Z) (buffer : Buffer) (offset length pos : Z) : IO Buffer :=
  fun w =>
    if (offset <? 0) || (length <? 0) || (pos <? 0)
       || (Z.of_nat (List.length buffer) <? offset + length)
    then (w, Throw ERR_OUT_OF_RANGE)
    else
      let w' := log (SysRead fd pos length) w in
      match content_of w fd with
      | Some c =>
        let got := take (Z.to_nat length) (drop (Z.to_nat pos) c) in
        (w', Ok (take (Z.to_nat offset) buffer ++ got
                   ++ drop (Z.to_nat offset + List.length got) buffer))
      | None => (w', Throw EBADF)
      end.

(** [fs.write(fd, buffer, offset, length, position)]. *)
Definition write (fd : Z) (buffer : Buffer) (offset length pos : Z) : IO unit :=
  fun w =>
    let data := take (Z.to_nat length) (drop (Z.to_nat offset) buffer) in
    if (offset <? 0) || (length <? 0) || (pos <? 0)
       || (Z.of_nat (List.length buffer) <? offset + length)
    then (w, Throw ERR_OUT_OF_RANGE)
    else
      let w' := log (SysWrite fd pos data) w in
      match fdt w !! fd with
      | Some ino =>
        match inodes w !! ino with
        | Some c => (with_inodes (insert ino (write_at c (Z.to_nat pos) data)) w', Ok tt)
        | None => (w', Throw EBADF)
        end
      | None => (w', Throw EBADF)
      end.

Definition ftruncate (fd : Z) (len : Z) : IO unit :=
  fun w =>
    let w' := log (SysFtruncate fd len) w in
    match fdt w !! fd with
    | Some ino =>
      match inodes w !! ino with
      | Some c =>
        if len <? 0 then (w', Throw EINVAL)
        else (with_inodes (insert ino (resize c (Z.to_nat len))) w', Ok tt)
      | None => (w', Throw EBADF)
      end
    | None => (w', Throw EBADF)
    end.

Definition rename (old new : string) : IO unit :=
  fun w =>
    let w' := log (SysRename old new) w in
    match names w !! old with
    | Some e =>
      match e, names w !! new with
      | File _, Some Dir => (w', Throw EISDIR)
      | Dir, Some (File _) => (w', Throw ENOTDIR)
      | _, _ => (with_names (fun ns => <[new := e]> (delete old ns)) w', Ok tt)
      end
    | None => (w', Throw ENOENT)
    end.

Definition unlink (path : string) : IO unit :=
  fun w =>
    let w' := log (SysUnlink path) w in
    match names w !! path with
    | Some (File _) => (with_names (delete path) w', Ok tt)
    | Some Dir => (w', Throw EISDIR)
    | None => (w', Throw ENOENT)
    end.

Definition readdir (path : string) : IO (list string) :=
  fun w =>
    let w' := log (SysReaddir path) w in
    match names w !! path with
    | Some Dir => (w', Ok (children (names w) path))
    | Some (File _) => (w', Throw ENOTDIR)
    | None => (w', Throw ENOENT)
    end.

Definition rmdir (path : string) : IO unit :=
  fun w =>
    let w' := log (SysRmdir path) w in
    match names w !! path with
    | Some Dir =>
      match children (names w) path with
      | [] => (with_names (delete path) w', Ok tt)
      | _ :: _ => (w', Throw ENOTEMPTY)
      end
    | Some (File _) => (w', Throw ENOTDIR)
    | None => (w', Throw ENOENT)
    end.

End Fs.

Module Events.

(** [eventEmitter.emit(name, path)]. *)
Definition emit (em : EventEmitter) (name path : string) : IO unit :=
  modify (log_emit (em, name, path)).

End Events.

Module JsMath.

(** [Math.random()] returns a double in [[0, 1)]: the double
    [random_num / 2^53], for a [random_num] below [2^53]. *)
Definition random_num : IO Z :=
  fun w =>
    (with_prng_drawn (S (prng_drawn w)) w,
     Ok (prng w (prng_drawn w) mod 2 ^ 53)).

End JsMath.

(** JavaScript numbers are IEEE 754 binary64 values: 53 significant bits,
    every operation rounded to the nearest value, ties to the even one. *)
Module Double.

(** The integer [n] rounded to 53 significant bits.  A sum or a product
    of two doubles whose exact value is [n / 2^k] is the double
    [round53 n / 2^k], as long as the exponent stays in the range of
    binary64, which it does for sizes below [2^1000]. *)
Definition round53 (n : Z) : Z :=
  let m := Z.abs n in
  let sh := Z.log2 m - 52 in
  if sh <=? 0 then n
  else
    let q := m / 2 ^ sh in
    let r := m mod 2 ^ sh in
    let half := 2 ^ (sh - 1) in
    let q' := if (half <? r) || ((r =? half) && Z.odd q) then q + 1 else q in
    Z.sgn n * (q' * 2 ^ sh).

(** The same values in the primitive binary64 numbers, for comparison:
    the double of an integer below [2^53], the double [num / 2^53], and
    [Math.floor] of a double that is not negative. *)
Definition of_Z (z : Z) : float := PrimFloat.of_uint63 (Uint63.of_Z z).

Definition of_draw (num : Z) : float :=
  PrimFloat.ldshiftexp (of_Z num) (Uint63.of_Z (2101 - 53)).

Definition floor (f : float) : Z :=
  match Prim2SF f with
  | SpecFloat.S754_finite false m e =>
    if 0 <=? e then Zpos m * 2 ^ e else Zpos m / 2 ^ (- e)
  | _ => 0
  end.

End Double.

Module Base64.

Definition alphabet : list ascii :=
  list_ascii_of_string
    "ABCDEFGHIJKLMNOPQRSTUVWXYZabcdefghijklmnopqrstuvwxyz0123456789+/".

Definition digit (n : Z) : ascii := nth (Z.to_nat n) alphabet "="%char.

(** [buffer.toString('base64')]. *)
Fixpoint encode (bs : list byte) : string :=
  match bs with
  | [] => EmptyString
  | [a] =>
    let x := Buf.Z_of_byte a in
    String (digit (Z.shiftr x 2))
      (String (digit (Z.shiftl (Z.land x 3) 4)) "==")
  | [a; b] =>
    let x := Buf.Z_of_byte a in
    let y := Buf.Z_of_byte b in
    String (digit (Z.shiftr x 2))
      (String (digit (Z.lor (Z.shiftl (Z.land x 3) 4) (Z.shiftr y 4)))
         (String (digit (Z.shiftl (Z.land y 15) 2)) "="))
  | a :: b :: c :: rest =>
    let x := Buf.Z_of_byte a in
    let y := Buf.Z_of_byte b in
    let z := Buf.Z_of_byte c in
    String (digit (Z.shiftr x 2))
      (String (digit (Z.lor (Z.shiftl (Z.land x 3) 4) (Z.shiftr y 4)))
         (String (digit (Z.lor (Z.shiftl (Z.land y 15) 2) (Z.shiftr z 6)))
            (String (digit (Z.land z 63)) (encode rest))))
  end.

End Base64.

Module JsString.

(** [s.replace(/c/g, d)] for a single character [c]. *)
Fixpoint replace_all (c d : ascii) (s : string) : string :=
  match s with
  | EmptyString => EmptyString
  | String x s' => String (if Ascii.eqb x c then d else x) (replace_all c d s')
  end.

End JsString.

(** ** file.ts *)

Module File.

(** Modelled from the spec: the process-wide progress-event bus exported by
    [./events], which is not among the sources; it is one fixed emitter. *)
Definition eventEmitter : EventEmitter := 0%nat.

(** [interface FileData]. *)
Record FileData := mkFileData {
  fd : Z;
  fileName : string;
  fileSize : Z
}.

(** [interface Options].  The interface declares [passes] only; the
    standards also pass the property [check], which is carried here as it
    is carried by the JavaScript object. *)
Record Options := mkOptions {
  passes : option Z;
  check : option bool
}.

Definition no_options : Options := mkOptions None None.

(** The destructuring default [{ passes = 1 }]. *)
Definition passes_of (o : Options) : Z := default 1 (passes o).

(** [for (let i = 0; i < passes; i++) body]. *)
Fixpoint for_loop (n : nat) (i : Z) (body : Z -> IO unit) : IO unit :=
  match n with
  | O => ret tt
  | S n' => body i ;; for_loop n' (i + 1) body
  end.

Definition for_passes (passes : Z) (body : Z -> IO unit) : IO unit :=
  for_loop (Z.to_nat passes) 0 body.

Section WithPlatform.
Context `{Platform}.

Definition init (fileName : string) : IO FileData :=
  let* fileSize := Fs.stat_size fileName in
  let* fd := Fs.open fileName in
  ret (mkFileData fd fileName fileSize).

Definition end_ (fileData : FileData) : IO unit :=
  Fs.close (fd fileData) ;;
  Fs.unlink (fileName fileData) ;;
  Events.emit eventEmitter "removed" (fileName fileData).

Definition mark (fileName : string) : IO unit :=
  Events.emit eventEmitter "mark" fileName.

(** [writeExtended] calls itself with [pos + kMaxLength]; [fuel] bounds the
    depth of that recursion. *)
Fixpoint writeExtended_rec (fuel : nat) (fd size pos : Z)
    (getBuffer : Z -> Z -> IO Buffer) : IO unit :=
  match fuel with
  | O => diverge
  | S fuel' =>
    if size - pos <=? kMaxLength then
      let* data := getBuffer (size - pos) pos in
      Fs.write fd data 0 (size - pos) pos ;;
      ret tt
    else
      let* data := getBuffer kMaxLength pos in
      Fs.write fd data 0 kMaxLength pos ;;
      writeExtended_rec fuel' fd size (pos + kMaxLength) getBuffer
  end.

(** The depth the recursion can reach from [pos]. *)
Definition depth (size pos : Z) : nat :=
  S (Z.to_nat ((size - pos) / kMaxLength)).

Definition writeExtended (fd size pos : Z)
    (getBuffer : Z -> Z -> IO Buffer) : IO unit :=
  writeExtended_rec (depth size pos) fd size pos getBuffer.

Definition random (fileData : FileData) (o : Options) : IO unit :=
  for_passes (passes_of o) (fun _ =>
    writeExtended (fd fileData) (fileSize fileData) 0
      (fun bufferSize _ => Crypto.randomBytes bufferSize)).

Definition zeros (fileData : FileData) (o : Options) : IO unit :=
  for_passes (passes_of o) (fun _ =>
    writeExtended (fd fileData) (fileSize fileData) 0
      (fun bufferSize _ => Buf.alloc bufferSize 0)).

Definition ones (fileData : FileData) (o : Options) : IO unit :=
  for_passes (passes_of o) (fun _ =>
    writeExtended (fd fileData) (fileSize fileData) 0
      (fun bufferSize _ => Buf.alloc bufferSize 255)).

Definition byte (fileData : FileData) (passes : option Z) (data : Z) : IO unit :=
  for_passes (default 1 passes) (fun _ =>
    writeExtended (fd fileData) (fileSize fileData) 0
      (fun bufferSize _ => Buf.alloc bufferSize data)).

Definition byteArray (fileData : FileData) (passes : option Z) (data : list Z) : IO unit :=
  let dataConverted := Buf.from data in
  for_passes (default 1 passes) (fun _ =>
    writeExtended (fd fileData) (fileSize fileData) 0
      (fun bufferSize _ => Buf.alloc_from bufferSize dataConverted)).

(** [for (let i = initial; condition(i); i = increment(i))]: the loop is
    as long as [condition] says, so it is bounded by [fuel]. *)
Fixpoint forByte_loop (fuel : nat) (fileData : FileData) (i : Z)
    (condition : Z -> bool) (increment : Z -> Z) : IO unit :=
  match fuel with
  | O => diverge
  | S fuel' =>
    if condition i then
      writeExtended (fd fileData) (fileSize fileData) 0
        (fun bufferSize _ => Buf.alloc bufferSize i) ;;
      forByte_loop fuel' fileData (increment i) condition increment
    else ret tt
  end.

Definition forByte (fuel : nat) (fileData : FileData) (initial : Z)
    (condition : Z -> bool) (increment : Z -> Z) : IO unit :=
  forByte_loop fuel fileData initial condition increment.

(** [(await randomBytes(1))[0]]. *)
Definition first_byte (b : Buffer) : Z :=
  match b with
  | x :: _ => Buf.Z_of_byte x
  | [] => 0
  end.

Definition randomByte (fileData : FileData) (o : Options) : IO unit :=
  let* bytes := Crypto.randomBytes 1 in
  let data := first_byte bytes in
  for_passes (passes_of o) (fun _ =>
    writeExtended (fd fileData) (fileSize fileData) 0
      (fun bufferSize _ => Buf.alloc bufferSize data)).

(** [data[i] = ~data[i]] on a [Uint8Array]. *)
Definition complement (b : Byte.byte) : Byte.byte :=
  Buf.byte_of_Z (Z.lnot (Buf.Z_of_byte b)).

Definition complementary (fileData : FileData) (o : Options) : IO unit :=
  for_passes (passes_of o) (fun _ =>
    writeExtended (fd fileData) (fileSize fileData) 0
      (fun bufferSize pos =>
         let* buffer := Buf.alloc bufferSize 0 in
         let* data := Fs.read (fd fileData) buffer 0 bufferSize pos in
         ret (map complement data))).

(** [crypto.randomBytes(9).toString('base64').replace(/\//g, '0')
    .replace(/\+/g, 'a')]. *)
Definition new_name (bytes : Buffer) : string :=
  JsString.replace_all "+" "a"
    (JsString.replace_all "/" "0" (Base64.encode bytes)).

Definition rename (fileData : FileData) : IO FileData :=
  Fs.close (fd fileData) ;;
  let* bytes := Crypto.randomBytes 9 in
  let newName := new_name bytes in
  let newPath := path_join (path_dirname (fileName fileData)) newName in
  Fs.rename (fileName fileData) newPath ;;
  init newPath.

(** [Math.floor((0.25 + Math.random() * 0.5) * fileSize)] for the draw
    [num / 2^53].  The product [Math.random() * 0.5] is exact, [num / 2^54];
    the sum is [(2^52 + num) / 2^54] rounded to a double, the factor; the
    product of the factor and the size is rounded again, and [Math.floor]
    takes the integer part. *)
Definition truncated_size (num fileSize : Z) : Z :=
  let factor := Double.round53 (2 ^ 52 + num) in
  Double.round53 (factor * Double.round53 fileSize) / 2 ^ 54.

(** The expression of the source, in the primitive binary64 numbers. *)
Definition truncate_expression (random fileSize : float) : float :=
  ((0.25 + random * 0.5) * fileSize)%float.

(** The loop of [truncate]; it returns the last value of its local
    variable [fileSize]. *)
Fixpoint truncate_loop (n : nat) (fd fileSize : Z) : IO Z :=
  match n with
  | O => ret fileSize
  | S n' =>
    let* num := JsMath.random_num in
    let newSize := truncated_size num fileSize in
    Fs.ftruncate fd newSize ;;
    truncate_loop n' fd newSize
  end.

Definition truncate (fileData : FileData) (o : Options) : IO unit :=
  truncate_loop (Z.to_nat (passes_of o)) (fd fileData) (fileSize fileData) ;;
  ret tt.

End WithPlatform.

End File.

(** ** dir.ts *)

Module Dir.

(** [mark(folderName, { eventEmitter })]. *)
Definition mark (folderName : string) (eventEmitter : EventEmitter) : IO unit :=
  let* files := Fs.readdir folderName in
  if negb (length files =? 0)%nat then
    let* tracked := get (fun w => bool_decide (folderName ∈ folderSet w)) in
    if tracked then
      modify (with_folderSet (fun s => s ∖ {[folderName]})) ;;
      Events.emit eventEmitter "mark" folderName
    else
      modify (with_folderSet (fun s => {[folderName]} ∪ s)) ;;
      (* will throw error *)
      Fs.rmdir folderName
  else
    Events.emit eventEmitter "mark" folderName.

(** [interface FolderData]. *)
Record FolderData := mkFolderData {
  folderName : string;
  emitter : EventEmitter
}.

(** [init(folderName, { eventEmitter })]. *)
Definition init (name : string) (eventEmitter : EventEmitter) : IO FolderData :=
  let* files := Fs.readdir name in
  (if negb (length files =? 0)%nat then
     (* will throw error *)
     Fs.rmdir name
   else ret tt) ;;
  Events.emit eventEmitter "init" name ;;
  ret (mkFolderData name eventEmitter).

(** [end({ folderName, eventEmitter })]. *)
Definition end_ (folderData : FolderData) : IO unit :=
  Fs.rmdir (folderName folderData) ;;
  Events.emit (emitter folderData) "removed" (folderName folderData).

Section WithPlatform.
Context `{Platform}.

(** [rename({ folderName, eventEmitter })]. *)
Definition rename (folderData : FolderData) : IO FolderData :=
  let* bytes := Crypto.randomBytes 9 in
  let newName := File.new_name bytes in
  let newPath := path_join (path_dirname (folderName folderData)) newName in
  Fs.rename (folderName folderData) newPath ;;
  ret (mkFolderData newPath (emitter folderData)).

End WithPlatform.

End Dir.

(** ** dir.ts, the file of that name that holds [rename] alone *)

Module Dir0.

(** What a call can fail with: an error of the operating system, or the
    [Error] that [rename] itself throws. *)
Inductive Failure :=
| Os (e : Errno)
| JsError (message : string).

Inductive Result (A : Type) :=
| Returned (a : A)
| Failed (f : Failure)
| Diverged.
Arguments Returned {A} a.
Arguments Failed {A} f.
Arguments Diverged {A}.

(** The outcome of a step that [rename] awaits and does not catch. *)
Definition escalate {A B} (r : World * Outcome A) (k : World -> A -> World * Result B)
    : World * Result B :=
  match r with
  | (w, Ok a) => k w a
  | (w, Throw e) => (w, Failed (Os e))
  | (w, Diverge) => (w, Diverged)
  end.

Section WithPlatform.
Context `{Platform}.

(** [rename(folderName)]. *)
Definition rename (folderName : string) (w : World) : World * Result string :=
  escalate (Fs.readdir folderName w) (fun w files =>
    if negb (length files =? 0)%nat then
      (* will throw error *)
      escalate (Fs.rmdir folderName w) (fun w _ =>
        (w, Failed (JsError "If this message appears, something went wrong")))
    else
      escalate (Crypto.randomBytes 9 w) (fun w bytes =>
        let newName := File.new_name bytes in
        let newPath := path_join (path_dirname folderName) newName in
        escalate (Fs.rename folderName newPath w) (fun w _ =>
          (w, Returned newPath)))).

End WithPlatform.

End Dir0.

(** ** standards.ts *)

Module Standards.

Section WithPlatform.
Context `{Platform}.

Definition check_true : File.Options := File.mkOptions None (Some true).

Definition with_passes (n : Z) : File.Options := File.mkOptions (Some n) None.

Definition zeros_unlink (path : string) : IO unit :=
  let* fileData := File.init path in
  File.zeros fileData File.no_options ;;
  File.end_ fileData.

Definition NZSIT_402_unlink (path : string) : IO unit :=
  let* fileData := File.init path in
  File.randomByte fileData check_true ;;
  File.end_ fileData.

Definition HMG_IS5_unlink (path : string) : IO unit :=
  let* fileData := File.init path in
  File.zeros fileData File.no_options ;;
  File.ones fileData File.no_options ;;
  File.random fileData check_true ;;
  File.end_ fileData.

Definition DOD_5220_22_M_unlink (path : string) : IO unit :=
  let* fileData := File.init path in
  File.zeros fileData check_true ;;
  File.ones fileData check_true ;;
  File.random fileData check_true ;;
  File.end_ fileData.

Definition gutmann_unlink (fuel : nat) (path : string) : IO unit :=
  let* fileData := File.init path in
  File.random fileData (with_passes 4) ;;
  File.byte fileData None 0x55 ;;
  File.byte fileData None 0xAA ;;
  File.byteArray fileData None [0x92; 0x49; 0x24] ;;
  File.byteArray fileData None [0x49; 0x24; 0x92] ;;
  File.byteArray fileData None [0x24; 0x92; 0x49] ;;
  File.forByte fuel fileData 0x00 (fun i => i <? 0xFF) (fun i => i + 0x11) ;;
  File.byteArray fileData None [0x92; 0x49; 0x24] ;;
  File.byteArray fileData None [0x49; 0x24; 0x92] ;;
  File.byteArray fileData None [0x24; 0x92; 0x49] ;;
  File.byteArray fileData None [0x6D; 0xB6; 0xDB] ;;
  File.byteArray fileData None [0xB6; 0xDB; 0x6D] ;;
  File.byteArray fileData None [0xDB; 0x6D; 0xB6] ;;
  File.random fileData (with_passes 4) ;;
  File.end_ fileData.

Definition mark_unlink (path : string) : IO unit :=
  File.mark path.

Definition randomData_unlink (path : string) : IO unit :=
  let* fileData := File.init path in
  File.random fileData File.no_options ;;
  File.end_ fileData.

Definition randomByte_unlink (path : string) : IO unit :=
  let* fileData := File.init path in
  File.randomByte fileData File.no_options ;;
  File.end_ fileData.

Definition ones_unlink (path : string) : IO unit :=
  let* fileData := File.init path in
  File.ones fileData File.no_options ;;
  File.end_ fileData.

Definition GOST_R50739_95_unlink (path : string) : IO unit :=
  let* fileData := File.init path in
  File.zeros fileData File.no_options ;;
  File.random fileData File.no_options ;;
  File.end_ fileData.

Definition AR380_19_unlink (path : string) : IO unit :=
  let* fileData := File.init path in
  File.random fileData File.no_options ;;
  File.randomByte fileData File.no_options ;;
  File.complementary fileData File.no_options ;;
  File.end_ fileData.

Definition VSITR_unlink (path : string) : IO unit :=
  let* fileData := File.init path in
  File.zeros fileData File.no_options ;;
  File.ones fileData File.no_options ;;
  File.zeros fileData File.no_options ;;
  File.ones fileData File.no_options ;;
  File.zeros fileData File.no_options ;;
  File.ones fileData File.no_options ;;
  File.random fileData File.no_options ;;
  File.end_ fileData.

Definition schneier_unlink (path : string) : IO unit :=
  let* fileData := File.init path in
  File.zeros fileData File.no_options ;;
  File.ones fileData File.no_options ;;
  File.random fileData (with_passes 5) ;;
  File.end_ fileData.

Definition pfitzner_unlink (path : string) : IO unit :=
  let* fileData := File.init path in
  File.random fileData (with_passes 33) ;;
  File.end_ fileData.

End WithPlatform.

End Standards.

(** ** Timestamps, and the standard that resets them *)

Module Stamped.

(** The world together with the access and modification times of the
    files, by inode, in milliseconds since the epoch. *)
Record State := mkState {
  world : World;
  stamps : gmap nat (Z * Z)
}.

Definition IOS (A : Type) : Type := State -> State * Outcome A.

(** A computation that does not touch the timestamps. *)
Definition lift {A} (m : IO A) : IOS A :=
  fun s =>
    let (w, r) := m (world s) in
    (mkState w (stamps s), r).

Definition and_then {A B} (m : IOS A) (k : A -> IOS B) : IOS B :=
  fun s =>
    match m s with
    | (s', Ok a) => k a s'
    | (s', Throw e) => (s', Throw e)
    | (s', Diverge) => (s', Diverge)
    end.

(** [fs.futimes(fd, atime, mtime)]. *)
Definition futimes (fd : Z) (atime mtime : Z) : IOS unit :=
  fun s =>
    match fdt (world s) !! fd with
    | Some ino => (mkState (world s) (<[ino := (atime, mtime)]> (stamps s)), Ok tt)
    | None => (s, Throw EBADF)
    end.

(** [resetTimestamps({ fd })]: [new Date(0)] for both times. *)
Definition resetTimestamps (fileData : File.FileData) : IOS unit :=
  futimes (File.fd fileData) 0 0.

Section WithPlatform.
Context `{Platform}.

(** [standards.secure.unlink]. *)
Definition secure_unlink (path : string) : IOS unit :=
  and_then (lift (File.init path)) (fun fileData =>
  and_then (lift (File.random fileData File.no_options)) (fun _ =>
  and_then (lift (File.rename fileData)) (fun fileData =>
  and_then (lift (File.truncate fileData File.no_options)) (fun _ =>
  and_then (resetTimestamps fileData) (fun _ =>
  lift (File.end_ fileData)))))).

End WithPlatform.

End Stamped.

(** ** index.ts *)

Module Index.

(** The variables [count] and [index] that the closure [update] of one
    call of [remove_] captures. *)
Record Locals := mkLocals {
  count : Z;
  index : list string
}.

(** The listeners of an [EventEmitter]: [update] of this removal, or a
    listener of the caller, which has no access to [count] and [index]. *)
Inductive Listener :=
| Update
| Foreign (id : nat).

Definition Emitter := list (string * Listener).

(** [const update = (path) => { count++; index.push(path) }]. *)
Definition update (path : string) (l : Locals) : Locals :=
  mkLocals (count l + 1) (index l ++ [path]).

Definition call (f : Listener) (path : string) (l : Locals) : Locals :=
  match f with
  | Update => update path l
  | Foreign _ => l
  end.

(** [eventEmitter.on(name, listener)]. *)
Definition on (name : string) (f : Listener) (em : Emitter) : Emitter :=
  em ++ [(name, f)].

(** [eventEmitter.emit(name, path)]: the listeners registered for [name]
    run synchronously, in the order of registration. *)
Definition emit (name path : string) (em : Emitter) (l : Locals) : Locals :=
  fold_left
    (fun acc nf => if String.eqb (fst nf) name then call (snd nf) path acc else acc)
    em l.

(** What [fs.remove(path, {...options, ...options.standard(eventEmitter)})]
    does as seen from the emitter: it emits events, then finishes or
    fails. *)
Inductive Removal :=
| Finished
| Failed (e : Errno)
| Emit (name path : string) (rest : Removal).

Fixpoint run (r : Removal) (em : Emitter) (l : Locals) : Locals * Outcome unit :=
  match r with
  | Finished => (l, Ok tt)
  | Failed e => (l, Throw e)
  | Emit name path rest => run rest em (emit name path em l)
  end.

(** The states of [count] and [index] after each emission of the run. *)
Fixpoint history (r : Removal) (em : Emitter) (l : Locals) : list Locals :=
  match r with
  | Finished | Failed _ => []
  | Emit name path rest =>
    let l' := emit name path em l in
    l' :: history rest em l'
  end.

(** An emitter with the listeners of the caller, given as pairs of an
    event name and the identity of the listener. *)
Definition foreign (ls : list (string * nat)) : Emitter :=
  map (fun nl => (fst nl, Foreign (snd nl))) ls.

(** The emitter once [remove_] has registered [update] twice. *)
Definition listening (eventEmitter : Emitter) : Emitter :=
  on "init" Update (on "mark" Update eventEmitter).

(** [remove_(path, options, eventEmitter)]; [removal] is the run of
    [fs.remove] with the hooks of [options.standard]. *)
Definition remove_ (path : string) (removal : Removal) (eventEmitter : Emitter)
    : Outcome Locals :=
  let l := mkLocals 0 [] in
  let eventEmitter := on "mark" Update eventEmitter in
  let eventEmitter := on "init" Update eventEmitter in
  match run removal eventEmitter l with
  | (l, Ok _) =>
    let l := emit "done" path eventEmitter l in
    Ok (mkLocals (count l) (index l))
  | (_, Throw e) => Throw e
  | (_, Diverge) => Diverge
  end.

(** [remove(path, options)], promise form: a new emitter, then
    [remove_]. *)
Definition remove (path : string) (removal : Removal) : Outcome Locals :=
  remove_ path removal [].

End Index.

(** ** A small platform and a small world, to run the model on *)

Module Sample.

Fixpoint dirname_aux (s : string) : option string :=
  match s with
  | EmptyString => None
  | String c s' =>
    match dirname_aux s' with
    | Some d => Some (String c d)
    | None => if Fs.is_slash c then Some EmptyString else None
    end
  end.

Definition dirname (s : string) : string :=
  match dirname_aux s with
  | Some EmptyString => "/"
  | Some d => d
  | None => "."
  end.

Definition join (a b : string) : string := a ++ "/" ++ b.

(** A platform whose buffers hold at most four bytes. *)
Definition platform : Platform :=
  {| kMaxLength := 4; kMaxLength_pos := eq_refl;
     path_dirname := dirname; path_join := join |}.

Definition bytes (l : list Z) : Buffer := map Buf.byte_of_Z l.

(** The directory [/tmp] with the file [/tmp/f], of content [c] and open
    as descriptor 3, and the empty directory [/tmp/d]; [rnd] is what
    [Math.random] will deliver. *)
Definition world (c : Buffer) (rnd : nat -> Z) : World :=
  mkWorld {[ "/tmp" := Dir; "/tmp/f" := File 7%nat; "/tmp/d" := Dir ]}
          {[ 7%nat := c ]}
          {[ 3 := 7%nat ]}
          (fun n => Buf.byte_of_Z (Z.of_nat n * 37 + 11)) 0
          rnd 0 ∅ [] [].

Definition session (c : Buffer) : File.FileData :=
  File.mkFileData 3 "/tmp/f" (Z.of_nat (length c)).

Definition ten : Buffer := bytes [1; 2; 3; 4; 5; 6; 7; 8; 9; 10].

Definition no_random : nat -> Z := fun _ => 0.

(** The same file, not yet open. *)
Definition closed_world (c : Buffer) : World :=
  with_fdt (fun _ => ∅) (world c no_random).

(** The pattern function of [zeros]. *)
Definition zeros_pattern : Z -> Z -> IO Buffer :=
  fun bufferSize _ => Buf.alloc (H := platform) bufferSize 0.

(** [writeExtended] over no byte at all. *)
Definition empty_run : World * Outcome unit :=
  File.writeExtended (H := platform) 3 0 0 zeros_pattern (world ten no_random).

Definition is_ftruncate (c : Syscall) : bool :=
  match c with
  | SysFtruncate _ _ => true
  | _ => false
  end.

(** [truncate], one pass, on a file of 1000 bytes when [Math.random]
    returns 0. *)
Definition thousand : Buffer := replicate 1000 x00.

Definition truncate_run : World * Outcome unit :=
  File.truncate (session thousand) (File.mkOptions (Some 1) None)
    (world thousand no_random).

(** [truncate], one pass, on the same file when [Math.random] returns
    its largest value, [(2^53 - 1) / 2^53]. *)
Definition truncate_top_run : World * Outcome unit :=
  File.truncate (session thousand) (File.mkOptions (Some 1) None)
    (world thousand (fun _ => 2 ^ 53 - 1)).

(** Draws and sizes on which the rounding written out in
    [File.truncated_size] is compared with the primitive binary64
    numbers, and the comparison. *)
Definition draws : list Z :=
  [0; 1; 2; 3; 2 ^ 52 - 1; 2 ^ 52; 2 ^ 52 + 1; 2 ^ 52 + 2; 2 ^ 52 + 3;
   2 ^ 53 - 3; 2 ^ 53 - 2; 2 ^ 53 - 1; 6305039478318694; 1234567890123457;
   5000000000000001; 7777777777777777; 8999999999999999].

Definition sizes : list Z :=
  [0; 1; 2; 3; 4; 5; 7; 10; 999; 1000; 1001; 4096; 65537; 123456789;
   2 ^ 31; 2 ^ 32 + 1; 2 ^ 40 + 3; 2 ^ 50 - 1; 2 ^ 51 + 1; 3002399751580333;
   2 ^ 52 + 5; 6004799503160663; 2 ^ 53 - 1].

Definition same_as_binary64 (num fileSize : Z) : bool :=
  Double.floor (File.truncate_expression (Double.of_draw num) (Double.of_Z fileSize))
  =? File.truncated_size num fileSize.

(** [truncate], three passes, on a file of one byte. *)
Definition truncate_small_run : World * Outcome unit :=
  File.truncate (session [x00]) (File.mkOptions (Some 3) None)
    (world [x00] (fun n => 2 ^ 52 + Z.of_nat n)).

(** The standard [DOD 5220.22 M] on the file. *)
Definition dod_run : World * Outcome unit :=
  Standards.DOD_5220_22_M_unlink (H := platform) "/tmp/f" (closed_world ten).

(** The world in which a directory has the name that [rename] draws
    first. *)
Definition blocked_world : World :=
  with_names (insert "/tmp/CzBVep0E6Q4z"%string Dir) (world ten no_random).

(** The directory [/a], whose one entry is the file [/a/x]. *)
Definition folder_world : World :=
  mkWorld {[ "/a" := Dir; "/a/x" := File 1%nat ]}
          {[ 1%nat := ten ]}
          ∅
          (fun _ => x00) 0
          no_random 0 ∅ [] [].

(** A removal that touches two paths. *)
Definition removal : Index.Removal :=
  Index.Emit "init" "/a"
    (Index.Emit "removed" "/a" (Index.Emit "mark" "/b" Index.Finished)).

End Sample.

(** ** Vocabulary of the statements *)

Module Spec.

(** *** Logs *)

Definition is_read (c : Syscall) : bool :=
  match c with
  | SysRead _ _ _ => true
  | _ => false
  end.

Definition is_write (c : Syscall) : bool :=
  match c with
  | SysWrite _ _ _ => true
  | _ => false
  end.

(** No call of the log is a read. *)
Definition no_read (calls : list Syscall) : bool :=
  forallb (fun c => negb (is_read c)) calls.

(** The writes to [fd] in a log, as pairs (position, number of bytes). *)
Definition write_range (fd : Z) (c : Syscall) : option (Z * Z) :=
  match c with
  | SysWrite fd' pos data =>
    if fd' =? fd then Some (pos, Z.of_nat (length data)) else None
  | _ => None
  end.

Definition writes_to (fd : Z) (l : list Syscall) : list (Z * Z) :=
  omap (write_range fd) l.

(** What a pass over a file leaves alone: the directory entries, the open
    descriptors, the random sources to come, the tracked folders and the
    events. *)
Definition stable (w w' : World) : Prop :=
  names w' = names w /\ fdt w' = fdt w /\ entropy w' = entropy w
  /\ prng w' = prng w /\ prng_drawn w' = prng_drawn w
  /\ folderSet w' = folderSet w /\ emitted w' = emitted w.

(** *** Chunks *)

(** Where the cursor stands after the chunks [ws], starting from [c]. *)
Definition cursor_after (c : Z) (ws : list (Z * Z)) : Z :=
  fold_left (fun c w => c + snd w) ws c.

(** How many of the chunks [ws] contain the offset [x]. *)
Definition covering (x : Z) (ws : list (Z * Z)) : nat :=
  length (filter (fun w => fst w <= x < fst w + snd w) ws).

Section Chunks.
Context `{Platform}.

(** Every chunk of [ws] starts at the cursor and has length
    [min (size - cursor) kMaxLength]; the cursor then advances by that
    length. *)
Fixpoint consecutive (size cursor : Z) (ws : list (Z * Z)) : Prop :=
  match ws with
  | [] => True
  | (pos, len) :: ws' =>
    pos = cursor /\ len = Z.min (size - cursor) kMaxLength
    /\ consecutive size (cursor + len) ws'
  end.

(** The chunks [writeExtended] cuts [[pos, size)] into, as pairs
    (position, length). *)
Fixpoint chunks_from (fuel : nat) (size pos : Z) : list (Z * Z) :=
  match fuel with
  | O => []
  | S fuel' =>
    if size - pos <=? kMaxLength then [(pos, size - pos)]
    else (pos, kMaxLength) :: chunks_from fuel' size (pos + kMaxLength)
  end.

Definition chunks (size : Z) : list (Z * Z) :=
  chunks_from (File.depth size 0) size 0.

End Chunks.

(** A pattern function that [writeExtended] can be run with: asked for
    [len] bytes, at most [limit], it returns a buffer of [len] bytes, and it
    leaves the file and its descriptor alone, issuing no write of its
    own. *)
Definition well_behaved (fd : Z) (limit : Z) (getBuffer : Z -> Z -> IO Buffer) : Prop :=
  forall len pos w,
    0 <= len <= limit -> 0 <= pos ->
    is_Some (Fs.content_of w fd) ->
    exists data w' calls,
      getBuffer len pos w = (w', Ok data)
      /\ Z.of_nat (length data) = len
      /\ Fs.content_of w' fd = Fs.content_of w fd
      /\ syscalls w' = syscalls w ++ calls
      /\ forallb (fun c => negb (is_write c)) calls = true.

(** *** The calls of a pass *)

(** The writes of one pass that fills its chunks with the byte [v]. *)
Definition const_calls (fd : Z) (v : byte) (chs : list (Z * Z)) : list Syscall :=
  map (fun ch => SysWrite fd (fst ch) (replicate (Z.to_nat (snd ch)) v)) chs.

(** The writes of one pass that fills its chunks with the repeated
    bytes [fill]. *)
Definition array_calls (fd : Z) (fill : Buffer) (chs : list (Z * Z)) : list Syscall :=
  map (fun ch => SysWrite fd (fst ch) (Buf.cycle fill fill (Z.to_nat (snd ch)))) chs.

(** The calls of one random pass that starts when [d] bytes of entropy
    have been drawn: each chunk draws its bytes, then writes them. *)
Definition random_calls (fd : Z) (e : nat -> byte) (d : nat) (chs : list (Z * Z))
    : list Syscall :=
  flat_map
    (fun ch =>
       [SysRandomBytes (snd ch);
        SysWrite fd (fst ch)
          (map e (seq (d + Z.to_nat (fst ch)) (Z.to_nat (snd ch))))])
    chs.

(** The calls of one complement pass over a file whose content is [c] when
    the pass starts: each chunk is read at its offset, and the complement
    of what [c] holds there is written back at that offset. *)
Definition complement_calls (fd : Z) (c : Buffer) (chs : list (Z * Z)) : list Syscall :=
  flat_map
    (fun ch =>
       [SysRead fd (fst ch) (snd ch);
        SysWrite fd (fst ch)
          (map File.complement
               (take (Z.to_nat (snd ch)) (drop (Z.to_nat (fst ch)) c)))])
    chs.

(** *** Sequences of passes *)

(** One sweep over the whole file: random data, a constant byte, or a
    repeated array of bytes. *)
Inductive Pass :=
| Random
| Const (b : byte)
| Array (fill : Buffer).

(** The calls of the pass [p] on a file cut into the chunks [chs], when
    [d] bytes of the entropy [e] have been drawn before. *)
Definition pass_calls (fd : Z) (e : nat -> byte) (chs : list (Z * Z)) (p : Pass) (d : nat)
    : list Syscall :=
  match p with
  | Random => random_calls fd e d chs
  | Const b => const_calls fd b chs
  | Array fill => array_calls fd fill chs
  end.

(** The bytes of entropy a pass over [size] bytes draws. *)
Definition pass_draws (size : Z) (p : Pass) : nat :=
  match p with
  | Random => Z.to_nat size
  | _ => 0%nat
  end.

Fixpoint draws (size : Z) (ps : list Pass) : nat :=
  match ps with
  | [] => 0%nat
  | p :: ps' => (pass_draws size p + draws size ps')%nat
  end.

Fixpoint passes_calls (fd : Z) (e : nat -> byte) (chs : list (Z * Z)) (size : Z)
    (ps : list Pass) (d : nat) : list Syscall :=
  match ps with
  | [] => []
  | p :: ps' =>
    pass_calls fd e chs p d ++ passes_calls fd e chs size ps' (d + pass_draws size p)
  end.

(** The operation [op] performs the passes [ps] on the open file [fd] of
    [size] bytes: it returns, its calls are those of the passes, and it
    leaves the rest of the world as it is. *)
Definition performs `{Platform} (fd size : Z) (op : IO unit) (ps : list Pass) : Prop :=
  forall w,
    is_Some (Fs.content_of w fd) ->
    exists w',
      op w = (w', Ok tt)
      /\ is_Some (Fs.content_of w' fd)
      /\ syscalls w'
         = syscalls w ++ passes_calls fd (entropy w) (chunks size) size ps (drawn w)
      /\ stable w w'
      /\ drawn w' = (drawn w + draws size ps)%nat.

(** The computation [k] performs the passes [ps] on the file of the
    session, then closes and unlinks it, emitting one [removed] event. *)
Definition finishes `{Platform} (fileData : File.FileData) (k : IO unit) (ps : list Pass)
    : Prop :=
  forall w ino ino',
    fdt w !! File.fd fileData = Some ino ->
    names w !! File.fileName fileData = Some (File ino') ->
    is_Some (Fs.content_of w (File.fd fileData)) ->
    exists w',
      k w = (w', Ok tt)
      /\ syscalls w'
         = syscalls w
           ++ passes_calls (File.fd fileData) (entropy w)
                (chunks (File.fileSize fileData)) (File.fileSize fileData) ps (drawn w)
           ++ [SysClose (File.fd fileData); SysUnlink (File.fileName fileData)]
      /\ names w' = delete (File.fileName fileData) (names w)
      /\ fdt w' = delete (File.fd fileData) (fdt w)
      /\ emitted w'
         = emitted w ++ [(File.eventEmitter, "removed"%string, File.fileName fileData)].

(** The values the loop of [forByte] takes, and whether it ends within
    [fuel] iterations. *)
Fixpoint counter_values (fuel : nat) (i : Z) (condition : Z -> bool) (increment : Z -> Z)
    : list Z :=
  match fuel with
  | O => []
  | S fuel' =>
    if condition i then i :: counter_values fuel' (increment i) condition increment
    else []
  end.

Fixpoint counter_ends (fuel : nat) (i : Z) (condition : Z -> bool) (increment : Z -> Z)
    : bool :=
  match fuel with
  | O => false
  | S fuel' =>
    if condition i then counter_ends fuel' (increment i) condition increment
    else true
  end.

(** The passes of the [gutmann] standard as its description lists them, to
    be compared with the run of [Standards.gutmann_unlink]: 4 random passes,
    two bytes, three arrays, the counter sweep from 0x00 to 0xEE, six
    arrays, 4 random passes. *)
Definition gutmann_passes : list Pass :=
  [Random; Random; Random; Random;
   Const x55; Const xaa;
   Array [x92; x49; x24]; Array [x49; x24; x92]; Array [x24; x92; x49];
   Const x00; Const x11; Const x22; Const x33; Const x44; Const x55; Const x66;
   Const x77; Const x88; Const x99; Const xaa; Const xbb; Const xcc; Const xdd;
   Const xee;
   Array [x92; x49; x24]; Array [x49; x24; x92]; Array [x24; x92; x49];
   Array [x6d; xb6; xdb]; Array [xb6; xdb; x6d]; Array [xdb; x6d; xb6];
   Random; Random; Random; Random].

(** *** Truncation *)

(** The sizes [truncate] sets one after the other, starting from a file of
    [cur] bytes: each is at least a quarter of the size before it, rounded
    down, and at most three quarters of it; so it does not exceed the size
    before it and is smaller when that is positive. *)
Fixpoint shrinking (cur : Z) (sizes : list Z) : Prop :=
  match sizes with
  | [] => True
  | s :: rest =>
    (cur <= 4 * s + 3 /\ 4 * s <= 3 * cur)
    /\ s <= cur /\ (0 < cur -> s < cur)
    /\ shrinking s rest
  end.

(** A double that is an integer: at most 53 significant bits. *)
Definition representable (a : Z) : Prop :=
  exists c t, 0 <= c < 2 ^ 53 /\ 0 <= t /\ a = c * 2 ^ t.

(** "Strictly between 25% and 75% of [cur]". *)
Definition strictly_between_quarters (s cur : Z) : Prop :=
  cur < 4 * s /\ 4 * s < 3 * cur.

(** *** Generated names *)

(** The characters of a generated name: digits and unaccented letters. *)
Definition is_alnum (c : ascii) : bool :=
  let n := N.to_nat (N_of_ascii c) in
  ((48 <=? n) && (n <=? 57) || (65 <=? n) && (n <=? 90)
   || (97 <=? n) && (n <=? 122))%nat.

Definition all_alnum (s : string) : bool :=
  forallb is_alnum (list_ascii_of_string s).

(** The base-64 digit [i] after the two replacements of [new_name] is a
    digit or a letter. *)
Definition safe_digit (i : Z) : bool :=
  is_alnum
    (if Ascii.eqb (if Ascii.eqb (Base64.digit i) "/" then "0"%char else Base64.digit i) "+"
     then "a"%char
     else if Ascii.eqb (Base64.digit i) "/" then "0"%char else Base64.digit i).

(** *** The mark protocol *)

(** Whether the directory [p] has entries. *)
Definition nonempty (ns : gmap string Entry) (p : string) : bool :=
  match Fs.children ns p with
  | [] => false
  | _ :: _ => true
  end.

(** The visits a traversal pays to directories, in order: each is a call
    of [Dir.mark]; a failed visit does not stop the traversal, which takes
    it as "not yet".  The outcomes of the visits are returned. *)
Fixpoint visits (ps : list string) (em : EventEmitter) (w : World)
    : World * list (Outcome unit) :=
  match ps with
  | [] => (w, [])
  | p :: ps' =>
    let (w1, o) := Dir.mark p em w in
    let (w2, os) := visits ps' em w1 in
    (w2, o :: os)
  end.

Definition times_seen (seen : list string) (p : string) : nat :=
  count_occ string_dec seen p.

(** A visit to a directory with entries that has been visited an even
    number of times before is a first visit. *)
Definition first_visit (ne : string -> bool) (seen : list string) (p : string) : bool :=
  ne p && Nat.even (times_seen seen p).

(** What the protocol prescribes for the visits [ps] after the visits
    [seen]: a first visit fails with [ENOTEMPTY], the others succeed. *)
Fixpoint outcomes (ne : string -> bool) (seen ps : list string) : list (Outcome unit) :=
  match ps with
  | [] => []
  | p :: ps' =>
    (if first_visit ne seen p then Throw ENOTEMPTY else Ok tt)
      :: outcomes ne (seen ++ [p]) ps'
  end.

(** The paths of the mark events: one for every visit that succeeds. *)
Fixpoint marks (ne : string -> bool) (seen ps : list string) : list string :=
  match ps with
  | [] => []
  | p :: ps' =>
    (if first_visit ne seen p then [] else [p]) ++ marks ne (seen ++ [p]) ps'
  end.

(** The tracked paths after the visits [seen]: the directories with entries
    that have been visited an odd number of times. *)
Definition tracking (ne : string -> bool) (seen : list string) (s : gset string) : Prop :=
  forall q, q ∈ s <-> ne q = true /\ Nat.odd (times_seen seen q) = true.

(** *** The removal *)

(** The events a removal emits, as pairs (name, path). *)
Fixpoint events_of (r : Index.Removal) : list (string * string) :=
  match r with
  | Index.Finished | Index.Failed _ => []
  | Index.Emit name path rest => (name, path) :: events_of rest
  end.

(** How a removal ends. *)
Fixpoint outcome_of (r : Index.Removal) : Outcome unit :=
  match r with
  | Index.Finished => Ok tt
  | Index.Failed e => Throw e
  | Index.Emit _ _ rest => outcome_of rest
  end.

(** The paths of the [init] and [mark] events among [evs], in order. *)
Definition touched (evs : list (string * string)) : list string :=
  map snd
    (List.filter (fun e => String.eqb (fst e) "init" || String.eqb (fst e) "mark") evs).

(** The invariant of [count] and [index]: after the events [evs], [index]
    holds the touched paths and [count] is its length. *)
Definition counted (evs : list (string * string)) (l : Index.Locals) : Prop :=
  Index.count l = Z.of_nat (length (Index.index l))
  /\ Index.index l = touched evs.

(** *** Contents *)

(** A pattern function whose buffer depends on the chunk alone: asked for
    [len] bytes for the offset [pos] it returns [pat len pos], of [len]
    bytes, and changes nothing. *)
Definition pure_pattern `{Platform} (getBuffer : Z -> Z -> IO Buffer)
    (pat : Z -> Z -> Buffer) : Prop :=
  forall len pos w,
    0 <= len <= kMaxLength -> 0 <= pos ->
    getBuffer len pos w = (w, Ok (pat len pos))
    /\ Z.of_nat (length (pat len pos)) = len.

(** The buffers of the chunks [chs], one after the other. *)
Definition fill_of (pat : Z -> Z -> Buffer) (chs : list (Z * Z)) : Buffer :=
  flat_map (fun ch => pat (snd ch) (fst ch)) chs.

(** [n] bytes of the repeated [fill] as [byteArray] lays them out: the
    repetition starts again at every multiple of [kMaxLength]. *)
Definition restarting `{Platform} (fill : Buffer) (n : nat) : Buffer :=
  map (fun x => nth ((x mod Z.to_nat kMaxLength) mod length fill) fill x00) (seq 0 n).

(** The [n] bytes of the entropy [e] that follow the first [d]. *)
Definition entropy_bytes (e : nat -> byte) (d n : nat) : Buffer :=
  map e (seq d n).

(** *** Standards *)

(** The standard, given the path of a file, opens it, performs the passes
    [ps] over it, closes and unlinks it and emits one [removed] event. *)
Definition overwrites_with `{Platform} (standard : string -> IO unit) (ps : list Pass)
    : Prop :=
  forall path w ino c,
    names w !! path = Some (File ino) ->
    inodes w !! ino = Some c ->
    exists w',
      standard path w = (w', Ok tt)
      /\ syscalls w'
         = syscalls w
           ++ [SysStat path; SysOpen path (fresh (dom (fdt w)))]
           ++ passes_calls (fresh (dom (fdt w))) (entropy w)
                (chunks (Z.of_nat (length c))) (Z.of_nat (length c)) ps (drawn w)
           ++ [SysClose (fresh (dom (fdt w))); SysUnlink path]
      /\ names w' = delete path (names w)
      /\ fdt w' = fdt w
      /\ emitted w' = emitted w ++ [(File.eventEmitter, "removed"%string, path)].

End Spec.

Import Spec.

(** ** Reasoning about [IO] *)

Section IOFacts.

Lemma bind_Ok {A B} (m : IO A) (k : A -> IO B) w w1 a :
  m w = (w1, Ok a) -> bind m k w = k a w1.
Proof. intros E. unfold bind. now rewrite E. Qed.

Lemma for_passes_default body w :
  File.for_passes (File.passes_of File.no_options) body w
  = bind (body 0) (fun _ => ret tt) w.
Proof. reflexivity. Qed.

End IOFacts.

(** ** [Fs.write] *)

Section WriteFacts.

Lemma write_Ok fd data len pos w c :
  Fs.content_of w fd = Some c ->
  0 <= pos -> len = Z.of_nat (length data) ->
  exists w',
    Fs.write fd data 0 len pos w = (w', Ok tt)
    /\ Fs.content_of w' fd = Some (Fs.write_at c (Z.to_nat pos) data)
    /\ syscalls w' = syscalls w ++ [SysWrite fd pos data]
    /\ stable w w' /\ drawn w' = drawn w.
Proof.
  intros Hc Hpos ->. unfold Fs.content_of in Hc.
  destruct (fdt w !! fd) as [ino|] eqn:Hfd; [|discriminate].
  unfold Fs.write.
  replace ((0 <? 0) || (Z.of_nat (length data) <? 0) || (pos <? 0)
           || (Z.of_nat (length data) <? 0 + Z.of_nat (length data))) with false
    by (symmetry; repeat (apply orb_false_intro); apply Z.ltb_ge; lia).
  rewrite Hfd, Hc. simpl drop.
  rewrite Nat2Z.id, firstn_all.
  eexists. split; [reflexivity|].
  unfold Fs.content_of, stable; simpl. rewrite Hfd, lookup_insert_eq.
  repeat split; reflexivity.
Qed.

Lemma stable_refl w : stable w w.
Proof. unfold stable. repeat split; reflexivity. Qed.

Lemma stable_trans w1 w2 w3 : stable w1 w2 -> stable w2 w3 -> stable w1 w3.
Proof.
  unfold stable. intros (?&?&?&?&?&?&?) (?&?&?&?&?&?&?).
  repeat split; congruence.
Qed.

End WriteFacts.

(** ** The chunked writer *)

Section ChunkedWriter.
Context `{Platform}.

Lemma depth_step size pos :
  kMaxLength < size - pos ->
  File.depth size pos = S (File.depth size (pos + kMaxLength)).
Proof.
  intros Hlt. unfold File.depth. f_equal.
  pose proof kMaxLength_pos as Hk.
  replace (size - pos) with ((size - (pos + kMaxLength)) + 1 * kMaxLength) by lia.
  rewrite Z.div_add by lia.
  rewrite Z2Nat.inj_add; [|apply Z.div_pos; lia|lia].
  change (Z.to_nat 1) with 1%nat. lia.
Qed.

(** An invariant [I], indexed by the cursor, that every chunk re-establishes
    holds at [size] when [writeExtended_rec] returns, and it does return
    once the fuel covers the depth of the recursion. *)
Lemma writeExtended_rec_rule (I : Z -> World -> Prop) fd size getBuffer :
  (forall pos w, I pos w -> 0 <= pos <= size ->
     exists data w1 w2,
       getBuffer (Z.min (size - pos) kMaxLength) pos w = (w1, Ok data)
       /\ Fs.write fd data 0 (Z.min (size - pos) kMaxLength) pos w1 = (w2, Ok tt)
       /\ I (pos + Z.min (size - pos) kMaxLength) w2) ->
  forall fuel pos w,
    I pos w -> 0 <= pos <= size -> (File.depth size pos <= fuel)%nat ->
    exists w', File.writeExtended_rec fuel fd size pos getBuffer w = (w', Ok tt)
               /\ I size w'.
Proof.
  intros Hstep. pose proof kMaxLength_pos as Hk.
  induction fuel as [|fuel IH]; intros pos w HI Hpos Hfuel.
  - unfold File.depth in Hfuel. lia.
  - destruct (Hstep pos w HI Hpos) as (data & w1 & w2 & Hg & Hw & HI2).
    cbn [File.writeExtended_rec].
    destruct (Z.leb_spec (size - pos) kMaxLength) as [Hle|Hgt].
    + rewrite Z.min_l in * by lia.
      rewrite (bind_Ok _ _ _ _ _ Hg), (bind_Ok _ _ _ _ _ Hw).
      exists w2. split; [reflexivity|].
      now replace (pos + (size - pos)) with size in HI2 by lia.
    + rewrite Z.min_r in * by lia.
      rewrite (bind_Ok _ _ _ _ _ Hg), (bind_Ok _ _ _ _ _ Hw).
      apply IH; [assumption|lia|].
      rewrite depth_step in Hfuel by lia. lia.
Qed.

Lemma writeExtended_rule (I : Z -> World -> Prop) fd size getBuffer w :
  (forall pos w, I pos w -> 0 <= pos <= size ->
     exists data w1 w2,
       getBuffer (Z.min (size - pos) kMaxLength) pos w = (w1, Ok data)
       /\ Fs.write fd data 0 (Z.min (size - pos) kMaxLength) pos w1 = (w2, Ok tt)
       /\ I (pos + Z.min (size - pos) kMaxLength) w2) ->
  I 0 w -> 0 <= size ->
  exists w', File.writeExtended fd size 0 getBuffer w = (w', Ok tt) /\ I size w'.
Proof.
  intros Hstep HI Hsize. unfold File.writeExtended.
  eapply writeExtended_rec_rule; eauto. lia.
Qed.

(** The same rule, with the log: when each chunk appends [f pos len] to
    the log, the run appends these for the chunks in order. *)
Lemma writeExtended_rec_log (I : Z -> World -> Prop) (f : Z * Z -> list Syscall)
    fd size getBuffer :
  (forall pos w, I pos w -> 0 <= pos <= size ->
     exists data w1 w2,
       getBuffer (Z.min (size - pos) kMaxLength) pos w = (w1, Ok data)
       /\ Fs.write fd data 0 (Z.min (size - pos) kMaxLength) pos w1 = (w2, Ok tt)
       /\ I (pos + Z.min (size - pos) kMaxLength) w2
       /\ syscalls w2 = syscalls w ++ f (pos, Z.min (size - pos) kMaxLength)) ->
  forall fuel pos w,
    I pos w -> 0 <= pos <= size -> (File.depth size pos <= fuel)%nat ->
    exists w', File.writeExtended_rec fuel fd size pos getBuffer w = (w', Ok tt)
               /\ I size w'
               /\ syscalls w' = syscalls w ++ flat_map f (chunks_from fuel size pos).
Proof.
  intros Hstep. pose proof kMaxLength_pos as Hk.
  induction fuel as [|fuel IH]; intros pos w HI Hpos Hfuel.
  - unfold File.depth in Hfuel. lia.
  - destruct (Hstep pos w HI Hpos) as (data & w1 & w2 & Hg & Hw & HI2 & Hlog).
    cbn [File.writeExtended_rec chunks_from].
    destruct (Z.leb_spec (size - pos) kMaxLength) as [Hle|Hgt].
    + rewrite Z.min_l in * by lia.
      rewrite (bind_Ok _ _ _ _ _ Hg), (bind_Ok _ _ _ _ _ Hw).
      exists w2. split; [reflexivity|]. cbn [flat_map]. rewrite app_nil_r.
      split; [|assumption].
      now replace (pos + (size - pos)) with size in HI2 by lia.
    + rewrite Z.min_r in * by lia.
      rewrite (bind_Ok _ _ _ _ _ Hg), (bind_Ok _ _ _ _ _ Hw).
      destruct (IH (pos + kMaxLength) w2) as (w' & Hrun & HI' & Hlog'); [assumption|lia| |].
      { rewrite depth_step in Hfuel by lia. lia. }
      exists w'. split; [assumption|]. split; [assumption|].
      rewrite Hlog', Hlog. cbn [flat_map]. now rewrite <- app_assoc.
Qed.

Lemma writeExtended_log (I : Z -> World -> Prop) (f : Z * Z -> list Syscall)
    fd size getBuffer w :
  (forall pos w, I pos w -> 0 <= pos <= size ->
     exists data w1 w2,
       getBuffer (Z.min (size - pos) kMaxLength) pos w = (w1, Ok data)
       /\ Fs.write fd data 0 (Z.min (size - pos) kMaxLength) pos w1 = (w2, Ok tt)
       /\ I (pos + Z.min (size - pos) kMaxLength) w2
       /\ syscalls w2 = syscalls w ++ f (pos, Z.min (size - pos) kMaxLength)) ->
  I 0 w -> 0 <= size ->
  exists w', File.writeExtended fd size 0 getBuffer w = (w', Ok tt)
             /\ I size w'
             /\ syscalls w' = syscalls w ++ flat_map f (chunks size).
Proof.
  intros Hstep HI Hsize. unfold File.writeExtended, chunks.
  eapply writeExtended_rec_log; eauto. lia.
Qed.

(** More fuel than the depth changes nothing. *)
Lemma writeExtended_rec_fuel fd size getBuffer :
  forall fuel pos w,
    (File.depth size pos <= fuel)%nat ->
    File.writeExtended_rec fuel fd size pos getBuffer w
    = File.writeExtended fd size pos getBuffer w.
Proof.
  pose proof kMaxLength_pos as Hk. unfold File.writeExtended.
  induction fuel as [|fuel IH]; intros pos w Hfuel.
  - unfold File.depth in Hfuel. lia.
  - destruct (Z.leb_spec (size - pos) kMaxLength) as [Hle|Hgt].
    + unfold File.depth at 1. cbn [File.writeExtended_rec].
      destruct (Z.leb_spec (size - pos) kMaxLength); [reflexivity|lia].
    + rewrite depth_step by lia. rewrite depth_step in Hfuel by lia.
      cbn [File.writeExtended_rec].
      destruct (Z.leb_spec (size - pos) kMaxLength); [lia|].
      unfold bind. destruct (getBuffer kMaxLength pos w) as [w1 [data| |]]; try reflexivity.
      destruct (Fs.write fd data 0 kMaxLength pos w1) as [w2 [[]| |]]; try reflexivity.
      apply IH. lia.
Qed.

End ChunkedWriter.

(** ** Chunk lists *)

Section Chunks.
Context `{Platform}.

Lemma writes_to_app fd l1 l2 :
  writes_to fd (l1 ++ l2) = writes_to fd l1 ++ writes_to fd l2.
Proof. unfold writes_to. apply omap_app. Qed.

Lemma writes_to_no_write fd l :
  forallb (fun c => negb (is_write c)) l = true -> writes_to fd l = [].
Proof.
  induction l as [|c l IH]; [reflexivity|]. cbn [forallb].
  intros [Hc Hl]%andb_prop. unfold writes_to in *. cbn [omap].
  destruct c; try discriminate; cbn; auto.
Qed.

Lemma writes_to_write fd pos data :
  writes_to fd [SysWrite fd pos data] = [(pos, Z.of_nat (length data))].
Proof. unfold writes_to. cbn. now rewrite Z.eqb_refl. Qed.

Lemma cursor_after_snoc c ws p l :
  cursor_after c (ws ++ [(p, l)]) = cursor_after c ws + l.
Proof. unfold cursor_after. now rewrite fold_left_app. Qed.

Lemma consecutive_snoc size ws : forall c p l,
  consecutive size c ws ->
  p = cursor_after c ws -> l = Z.min (size - p) kMaxLength ->
  consecutive size c (ws ++ [(p, l)]).
Proof.
  induction ws as [|[p0 l0] ws IH]; intros c p l Hc Hp Hl; cbn in *.
  - subst. auto.
  - destruct Hc as (-> & -> & Hc). repeat split; auto.
Qed.

Lemma covering_cons x p l ws :
  covering x ((p, l) :: ws)
  = Nat.add (if decide (p <= x < p + l) then 1%nat else 0%nat) (covering x ws).
Proof.
  unfold covering. rewrite filter_cons. cbn [fst snd].
  destruct (decide (p <= x < p + l)); reflexivity.
Qed.

(** Chunks that follow one another from [c] stay below [size], contain
    every offset between [c] and the final cursor once, and no other. *)
Lemma consecutive_covering size ws : forall c,
  consecutive size c ws -> c <= size ->
  c <= cursor_after c ws <= size
  /\ forall x, covering x ws
               = if decide (c <= x < cursor_after c ws) then 1%nat else 0%nat.
Proof.
  pose proof kMaxLength_pos as Hk.
  induction ws as [|[p l] ws IH]; intros c Hc Hle.
  - cbn. split; [lia|]. intros x. destruct (decide (c <= x < c)); [lia|reflexivity].
  - cbn in Hc. destruct Hc as (-> & -> & Hc).
    change (cursor_after c ((c, Z.min (size - c) kMaxLength) :: ws))
      with (cursor_after (c + Z.min (size - c) kMaxLength) ws).
    destruct (IH _ Hc ltac:(lia)) as [Hb Hcov].
    split; [lia|]. intros x. rewrite covering_cons, Hcov.
    repeat case_decide; lia.
Qed.

End Chunks.

(** ** What the pattern functions of [file.ts] do

    Each of them is well behaved in the sense of [well_behaved]. *)

Section Patterns.
Context `{Platform}.

Lemma alloc_Ok len fill w :
  0 <= len <= kMaxLength ->
  Buf.alloc len fill w = (w, Ok (replicate (Z.to_nat len) (Buf.byte_of_Z fill))).
Proof.
  intros Hlen. unfold Buf.alloc.
  destruct (Z.ltb_spec len 0); [lia|]. destruct (Z.ltb_spec kMaxLength len); [lia|].
  reflexivity.
Qed.

Lemma alloc_well_behaved fd fill :
  well_behaved fd kMaxLength (fun bufferSize _ => Buf.alloc bufferSize fill).
Proof.
  intros len pos w Hlen Hpos Hc. exists (replicate (Z.to_nat len) (Buf.byte_of_Z fill)), w, [].
  rewrite alloc_Ok by assumption. rewrite length_replicate, app_nil_r.
  repeat split; auto. lia.
Qed.

Lemma cycle_length (pat : Buffer) n : forall cur,
  pat <> [] -> length (Buf.cycle pat cur n) = n.
Proof.
  induction n as [|n IH]; intros cur Hpat; [reflexivity|].
  cbn [Buf.cycle]. destruct cur as [|b cur].
  - destruct pat as [|b pat]; [congruence|]. cbn [length]. now rewrite IH.
  - cbn [length]. now rewrite IH.
Qed.

Lemma alloc_from_Ok len (fill : Buffer) w :
  0 <= len <= kMaxLength -> fill <> [] ->
  Buf.alloc_from len fill w = (w, Ok (Buf.cycle fill fill (Z.to_nat len))).
Proof.
  intros Hlen Hfill. unfold Buf.alloc_from.
  destruct (Z.ltb_spec len 0); [lia|]. destruct (Z.ltb_spec kMaxLength len); [lia|].
  destruct fill; [congruence|reflexivity].
Qed.

Lemma alloc_from_well_behaved fd (fill : Buffer) :
  fill <> [] ->
  well_behaved fd kMaxLength (fun bufferSize _ => Buf.alloc_from bufferSize fill).
Proof.
  intros Hfill len pos w Hlen Hpos Hc.
  exists (Buf.cycle fill fill (Z.to_nat len)), w, [].
  rewrite alloc_from_Ok by assumption. rewrite cycle_length by assumption.
  rewrite app_nil_r. repeat split; auto. lia.
Qed.

Lemma randomBytes_Ok len w :
  0 <= len ->
  Crypto.randomBytes len w
  = (with_drawn (drawn w + Z.to_nat len) (log (SysRandomBytes len) w),
     Ok (map (entropy w) (seq (drawn w) (Z.to_nat len)))).
Proof.
  intros Hlen. unfold Crypto.randomBytes. destruct (Z.ltb_spec len 0); [lia|reflexivity].
Qed.

Lemma randomBytes_well_behaved fd :
  well_behaved fd kMaxLength (fun bufferSize _ => Crypto.randomBytes bufferSize).
Proof.
  intros len pos w Hlen Hpos Hc.
  eexists _, _, [SysRandomBytes len]. rewrite randomBytes_Ok by lia.
  split; [reflexivity|]. rewrite length_map, length_seq.
  repeat split; auto. lia.
Qed.

Lemma read_Ok fd len pos w c :
  Fs.content_of w fd = Some c -> 0 <= len -> 0 <= pos ->
  Fs.read fd (replicate (Z.to_nat len) x00) 0 len pos w
  = (log (SysRead fd pos len) w,
     Ok (take (Z.to_nat len) (drop (Z.to_nat pos) c)
         ++ drop (length (take (Z.to_nat len) (drop (Z.to_nat pos) c)))
              (replicate (Z.to_nat len) x00))).
Proof.
  intros Hc Hlen Hpos. unfold Fs.read. rewrite Hc, length_replicate.
  destruct (Z.ltb_spec 0 0); [lia|]. destruct (Z.ltb_spec len 0); [lia|].
  destruct (Z.ltb_spec pos 0); [lia|].
  destruct (Z.ltb_spec (Z.of_nat (Z.to_nat len)) (0 + len)); [lia|].
  reflexivity.
Qed.

(** The chunk that the pattern function of [complementary] returns. *)
Lemma complement_chunk_Ok fd len pos w c :
  Fs.content_of w fd = Some c -> 0 <= len <= kMaxLength -> 0 <= pos ->
  exists data,
    (let* buffer := Buf.alloc len 0 in
     let* data := Fs.read fd buffer 0 len pos in
     ret (map File.complement data)) w
    = (log (SysRead fd pos len) w, Ok (map File.complement data))
    /\ Z.of_nat (length data) = len
    /\ ((Z.to_nat pos + Z.to_nat len <= length c)%nat ->
        data = take (Z.to_nat len) (drop (Z.to_nat pos) c)).
Proof.
  intros Hc Hlen Hpos. eexists.
  rewrite (bind_Ok _ _ _ _ _ (alloc_Ok len 0 w Hlen)).
  change (Buf.byte_of_Z 0) with x00.
  rewrite (bind_Ok _ _ _ _ _ (read_Ok fd len pos w c Hc ltac:(lia) Hpos)).
  split; [reflexivity|]. split.
  - rewrite length_app, length_drop, length_replicate, length_take, length_drop. lia.
  - intros Hin. rewrite length_take, length_drop.
    replace (Nat.min (Z.to_nat len) (length c - Z.to_nat pos)) with (Z.to_nat len) by lia.
    rewrite (drop_ge (replicate (Z.to_nat len) x00)) by (rewrite length_replicate; lia).
    apply app_nil_r.
Qed.

Lemma complement_well_behaved fd :
  well_behaved fd kMaxLength
    (fun bufferSize pos =>
       let* buffer := Buf.alloc bufferSize 0 in
       let* data := Fs.read fd buffer 0 bufferSize pos in
       ret (map File.complement data)).
Proof.
  intros len pos w Hlen Hpos [c Hc].
  destruct (complement_chunk_Ok fd len pos w c Hc Hlen Hpos) as (data & Hrun & Hl & _).
  eexists _, _, [SysRead fd pos len]. split; [exact Hrun|].
  rewrite length_map. repeat split; auto.
Qed.

End Patterns.

(** ** Properties of the chunked writer *)

Section WriterProperties.
Context `{Platform}.

(** C1.  For a descriptor of an open file, a size [0 <= size] and a
    well-behaved pattern function, [writeExtended fd size 0 getBuffer]
    returns, and the writes it issues to [fd] are consecutive: each starts
    at the cursor and has length [min (size - cursor) kMaxLength], the
    cursor advances by that length and ends at [size]; every offset of
    [[0, size)] lies in exactly one of them and no other offset lies in
    any. *)
Theorem writeExtended_covers_range fd size getBuffer w :
  0 <= size ->
  is_Some (Fs.content_of w fd) ->
  well_behaved fd kMaxLength getBuffer ->
  exists w' calls,
    File.writeExtended fd size 0 getBuffer w = (w', Ok tt)
    /\ syscalls w' = syscalls w ++ calls
    /\ consecutive size 0 (writes_to fd calls)
    /\ cursor_after 0 (writes_to fd calls) = size
    /\ forall x, covering x (writes_to fd calls)
                 = if decide (0 <= x < size) then 1%nat else 0%nat.
Proof.
  intros Hsize Hopen Hgb. pose proof kMaxLength_pos as Hk.
  set (I := fun (pos : Z) (w1 : World) =>
    is_Some (Fs.content_of w1 fd)
    /\ exists calls, syscalls w1 = syscalls w ++ calls
         /\ consecutive size 0 (writes_to fd calls)
         /\ cursor_after 0 (writes_to fd calls) = pos).
  destruct (writeExtended_rule I fd size getBuffer w) as (w' & Hrun & HI); try assumption.
  - intros pos w0 (Hop & calls & Hlog & Hcons & Hcur) Hpos.
    destruct (Hgb (Z.min (size - pos) kMaxLength) pos w0) as
      (data & w1 & calls1 & Hg & Hlen & Hcont & Hlog1 & Hnw); [lia|lia|assumption|].
    destruct Hop as [c Hc]. rewrite <- Hcont in Hc.
    destruct (write_Ok fd data (Z.min (size - pos) kMaxLength) pos w1 c Hc)
      as (w2 & Hw & Hc2 & Hlog2 & _); [lia|lia|].
    exists data, w1, w2. split; [assumption|]. split; [assumption|].
    split; [eauto|].
    exists (calls ++ calls1 ++ [SysWrite fd pos data]).
    rewrite Hlog2, Hlog1, Hlog, <- !app_assoc. split; [reflexivity|].
    rewrite !writes_to_app, (writes_to_no_write _ _ Hnw), writes_to_write, Hlen.
    cbn [app]. split.
    + apply consecutive_snoc; auto.
    + now rewrite cursor_after_snoc, Hcur.
  - split; [assumption|]. exists []. rewrite app_nil_r. cbn. auto.
  - destruct HI as (_ & calls & Hlog & Hcons & Hcur).
    exists w', calls. repeat (split; [assumption|]).
    destruct (consecutive_covering size _ 0 Hcons Hsize) as [_ Hcov].
    intros x. rewrite Hcov, Hcur. reflexivity.
Qed.

End WriterProperties.

(** ** Passes *)

Section Passes.
Context `{Platform}.

Lemma flat_map_singleton {A B} (g : A -> B) (l : list A) :
  flat_map (fun x => [g x]) l = map g l.
Proof. induction l as [|x l IH]; cbn; congruence. Qed.

Lemma write_at_fill (b : Byte.byte) (c : Buffer) (pos len : nat) :
  Fs.write_at (replicate pos b ++ drop pos c) pos (replicate len b)
  = replicate (pos + len) b ++ drop (pos + len) c.
Proof.
  unfold Fs.write_at.
  rewrite take_app_length' by (now rewrite length_replicate).
  rewrite length_app, !length_replicate, length_drop.
  replace (pos - (pos + (length c - pos)))%nat with 0%nat by lia.
  rewrite drop_app, drop_ge by (rewrite length_replicate; lia).
  rewrite length_replicate, drop_drop.
  replace (pos + (pos + len - pos))%nat with (pos + len)%nat by lia.
  cbn [replicate app]. now rewrite replicate_add, <- app_assoc.
Qed.

(** One pass with a constant byte: the writes, the content afterwards, and
    what is left alone. *)
Lemma alloc_pass fd size v w c :
  Fs.content_of w fd = Some c -> 0 <= size ->
  exists w',
    File.writeExtended fd size 0 (fun bufferSize _ => Buf.alloc bufferSize v) w
    = (w', Ok tt)
    /\ Fs.content_of w' fd
       = Some (replicate (Z.to_nat size) (Buf.byte_of_Z v) ++ drop (Z.to_nat size) c)
    /\ syscalls w' = syscalls w ++ const_calls fd (Buf.byte_of_Z v) (chunks size)
    /\ stable w w' /\ drawn w' = drawn w.
Proof.
  intros Hc Hsize. pose proof kMaxLength_pos as Hk.
  set (b := Buf.byte_of_Z v).
  set (I := fun (pos : Z) (w1 : World) =>
    Fs.content_of w1 fd = Some (replicate (Z.to_nat pos) b ++ drop (Z.to_nat pos) c)
    /\ stable w w1 /\ drawn w1 = drawn w).
  destruct (writeExtended_log I
              (fun ch => [SysWrite fd (fst ch) (replicate (Z.to_nat (snd ch)) b)])
              fd size (fun bufferSize _ => Buf.alloc bufferSize v) w)
    as (w' & Hrun & (Hc' & Hst & Hdr) & Hlog); try assumption.
  - intros pos w1 (Hc1 & Hst1 & Hdr1) Hpos.
    set (len := Z.min (size - pos) kMaxLength).
    assert (Hlen : 0 <= len <= kMaxLength) by lia.
    destruct (write_Ok fd (replicate (Z.to_nat len) b) len pos w1 _ Hc1)
      as (w2 & Hw & Hc2 & Hlog2 & Hst2 & Hdr2);
      [lia|rewrite length_replicate; lia|].
    exists (replicate (Z.to_nat len) b), w1, w2.
    split; [now apply alloc_Ok|]. split; [assumption|].
    split; [|assumption].
    split; [|split; [eapply stable_trans; eauto|congruence]].
    rewrite Hc2, write_at_fill. do 3 f_equal; lia.
  - repeat split; try reflexivity. now rewrite drop_0.
  - exists w'. unfold const_calls. rewrite <- flat_map_singleton. auto.
Qed.

(** [n] passes with a constant byte. *)
Lemma alloc_passes fd size v n : forall i w c,
  Fs.content_of w fd = Some c -> 0 <= size ->
  exists w',
    File.for_loop n i
      (fun _ => File.writeExtended fd size 0
                  (fun bufferSize _ => Buf.alloc bufferSize v)) w
    = (w', Ok tt)
    /\ Fs.content_of w' fd
       = Some (match n with
               | O => c
               | S _ => replicate (Z.to_nat size) (Buf.byte_of_Z v)
                          ++ drop (Z.to_nat size) c
               end)
    /\ syscalls w' = syscalls w
         ++ concat (replicate n (const_calls fd (Buf.byte_of_Z v) (chunks size)))
    /\ stable w w' /\ drawn w' = drawn w.
Proof.
  induction n as [|n IH]; intros i w c Hc Hsize.
  - exists w. cbn. rewrite app_nil_r. auto using stable_refl.
  - destruct (alloc_pass fd size v w c Hc Hsize) as (w1 & Hrun & Hc1 & Hlog1 & Hst1 & Hdr1).
    destruct (IH (i + 1) w1 _ Hc1 Hsize) as (w2 & Hrun2 & Hc2 & Hlog2 & Hst2 & Hdr2).
    exists w2. cbn [File.for_loop]. rewrite (bind_Ok _ _ _ _ _ Hrun).
    split; [assumption|]. split; [|split; [|split]].
    + rewrite Hc2. destruct n; [reflexivity|].
      rewrite drop_app_length' by (now rewrite length_replicate). reflexivity.
    + rewrite Hlog2, Hlog1. cbn [replicate concat]. now rewrite <- app_assoc.
    + eapply stable_trans; eauto.
    + congruence.
Qed.

Lemma write_at_complement (g : Byte.byte -> Byte.byte) (c : Buffer) (pos len : nat) :
  (pos + len <= length c)%nat ->
  Fs.write_at (map g (take pos c) ++ drop pos c) pos (map g (take len (drop pos c)))
  = map g (take (pos + len) c) ++ drop (pos + len) c.
Proof.
  intros Hle. unfold Fs.write_at.
  assert (Hl : length (map g (take pos c)) = pos)
    by (rewrite length_map, length_take; lia).
  rewrite take_app_length' by (now rewrite Hl).
  rewrite length_app, Hl, length_drop.
  replace (pos - (pos + (length c - pos)))%nat with 0%nat by lia.
  rewrite length_map, length_take, length_drop.
  replace (Nat.min len (length c - pos)) with len by lia.
  rewrite drop_app, Hl.
  rewrite (drop_ge (map g (take pos c))) by (rewrite Hl; lia).
  replace (pos + len - pos)%nat with len by lia.
  rewrite drop_drop. cbn [replicate app].
  rewrite <- take_take_drop, map_app, <- app_assoc. reflexivity.
Qed.

(** One complement pass over a file of [size] bytes. *)
Lemma complement_pass fd size w c :
  Fs.content_of w fd = Some c -> size = Z.of_nat (length c) ->
  exists w',
    File.writeExtended fd size 0
      (fun bufferSize pos =>
         let* buffer := Buf.alloc bufferSize 0 in
         let* data := Fs.read fd buffer 0 bufferSize pos in
         ret (map File.complement data)) w
    = (w', Ok tt)
    /\ Fs.content_of w' fd = Some (map File.complement c)
    /\ syscalls w' = syscalls w ++ complement_calls fd c (chunks size)
    /\ stable w w' /\ drawn w' = drawn w.
Proof.
  intros Hc Hsize. pose proof kMaxLength_pos as Hk.
  assert (Hs0 : 0 <= size) by lia.
  set (I := fun (pos : Z) (w1 : World) =>
    Fs.content_of w1 fd
    = Some (map File.complement (take (Z.to_nat pos) c) ++ drop (Z.to_nat pos) c)
    /\ stable w w1 /\ drawn w1 = drawn w).
  destruct (writeExtended_log I
              (fun ch =>
                 [SysRead fd (fst ch) (snd ch);
                  SysWrite fd (fst ch)
                    (map File.complement
                       (take (Z.to_nat (snd ch)) (drop (Z.to_nat (fst ch)) c)))])
              fd size
              (fun bufferSize pos =>
                 let* buffer := Buf.alloc bufferSize 0 in
                 let* data := Fs.read fd buffer 0 bufferSize pos in
                 ret (map File.complement data)) w)
    as (w' & Hrun & (Hc' & Hst & Hdr) & Hlog); try assumption.
  - intros pos w1 (Hc1 & Hst1 & Hdr1) Hpos.
    set (len := Z.min (size - pos) kMaxLength).
    assert (Hlen : 0 <= len <= kMaxLength) by lia.
    assert (Hin : (Z.to_nat pos + Z.to_nat len <= length c)%nat) by lia.
    destruct (complement_chunk_Ok fd len pos w1 _ Hc1 Hlen ltac:(lia))
      as (got & Hg & Hgl & Hgot).
    rewrite Hgot in Hg
      by (rewrite length_app, length_map, length_take, length_drop; lia).
    rewrite drop_app_length' in Hg by (rewrite length_map, length_take; lia).
    clear got Hgl Hgot.
    set (data := map File.complement (take (Z.to_nat len) (drop (Z.to_nat pos) c))) in *.
    assert (Hc1' : Fs.content_of (log (SysRead fd pos len) w1) fd
                   = Some (map File.complement (take (Z.to_nat pos) c)
                           ++ drop (Z.to_nat pos) c)) by exact Hc1.
    destruct (write_Ok fd data len pos _ _ Hc1')
      as (w2 & Hw & Hc2 & Hlog2 & Hst2 & Hdr2).
    { lia. }
    { unfold data. rewrite length_map, length_take, length_drop. lia. }
    exists data, (log (SysRead fd pos len) w1), w2.
    split; [exact Hg|]. split; [assumption|]. split.
    + split; [|split].
      * rewrite Hc2. unfold data. rewrite write_at_complement by assumption.
        replace (Z.to_nat (pos + len)) with (Z.to_nat pos + Z.to_nat len)%nat by lia.
        reflexivity.
      * eapply stable_trans; [exact Hst1|]. exact Hst2.
      * rewrite Hdr2. exact Hdr1.
    + rewrite Hlog2. cbn [syscalls log fst snd]. now rewrite <- app_assoc.
  - repeat split; try reflexivity. now rewrite drop_0.
  - exists w'. split; [assumption|]. split; [|auto].
    rewrite Hc', Hsize, Nat2Z.id, firstn_all, drop_all, app_nil_r. reflexivity.
Qed.

Lemma complement_involutive b : File.complement (File.complement b) = b.
Proof. destruct b; reflexivity. Qed.

Lemma byte_of_Z_of_byte b : Buf.byte_of_Z (Buf.Z_of_byte b) = b.
Proof. destruct b; reflexivity. Qed.

End Passes.

(** ** Properties of the patterns *)

Section PatternProperties.
Context `{Platform}.

(** C6.  For [passes >= 1] and a session whose size is the size of its
    file, [randomByte] draws exactly one random byte, before any write;
    every chunk of every pass is filled with that byte; afterwards every
    byte of the file is that byte. *)
Theorem randomByte_one_draw fileData o w c :
  1 <= File.passes_of o ->
  Fs.content_of w (File.fd fileData) = Some c ->
  File.fileSize fileData = Z.of_nat (length c) ->
  exists w',
    File.randomByte fileData o w = (w', Ok tt)
    /\ drawn w' = S (drawn w)
    /\ syscalls w' = syscalls w
         ++ SysRandomBytes 1
         :: concat (replicate (Z.to_nat (File.passes_of o))
                      (const_calls (File.fd fileData) (entropy w (drawn w))
                         (chunks (File.fileSize fileData))))
    /\ Fs.content_of w' (File.fd fileData)
       = Some (replicate (length c) (entropy w (drawn w))).
Proof.
  intros Hp Hc Hsize. unfold File.randomByte.
  erewrite bind_Ok by (apply randomBytes_Ok; lia).
  cbn [Z.to_nat Pos.to_nat Pos.iter_op seq map File.first_byte Nat.add].
  unfold File.for_passes.
  destruct (alloc_passes (File.fd fileData) (File.fileSize fileData)
              (Buf.Z_of_byte (entropy w (drawn w)))
              (Z.to_nat (File.passes_of o)) 0
              (with_drawn (drawn w + 1) (log (SysRandomBytes 1) w)) c)
    as (w' & Hrun & Hc' & Hlog & Hst & Hdr); [exact Hc|lia|].
  exists w'. split; [exact Hrun|]. rewrite byte_of_Z_of_byte in *.
  split; [rewrite Hdr; cbn; lia|]. split.
  - rewrite Hlog. cbn [syscalls log with_drawn]. now rewrite <- app_assoc.
  - rewrite Hc'. destruct (Z.to_nat (File.passes_of o)) eqn:E; [lia|].
    rewrite Hsize, Nat2Z.id, drop_all, app_nil_r. reflexivity.
Qed.

(** C5.  For a session whose size is the size of its file, one pass of
    [complementary] replaces the content by its byte-wise complement, every
    chunk being the complement of what the file held at the chunk's offset
    when the pass began, read at that offset just before it is written;
    a second pass restores the original content. *)
Theorem complementary_twice_restores fileData w c :
  Fs.content_of w (File.fd fileData) = Some c ->
  File.fileSize fileData = Z.of_nat (length c) ->
  exists w1 w2,
    File.complementary fileData File.no_options w = (w1, Ok tt)
    /\ Fs.content_of w1 (File.fd fileData) = Some (map File.complement c)
    /\ syscalls w1
       = syscalls w
         ++ complement_calls (File.fd fileData) c (chunks (File.fileSize fileData))
    /\ File.complementary fileData File.no_options w1 = (w2, Ok tt)
    /\ Fs.content_of w2 (File.fd fileData) = Some c.
Proof.
  intros Hc Hsize.
  destruct (complement_pass _ _ w c Hc Hsize) as (w1 & Hrun1 & Hc1 & Hlog1 & _).
  destruct (complement_pass (File.fd fileData) (File.fileSize fileData) w1
              (map File.complement c) Hc1)
    as (w2 & Hrun2 & Hc2 & _); [now rewrite length_map|].
  exists w1, w2.
  unfold File.complementary. rewrite !for_passes_default.
  rewrite (bind_Ok _ _ _ _ _ Hrun1), (bind_Ok _ _ _ _ _ Hrun2).
  repeat split; try assumption.
  rewrite Hc2. f_equal. rewrite <- list_fmap_compose.
  rewrite <- (list_fmap_id c) at 2. apply list_fmap_ext.
  intros i b _. apply complement_involutive.
Qed.

End PatternProperties.

(** ** Properties of the session operations *)

Section SessionProperties.
Context `{Platform}.

(** C8, as amended.  With [size = 0], [writeExtended] returns after asking
    the pattern function for an empty buffer and issuing one write of no
    byte at position 0; the content of the file is the same as before. *)
Theorem writeExtended_size_zero fd getBuffer w :
  is_Some (Fs.content_of w fd) ->
  well_behaved fd kMaxLength getBuffer ->
  exists w' calls,
    File.writeExtended fd 0 0 getBuffer w = (w', Ok tt)
    /\ syscalls w' = syscalls w ++ calls
    /\ List.filter is_write calls = [SysWrite fd 0 []]
    /\ Fs.content_of w' fd = Fs.content_of w fd.
Proof.
  intros [c Hc] Hgb. pose proof kMaxLength_pos as Hk.
  destruct (Hgb 0 0 w) as (data & w1 & calls & Hg & Hlen & Hc1 & Hlog1 & Hnw);
    [lia|lia|eauto|].
  destruct data; [|discriminate].
  rewrite Hc in Hc1.
  destruct (write_Ok fd [] 0 0 w1 c Hc1) as (w2 & Hw & Hc2 & Hlog2 & _); [lia|reflexivity|].
  exists w2, (calls ++ [SysWrite fd 0 []]).
  unfold File.writeExtended, File.depth. change (0 - 0) with 0.
  rewrite Z.div_0_l by lia. change (Z.to_nat 0) with 0%nat.
  cbn [File.writeExtended_rec]. change (0 - 0) with 0.
  destruct (Z.leb_spec 0 kMaxLength); [|lia].
  rewrite (bind_Ok _ _ _ _ _ Hg), (bind_Ok _ _ _ _ _ Hw).
  split; [reflexivity|]. split; [now rewrite Hlog2, Hlog1, <- app_assoc|]. split.
  - rewrite List.filter_app. cbn.
    replace (List.filter is_write calls) with (@nil Syscall); [reflexivity|].
    symmetry. clear -Hnw. induction calls as [|x l IH]; [reflexivity|].
    cbn in *. apply andb_prop in Hnw as [Hx Hl].
    destruct (is_write x); [discriminate|auto].
  - rewrite Hc2, Hc. reflexivity.
Qed.

Lemma random_num_range w :
  exists num, JsMath.random_num w = (with_prng_drawn (S (prng_drawn w)) w, Ok num)
              /\ 0 <= num < 2 ^ 53.
Proof.
  eexists. split; [reflexivity|]. apply Z.mod_pos_bound. reflexivity.
Qed.

(** *** Rounding to 53 bits *)

Lemma round53_small n : 0 <= n < 2 ^ 53 -> Double.round53 n = n.
Proof.
  intros Hn. unfold Double.round53. rewrite Z.abs_eq by lia.
  destruct (Z.leb_spec (Z.log2 n - 52) 0) as [|Hsh]; [reflexivity|].
  exfalso. destruct (Z.eq_dec n 0) as [->|Hne]; [cbn in Hsh; lia|].
  assert (Z.log2 n < 53) by (apply Z.log2_lt_pow2; lia). lia.
Qed.

(** A number of more than 53 bits: the quotient by the unit in the last
    place has exactly 53 bits, and rounding moves to it or to its
    successor. *)
Lemma round53_large n :
  2 ^ 53 <= n ->
  exists sh q r,
    1 <= sh /\ n = q * 2 ^ sh + r /\ 0 <= r < 2 ^ sh /\ 2 ^ 52 <= q < 2 ^ 53
    /\ (Double.round53 n = q * 2 ^ sh \/ (0 < r /\ Double.round53 n = (q + 1) * 2 ^ sh)).
Proof.
  intros Hn. unfold Double.round53. rewrite Z.abs_eq by lia.
  assert (Hlog : 53 <= Z.log2 n) by (apply Z.log2_le_pow2; lia).
  set (sh := Z.log2 n - 52).
  destruct (Z.leb_spec sh 0) as [Hle|Hsh]; [unfold sh in Hle; lia|].
  assert (Hpos : 0 < 2 ^ sh) by (apply Z.pow_pos_nonneg; lia).
  pose proof (Z.div_mod n (2 ^ sh) ltac:(lia)) as Hdm.
  pose proof (Z.mod_pos_bound n (2 ^ sh) Hpos) as Hr.
  destruct (Z.log2_spec n ltac:(lia)) as [Hlo Hhi].
  replace (Z.log2 n) with (52 + sh) in Hlo by (unfold sh; lia).
  replace (Z.succ (Z.log2 n)) with (53 + sh) in Hhi by (unfold sh; lia).
  rewrite Z.pow_add_r in Hlo, Hhi by lia.
  set (q := n / 2 ^ sh) in *. set (r := n mod 2 ^ sh) in *.
  assert (Hq : 2 ^ 52 <= q < 2 ^ 53).
  { split.
    - apply Z.div_le_lower_bound; lia.
    - apply Z.div_lt_upper_bound; lia. }
  exists sh, q, r. split; [lia|]. split; [lia|]. split; [exact Hr|]. split; [exact Hq|].
  rewrite Z.sgn_pos by lia. rewrite Z.mul_1_l.
  assert (Hhalf : 0 < 2 ^ (sh - 1)) by (apply Z.pow_pos_nonneg; lia).
  destruct ((2 ^ (sh - 1) <? r) || ((r =? 2 ^ (sh - 1)) && Z.odd q)) eqn:E.
  - right. split; [|reflexivity].
    apply orb_true_iff in E as [E|E].
    + apply Z.ltb_lt in E. lia.
    + apply andb_true_iff in E as [E _]. apply Z.eqb_eq in E. lia.
  - left. reflexivity.
Qed.

Lemma round53_nonneg n : 0 <= n -> 0 <= Double.round53 n.
Proof.
  intros Hn. destruct (Z.lt_ge_cases n (2 ^ 53)) as [Hlt|Hge].
  - rewrite round53_small; lia.
  - destruct (round53_large n Hge) as (sh & q & r & Hsh & _ & _ & Hq & [->| [_ ->]]);
      apply Z.mul_nonneg_nonneg; try lia; apply Z.pow_nonneg; lia.
Qed.

(** The unit in the last place divides a representable number of the same
    binade or above. *)
Lemma representable_multiple a sh :
  representable a -> 0 <= sh -> 2 ^ (52 + sh) <= a ->
  exists a', a = a' * 2 ^ sh.
Proof.
  intros (c & t & Hc & Ht & ->) Hsh Hle.
  destruct (Z.lt_ge_cases t sh) as [Hlt|Hge].
  - exfalso.
    assert (H1 : 2 ^ t <= 2 ^ (sh - 1)) by (apply Z.pow_le_mono_r; lia).
    assert (H2 : 2 ^ (52 + sh) = 2 ^ 53 * 2 ^ (sh - 1)).
    { rewrite <- Z.pow_add_r by lia. f_equal. lia. }
    assert (H3 : 0 < 2 ^ t) by (apply Z.pow_pos_nonneg; lia).
    assert (H4 : c * 2 ^ t < 2 ^ 53 * 2 ^ (sh - 1)) by nia.
    lia.
  - exists (c * 2 ^ (t - sh)). rewrite <- Z.mul_assoc, <- Z.pow_add_r by lia.
    do 2 f_equal. lia.
Qed.

(** Rounding does not cross a representable number. *)
Lemma round53_ge a n : representable a -> 0 <= a <= n -> a <= Double.round53 n.
Proof.
  intros Ha Han. destruct (Z.lt_ge_cases n (2 ^ 53)) as [Hlt|Hge].
  - rewrite round53_small; lia.
  - destruct (round53_large n Hge) as (sh & q & r & Hsh & Hn & Hr & Hq & Hround).
    assert (Hpos : 0 < 2 ^ sh) by (apply Z.pow_pos_nonneg; lia).
    assert (Hfloor : a <= q * 2 ^ sh).
    { destruct (Z.lt_ge_cases a (2 ^ (52 + sh))) as [Hlow|Hhigh].
      - rewrite Z.pow_add_r in Hlow by lia. nia.
      - destruct (representable_multiple a sh Ha ltac:(lia) Hhigh) as (a' & ->).
        apply Z.mul_le_mono_nonneg_r; [lia|]. nia. }
    destruct Hround as [->|[_ ->]]; nia.
Qed.

Lemma round53_le b n : representable b -> 0 <= n <= b -> Double.round53 n <= b.
Proof.
  intros Hb Hnb. destruct (Z.lt_ge_cases n (2 ^ 53)) as [Hlt|Hge].
  - rewrite round53_small; lia.
  - destruct (round53_large n Hge) as (sh & q & r & Hsh & Hn & Hr & Hq & Hround).
    assert (Hpos : 0 < 2 ^ sh) by (apply Z.pow_pos_nonneg; lia).
    destruct Hround as [->|[Hr0 ->]]; [lia|].
    assert (Hbin : 2 ^ (52 + sh) <= b) by (rewrite Z.pow_add_r by lia; nia).
    destruct (representable_multiple b sh Hb ltac:(lia) Hbin) as (b' & ->).
    apply Z.mul_le_mono_nonneg_r; [lia|]. nia.
Qed.

(** The relative error of rounding is below [2^-52]. *)
Lemma round53_relative n : 0 <= n -> 2 ^ 52 * Double.round53 n <= (2 ^ 52 + 1) * n.
Proof.
  intros Hn0. destruct (Z.lt_ge_cases n (2 ^ 53)) as [Hlt|Hge].
  - rewrite round53_small; lia.
  - destruct (round53_large n Hge) as (sh & q & r & Hsh & Hn & Hr & Hq & Hround).
    assert (Hpos : 0 < 2 ^ sh) by (apply Z.pow_pos_nonneg; lia).
    destruct Hround as [->|[Hr0 ->]]; nia.
Qed.

Lemma factor_range num :
  0 <= num < 2 ^ 53 -> 2 ^ 52 <= Double.round53 (2 ^ 52 + num) <= 3 * 2 ^ 52.
Proof.
  intros Hnum. split.
  - apply round53_ge; [|lia]. exists 1, 52. lia.
  - apply round53_le; [|lia]. exists 3, 52. lia.
Qed.

Lemma truncated_size_decreases num size :
  0 <= num < 2 ^ 53 -> 0 <= size ->
  0 <= File.truncated_size num size <= size
  /\ (0 < size -> File.truncated_size num size < size).
Proof.
  intros Hnum Hsize. unfold File.truncated_size. cbn zeta.
  pose proof (factor_range num Hnum) as HF.
  set (F := Double.round53 (2 ^ 52 + num)) in *.
  pose proof (round53_nonneg size Hsize) as HA0.
  pose proof (round53_relative size Hsize) as HA.
  set (A := Double.round53 size) in *.
  assert (HFA : 0 <= F * A) by nia.
  pose proof (round53_nonneg _ HFA) as HP0.
  pose proof (round53_relative _ HFA) as HP.
  set (P := Double.round53 (F * A)) in *.
  assert (HFA' : F * A <= 3 * 2 ^ 52 * A) by nia.
  clearbody F A P.
  change (2 ^ 52) with 4503599627370496 in *.
  change (2 ^ 54) with 18014398509481984.
  assert (Hs0 : 0 <= P / 18014398509481984) by (apply Z.div_pos; lia).
  split.
  - split; [exact Hs0|].
    destruct (Z.eq_dec size 0) as [->|Hne].
    + assert (P = 0) by lia. subst P. reflexivity.
    + apply Z.lt_le_incl, Z.div_lt_upper_bound; lia.
  - intros Hpos. apply Z.div_lt_upper_bound; lia.
Qed.

Lemma truncated_size_quarters num size :
  0 <= num < 2 ^ 53 -> 0 <= size -> 3 * size < 2 ^ 53 ->
  size <= 4 * File.truncated_size num size + 3
  /\ 4 * File.truncated_size num size <= 3 * size.
Proof.
  intros Hnum Hsize Hrange. unfold File.truncated_size. cbn zeta.
  pose proof (factor_range num Hnum) as HF.
  set (F := Double.round53 (2 ^ 52 + num)) in *.
  rewrite (round53_small size) by lia.
  assert (Hlo : size * 2 ^ 52 <= Double.round53 (F * size)).
  { apply round53_ge; [exists size, 52; lia|nia]. }
  assert (Hhi : Double.round53 (F * size) <= (3 * size) * 2 ^ 52).
  { apply round53_le; [exists (3 * size), 52; lia|nia]. }
  set (P := Double.round53 (F * size)) in *. clearbody F P.
  change (2 ^ 52) with 4503599627370496 in *.
  change (2 ^ 54) with 18014398509481984.
  pose proof (Z.div_mod P 18014398509481984 ltac:(lia)) as Hdm.
  pose proof (Z.mod_pos_bound P 18014398509481984 ltac:(lia)) as Hmod.
  lia.
Qed.

(** The rounding written out in [File.truncated_size] gives the value of
    the expression computed in the primitive binary64 numbers, on every
    draw and size of the samples. *)
Lemma truncated_size_same_as_binary64 :
  forallb (fun num => forallb (Sample.same_as_binary64 num) Sample.sizes) Sample.draws
  = true.
Proof. vm_compute. reflexivity. Qed.

(** Beyond [2^53 / 3] bytes three quarters are not a bound: the product is
    rounded up past them. *)
Lemma truncated_size_beyond_range :
  File.truncated_size (2 ^ 53 - 1) 3002399751580333 = 2251799813685250
  /\ 3 * 3002399751580333 < 4 * 2251799813685250.
Proof. split; [vm_compute; reflexivity|lia]. Qed.

Lemma ftruncate_Ok fd len w c :
  Fs.content_of w fd = Some c -> 0 <= len ->
  exists w',
    Fs.ftruncate fd len w = (w', Ok tt)
    /\ Fs.content_of w' fd = Some (Fs.resize c (Z.to_nat len))
    /\ syscalls w' = syscalls w ++ [SysFtruncate fd len]
    /\ prng w' = prng w /\ prng_drawn w' = prng_drawn w.
Proof.
  intros Hc Hlen. unfold Fs.content_of in Hc.
  destruct (fdt w !! fd) as [ino|] eqn:Hfd; [|discriminate].
  unfold Fs.ftruncate. rewrite Hfd, Hc.
  destruct (Z.ltb_spec len 0); [lia|].
  eexists. split; [reflexivity|].
  unfold Fs.content_of. cbn. rewrite Hfd, lookup_insert_eq. auto.
Qed.

Lemma resize_length (c : Buffer) n : length (Fs.resize c n) = n.
Proof. unfold Fs.resize. rewrite length_app, length_take, length_replicate. lia. Qed.

Lemma last_cons_default {A} (l : list A) : forall x d,
  List.last (x :: l) d = List.last l x.
Proof.
  induction l as [|a l IH]; intros x d; [reflexivity|].
  change (List.last (x :: a :: l) d) with (List.last (a :: l) d).
  now rewrite !IH.
Qed.

Lemma truncate_loop_shrinks fd n : forall size w c,
  Fs.content_of w fd = Some c -> 0 <= size -> 3 * size < 2 ^ 53 ->
  exists w' sizes,
    File.truncate_loop n fd size w = (w', Ok (List.last sizes size))
    /\ syscalls w' = syscalls w ++ map (SysFtruncate fd) sizes
    /\ length sizes = n
    /\ shrinking size sizes
    /\ exists c', Fs.content_of w' fd = Some c'
         /\ (n <> 0%nat -> Z.of_nat (length c') = List.last sizes size).
Proof.
  induction n as [|n IH]; intros size w c Hc Hsize Hrange.
  - exists w, []. cbn. rewrite app_nil_r. repeat split; eauto. exists c. split; [auto|tauto].
  - destruct (random_num_range w) as (num & Hr & Hnum).
    destruct (truncated_size_decreases num size Hnum Hsize) as ((H0 & Hle) & Hlt).
    destruct (truncated_size_quarters num size Hnum Hsize Hrange) as (Hlo & Hhi).
    set (s := File.truncated_size num size) in *.
    destruct (ftruncate_Ok fd s (with_prng_drawn (S (prng_drawn w)) w) c Hc H0)
      as (w1 & Hf & Hc1 & Hlog1 & _).
    destruct (IH s w1 _ Hc1 H0 ltac:(lia))
      as (w2 & sizes & Hrun & Hlog2 & Hlen & Hsh & c' & Hc' & Hsz).
    exists w2, (s :: sizes). cbn [File.truncate_loop].
    rewrite (bind_Ok _ _ _ _ _ Hr). fold s. rewrite (bind_Ok _ _ _ _ _ Hf).
    assert (Hlast : List.last (s :: sizes) size = List.last sizes s)
      by apply last_cons_default.
    rewrite Hlast. split; [assumption|]. split.
    { rewrite Hlog2, Hlog1. cbn. now rewrite <- app_assoc. }
    split; [cbn; congruence|]. split.
    { cbn [shrinking]. repeat split; assumption. }
    exists c'. split; [assumption|]. intros _.
    destruct n as [|n'].
    + destruct sizes; [|discriminate]. cbn in Hrun |- *.
      unfold ret in Hrun. injection Hrun as <-.
      rewrite Hc1 in Hc'. injection Hc' as <-. rewrite resize_length. lia.
    + apply Hsz. lia.
Qed.

(** C4, as amended.  On a file of fewer than [2^53 / 3] bytes [truncate]
    issues exactly [passes] calls of [ftruncate]; each new size is the
    integer part of the product, rounded as binary64 rounds it, of the
    current size and a factor of [[1/4, 3/4]]: at least a quarter of the
    current size rounded down and at most three quarters of it, both of
    which are reached; so the sizes never increase, and decrease as long
    as the current size is positive.  The file ends with the last size. *)
Theorem truncate_shrinks fileData o w c :
  Fs.content_of w (File.fd fileData) = Some c ->
  0 <= File.fileSize fileData ->
  3 * File.fileSize fileData < 2 ^ 53 ->
  exists w' sizes,
    File.truncate fileData o w = (w', Ok tt)
    /\ syscalls w' = syscalls w ++ map (SysFtruncate (File.fd fileData)) sizes
    /\ length sizes = Z.to_nat (File.passes_of o)
    /\ shrinking (File.fileSize fileData) sizes
    /\ exists c', Fs.content_of w' (File.fd fileData) = Some c'
         /\ (1 <= File.passes_of o ->
             Z.of_nat (length c') = List.last sizes (File.fileSize fileData)).
Proof.
  intros Hc Hsize Hrange.
  destruct (truncate_loop_shrinks (File.fd fileData) (Z.to_nat (File.passes_of o))
              (File.fileSize fileData) w c Hc Hsize Hrange)
    as (w' & sizes & Hrun & Hlog & Hlen & Hsh & c' & Hc' & Hsz).
  exists w', sizes. unfold File.truncate. rewrite (bind_Ok _ _ _ _ _ Hrun).
  split; [reflexivity|]. repeat (split; [assumption|]).
  exists c'. split; [assumption|]. intros Hp. apply Hsz. lia.
Qed.

(** *** Generated names *)

Lemma forallb_range (P : Z -> bool) (n : nat) :
  forallb P (map Z.of_nat (seq 0 n)) = true ->
  forall i, 0 <= i < Z.of_nat n -> P i = true.
Proof.
  intros Hall i Hi. rewrite forallb_forall in Hall. apply Hall.
  apply in_map_iff. exists (Z.to_nat i). split; [lia|].
  apply in_seq. lia.
Qed.

Lemma safe_digit_all i : 0 <= i < 64 -> safe_digit i = true.
Proof. apply (forallb_range safe_digit 64). vm_compute. reflexivity. Qed.

Lemma Z_of_byte_range b : 0 <= Buf.Z_of_byte b < 256.
Proof.
  unfold Buf.Z_of_byte. pose proof (Byte.to_N_bounded b) as Hb. lia.
Qed.

Lemma lor_shift_range (m : nat) (hi lo : Z) :
  forallb (fun u => forallb (fun v => Z.lor (Z.shiftl u (Z.of_nat m)) v <? 64)
                      (map Z.of_nat (seq 0 (2 ^ m))))
          (map Z.of_nat (seq 0 (2 ^ (6 - m)))) = true ->
  0 <= hi < Z.of_nat (2 ^ (6 - m)) -> 0 <= lo < Z.of_nat (2 ^ m) ->
  0 <= Z.lor (Z.shiftl hi (Z.of_nat m)) lo < 64.
Proof.
  intros Hall Hhi Hlo. split.
  - apply Z.lor_nonneg. split; [apply Z.shiftl_nonneg|]; lia.
  - apply Z.ltb_lt.
    apply (forallb_range (fun v => Z.lor (Z.shiftl hi (Z.of_nat m)) v <? 64) (2 ^ m));
      [|assumption].
    apply (forallb_range
             (fun u => forallb (fun v => Z.lor (Z.shiftl u (Z.of_nat m)) v <? 64)
                         (map Z.of_nat (seq 0 (2 ^ m)))) (2 ^ (6 - m)));
      assumption.
Qed.

(** The four digits that three bytes are encoded into. *)
Lemma digits_range x y z :
  0 <= x < 256 -> 0 <= y < 256 -> 0 <= z < 256 ->
  0 <= Z.shiftr x 2 < 64
  /\ 0 <= Z.lor (Z.shiftl (Z.land x 3) 4) (Z.shiftr y 4) < 64
  /\ 0 <= Z.lor (Z.shiftl (Z.land y 15) 2) (Z.shiftr z 6) < 64
  /\ 0 <= Z.land z 63 < 64.
Proof.
  intros Hx Hy Hz.
  assert (Hl3 : 0 <= Z.land x 3 < 4)
    by (change 3 with (Z.ones 2); rewrite Z.land_ones by lia;
        apply Z.mod_pos_bound; reflexivity).
  assert (Hl15 : 0 <= Z.land y 15 < 16)
    by (change 15 with (Z.ones 4); rewrite Z.land_ones by lia;
        apply Z.mod_pos_bound; reflexivity).
  assert (Hl63 : 0 <= Z.land z 63 < 64)
    by (change 63 with (Z.ones 6); rewrite Z.land_ones by lia;
        apply Z.mod_pos_bound; reflexivity).
  assert (Hs2 : 0 <= Z.shiftr x 2 < 64).
  { rewrite Z.shiftr_div_pow2 by lia. change (2 ^ 2) with 4.
    split; [apply Z.div_pos; lia|apply Z.div_lt_upper_bound; lia]. }
  assert (Hs4 : 0 <= Z.shiftr y 4 < 16).
  { rewrite Z.shiftr_div_pow2 by lia. change (2 ^ 4) with 16.
    split; [apply Z.div_pos; lia|apply Z.div_lt_upper_bound; lia]. }
  assert (Hs6 : 0 <= Z.shiftr z 6 < 4).
  { rewrite Z.shiftr_div_pow2 by lia. change (2 ^ 6) with 64.
    split; [apply Z.div_pos; lia|apply Z.div_lt_upper_bound; lia]. }
  split; [assumption|]. split; [|split; [|assumption]].
  - apply (lor_shift_range 4); [vm_compute; reflexivity|exact Hl3|exact Hs4].
  - apply (lor_shift_range 2); [vm_compute; reflexivity|exact Hl15|exact Hs6].
Qed.

Lemma replace_digit i :
  JsString.replace_all "+" "a"
    (JsString.replace_all "/" "0" (String (Base64.digit i) EmptyString))
  = String (if Ascii.eqb (if Ascii.eqb (Base64.digit i) "/" then "0"%char
                          else Base64.digit i) "+"
            then "a"%char
            else if Ascii.eqb (Base64.digit i) "/" then "0"%char
                 else Base64.digit i) EmptyString.
Proof. reflexivity. Qed.

(** A name made from a multiple of three bytes: four characters for
    every three bytes, all of them digits or letters. *)
Lemma new_name_triples (n : nat) : forall bytes,
  length bytes = (3 * n)%nat ->
  String.length (File.new_name bytes) = (4 * n)%nat
  /\ all_alnum (File.new_name bytes) = true.
Proof.
  induction n as [|n IH]; intros bytes Hlen.
  - destruct bytes; [|discriminate]. split; reflexivity.
  - destruct bytes as [|a [|b [|c rest]]]; try (cbn in Hlen; lia).
    destruct (IH rest) as [IHl IHa]; [cbn in Hlen; lia|].
    destruct (digits_range _ _ _ (Z_of_byte_range a) (Z_of_byte_range b)
                (Z_of_byte_range c)) as (H1 & H2 & H3 & H4).
    unfold File.new_name in *. cbn [Base64.encode JsString.replace_all].
    split.
    + cbn [String.length]. rewrite IHl. lia.
    + unfold all_alnum in *. cbn [list_ascii_of_string forallb].
      rewrite IHa.
      pose proof (safe_digit_all _ H1) as S1. pose proof (safe_digit_all _ H2) as S2.
      pose proof (safe_digit_all _ H3) as S3. pose proof (safe_digit_all _ H4) as S4.
      unfold safe_digit in S1, S2, S3, S4. rewrite S1, S2, S3, S4. reflexivity.
Qed.

Lemma all_alnum_no_slash s : all_alnum s = true -> Fs.has_slash s = false.
Proof.
  unfold all_alnum. induction s as [|c s IH]; [reflexivity|].
  cbn [list_ascii_of_string forallb Fs.has_slash]. intros [Hc Hs]%andb_prop.
  rewrite (IH Hs), orb_false_r. unfold Fs.is_slash.
  destruct (Ascii.eqb_spec c "/"); [subst; discriminate|reflexivity].
Qed.

Lemma close_Ok fd w ino :
  fdt w !! fd = Some ino ->
  Fs.close fd w = (with_fdt (delete fd) (log (SysClose fd) w), Ok tt).
Proof. intros Hfd. unfold Fs.close. now rewrite Hfd. Qed.

Lemma fs_rename_Ok old new w ino :
  names w !! old = Some (File ino) -> names w !! new <> Some Dir ->
  Fs.rename old new w
  = (with_names (fun ns => <[new := File ino]> (delete old ns)) (log (SysRename old new) w),
     Ok tt).
Proof.
  intros Hold Hnew. unfold Fs.rename. rewrite Hold.
  destruct (names w !! new) as [[|]|]; try reflexivity. congruence.
Qed.

Lemma init_Ok path w ino c :
  names w !! path = Some (File ino) -> inodes w !! ino = Some c ->
  File.init path w
  = (with_fdt (insert (fresh (dom (fdt w))) ino)
       (log (SysOpen path (fresh (dom (fdt w)))) (log (SysStat path) w)),
     Ok (File.mkFileData (fresh (dom (fdt w))) path (Z.of_nat (length c)))).
Proof.
  intros Hn Hi. unfold File.init.
  assert (Hs : Fs.stat_size path w = (log (SysStat path) w, Ok (Z.of_nat (length c))))
    by (unfold Fs.stat_size; now rewrite Hn, Hi).
  rewrite (bind_Ok _ _ _ _ _ Hs).
  assert (Ho : Fs.open path (log (SysStat path) w)
               = (with_fdt (insert (fresh (dom (fdt w))) ino)
                    (log (SysOpen path (fresh (dom (fdt w)))) (log (SysStat path) w)),
                  Ok (fresh (dom (fdt w)))))
    by (unfold Fs.open; cbn [names log fdt]; now rewrite Hn).
  rewrite (bind_Ok _ _ _ _ _ Ho). reflexivity.
Qed.

(** C9.  For a session whose descriptor is open on the file its path names,
    [rename] closes the descriptor, draws nine random bytes and makes of
    them a name of exactly 12 characters, all digits or letters (so none is
    a path separator); it renames the file to that name in the directory of
    the old path, provided no directory has that name; it stats and opens
    the new path and returns a session for it, with a descriptor open on the
    same content. *)
Theorem rename_twelve_characters fileData w ino c :
  fdt w !! File.fd fileData = Some ino ->
  names w !! File.fileName fileData = Some (File ino) ->
  inodes w !! ino = Some c ->
  names w !! path_join (path_dirname (File.fileName fileData))
                (File.new_name (map (entropy w) (seq (drawn w) 9)))
  <> Some Dir ->
  exists w' fd' newName,
    newName = File.new_name (map (entropy w) (seq (drawn w) 9))
    /\ File.rename fileData w
       = (w', Ok (File.mkFileData fd'
                    (path_join (path_dirname (File.fileName fileData)) newName)
                    (Z.of_nat (length c))))
    /\ String.length newName = 12%nat
    /\ all_alnum newName = true
    /\ Fs.has_slash newName = false
    /\ syscalls w'
       = syscalls w
         ++ [SysClose (File.fd fileData); SysRandomBytes 9;
             SysRename (File.fileName fileData)
               (path_join (path_dirname (File.fileName fileData)) newName);
             SysStat (path_join (path_dirname (File.fileName fileData)) newName);
             SysOpen (path_join (path_dirname (File.fileName fileData)) newName) fd']
    /\ names w'
       = <[path_join (path_dirname (File.fileName fileData)) newName := File ino]>
           (delete (File.fileName fileData) (names w))
    /\ fdt w' = <[fd' := ino]> (delete (File.fd fileData) (fdt w))
    /\ Fs.content_of w' fd' = Some c.
Proof.
  intros Hfd Hname Hino Hfree.
  set (newName := File.new_name (map (entropy w) (seq (drawn w) 9))) in *.
  set (newPath := path_join (path_dirname (File.fileName fileData)) newName) in *.
  destruct (new_name_triples 3 (map (entropy w) (seq (drawn w) 9)))
    as [Hlen Haln]; [now rewrite length_map, length_seq|].
  fold newName in Hlen, Haln.
  set (w1 := with_fdt (delete (File.fd fileData)) (log (SysClose (File.fd fileData)) w)).
  set (w2 := with_drawn (drawn w1 + Z.to_nat 9) (log (SysRandomBytes 9) w1)).
  set (w3 := with_names (fun ns => <[newPath := File ino]> (delete (File.fileName fileData) ns))
               (log (SysRename (File.fileName fileData) newPath) w2)).
  set (fd' := fresh (dom (fdt w3))).
  assert (Hinit : File.init newPath w3
            = (with_fdt (insert fd' ino)
                 (log (SysOpen newPath fd') (log (SysStat newPath) w3)),
               Ok (File.mkFileData fd' newPath (Z.of_nat (length c))))).
  { apply (init_Ok newPath w3 ino c); [|exact Hino].
    cbn [names w3 with_names log w2 with_drawn w1 with_fdt]. apply lookup_insert_eq. }
  eexists _, fd', newName. split; [reflexivity|]. split.
  { unfold File.rename.
    rewrite (bind_Ok _ _ _ _ _ (close_Ok _ _ _ Hfd)). fold w1.
    erewrite bind_Ok by (apply randomBytes_Ok; lia).
    fold w2. change (entropy w1) with (entropy w). change (drawn w1) with (drawn w).
    change (Z.to_nat 9) with 9%nat. fold newName. fold newPath.
    rewrite (bind_Ok _ _ _ _ _ (fs_rename_Ok _ newPath w2 ino Hname Hfree)).
    fold w3. exact Hinit. }
  split; [exact Hlen|]. split; [exact Haln|].
  split; [now apply all_alnum_no_slash|].
  split; [cbn; now rewrite <- !app_assoc|].
  split; [reflexivity|]. split; [reflexivity|].
  unfold Fs.content_of. cbn. now rewrite lookup_insert_eq.
Qed.

End SessionProperties.

(** ** The mark protocol of directories *)

Section MarkProtocol.

Lemma mark_cases p em w :
  names w !! p = Some Dir ->
  Dir.mark p em w
  = if nonempty (names w) p then
      if bool_decide (p ∈ folderSet w) then
        (log_emit (em, "mark", p)
           (with_folderSet (fun s => s ∖ {[p]}) (log (SysReaddir p) w)), Ok tt)
      else
        (log (SysRmdir p)
           (with_folderSet (fun s => {[p]} ∪ s) (log (SysReaddir p) w)),
         Throw ENOTEMPTY)
    else (log_emit (em, "mark", p) (log (SysReaddir p) w), Ok tt).
Proof.
  intros Hdir. unfold Dir.mark, nonempty.
  assert (Hrd : Fs.readdir p w = (log (SysReaddir p) w, Ok (Fs.children (names w) p)))
    by (unfold Fs.readdir; now rewrite Hdir).
  rewrite (bind_Ok _ _ _ _ _ Hrd).
  destruct (Fs.children (names w) p) as [|f files] eqn:Hch; [reflexivity|].
  cbn [length Nat.eqb negb]. unfold bind, get. cbn [folderSet log].
  destruct (bool_decide (p ∈ folderSet w)); [reflexivity|].
  unfold modify, Fs.rmdir. cbn [names with_folderSet log]. now rewrite Hdir, Hch.
Qed.

Lemma times_seen_snoc seen p q :
  times_seen (seen ++ [p]) q
  = if decide (p = q) then S (times_seen seen q) else times_seen seen q.
Proof.
  unfold times_seen. rewrite count_occ_app. cbn [count_occ].
  destruct (string_dec p q); case_decide; try congruence; lia.
Qed.

Lemma visits_follow_protocol em ns ps : forall seen w,
  names w = ns ->
  (forall p, In p ps -> ns !! p = Some Dir) ->
  tracking (nonempty ns) seen (folderSet w) ->
  exists w',
    visits ps em w = (w', outcomes (nonempty ns) seen ps)
    /\ names w' = ns
    /\ tracking (nonempty ns) (seen ++ ps) (folderSet w')
    /\ emitted w'
       = emitted w ++ map (fun p => (em, "mark"%string, p)) (marks (nonempty ns) seen ps).
Proof.
  induction ps as [|p ps IH]; intros seen w Hns Hdirs Htr.
  - exists w. cbn. rewrite !app_nil_r. auto.
  - assert (Hdir : names w !! p = Some Dir) by (rewrite Hns; apply Hdirs; now left).
    pose proof (mark_cases p em w Hdir) as Hm. rewrite Hns in Hm.
    cbn [visits outcomes marks]. unfold first_visit.
    assert (Htp : bool_decide (p ∈ folderSet w)
                  = nonempty ns p && Nat.odd (times_seen seen p)).
    { destruct (Htr p) as [H1 H2]. case_bool_decide as Hin.
      - destruct (H1 Hin) as [-> ->]. reflexivity.
      - destruct (nonempty ns p); [|reflexivity].
        destruct (Nat.odd (times_seen seen p)) eqn:E; [|reflexivity].
        exfalso. apply Hin, H2. auto. }
    rewrite <- Nat.negb_odd.
    destruct (nonempty ns p) eqn:Hne.
    + rewrite Htp in Hm. cbn [andb] in Hm |- *.
      destruct (Nat.odd (times_seen seen p)) eqn:Hodd; cbn [negb]; rewrite Hm.
      * edestruct (IH (seen ++ [p])) as (w' & Hrun & Hn' & Htr' & Hem');
          [| |
           |rewrite Hrun; exists w'; split; [reflexivity|]; split; [exact Hn'|];
            split; [now rewrite <- app_assoc in Htr'|];
            rewrite Hem'; cbn; now rewrite <- app_assoc].
        -- exact Hns.
        -- intros q Hq. apply Hdirs. now right.
        -- intros q. cbn [folderSet log_emit with_folderSet log].
           rewrite times_seen_snoc, elem_of_difference, elem_of_singleton, (Htr q).
           destruct (decide (p = q)) as [Hpq|Hpq].
           ++ subst q. rewrite Nat.odd_succ, <- Nat.negb_odd, Hodd. cbn. intuition congruence.
           ++ intuition congruence.
      * edestruct (IH (seen ++ [p])) as (w' & Hrun & Hn' & Htr' & Hem');
          [| |
           |rewrite Hrun; exists w'; split; [reflexivity|]; split; [exact Hn'|];
            split; [now rewrite <- app_assoc in Htr'|];
            rewrite Hem'; cbn; reflexivity].
        -- exact Hns.
        -- intros q Hq. apply Hdirs. now right.
        -- intros q. cbn [folderSet log_emit with_folderSet log].
           rewrite times_seen_snoc, elem_of_union, elem_of_singleton, (Htr q).
           destruct (decide (p = q)) as [Hpq|Hpq].
           ++ subst q. rewrite Nat.odd_succ, <- Nat.negb_odd, Hodd. cbn. intuition congruence.
           ++ intuition congruence.
    + cbn [andb]. rewrite Hm.
      edestruct (IH (seen ++ [p])) as (w' & Hrun & Hn' & Htr' & Hem');
        [| |
         |rewrite Hrun; exists w'; split; [reflexivity|]; split; [exact Hn'|];
          split; [now rewrite <- app_assoc in Htr'|];
          rewrite Hem'; cbn; now rewrite <- app_assoc].
      * exact Hns.
      * intros q Hq. apply Hdirs. now right.
      * intros q. cbn [folderSet log_emit with_folderSet log].
        rewrite times_seen_snoc, (Htr q).
        destruct (decide (p = q)) as [Hpq|Hpq]; [subst q; rewrite Hne; intuition congruence|reflexivity].
Qed.

Lemma times_seen_cons ps p q :
  times_seen (p :: ps) q
  = if decide (p = q) then S (times_seen ps q) else times_seen ps q.
Proof.
  unfold times_seen. cbn [count_occ].
  destruct (string_dec p q); case_decide; congruence.
Qed.

Lemma marks_count ne q ps : forall seen,
  count_occ string_dec (marks ne seen ps) q
  = if ne q then
      Nat.div2 (times_seen ps q + (if Nat.odd (times_seen seen q) then 1 else 0))
    else times_seen ps q.
Proof.
  induction ps as [|p ps IH]; intros seen.
  - cbn. destruct (ne q); [|reflexivity]. now destruct (Nat.odd _).
  - cbn [marks]. rewrite count_occ_app, IH, times_seen_snoc, times_seen_cons.
    unfold first_visit.
    destruct (decide (p = q)) as [->|Hpq].
    + rewrite Nat.odd_succ, <- Nat.negb_odd.
      destruct (ne q); cbn [andb].
      * destruct (Nat.odd (times_seen seen q)); cbn [negb count_occ].
        -- destruct (string_dec q q); [|congruence].
           replace (S (times_seen ps q) + 1)%nat with (S (S (times_seen ps q))) by lia.
           cbn [Nat.div2]. now rewrite Nat.add_0_r.
        -- cbn [Nat.add]. f_equal. lia.
      * cbn [count_occ]. destruct (string_dec q q); [reflexivity|congruence].
    + replace (count_occ string_dec (if ne p && Nat.even (times_seen seen p) then [] else [p]) q)
        with 0%nat; [reflexivity|].
      destruct (ne p && Nat.even (times_seen seen p)); cbn [count_occ];
        [reflexivity|]. destruct (string_dec p q); [congruence|reflexivity].
Qed.

(** C3.  Let a traversal visit directories in the order [ps], every
    directory with entries twice and every empty one once, starting with no
    tracked path.  A visit to a directory with entries that is not tracked
    records its path and fails with [ENOTEMPTY], emitting nothing; a visit
    to a tracked one succeeds, emits one [mark] event and removes the path.
    So the visits have the outcomes the protocol prescribes, every directory
    gets exactly one [mark] event, and no path is tracked at the end. *)
Theorem mark_protocol_leaves_no_entry em w ps :
  folderSet w = ∅ ->
  (forall p, In p ps -> names w !! p = Some Dir) ->
  (forall p, In p ps ->
     times_seen ps p = if nonempty (names w) p then 2%nat else 1%nat) ->
  (forall p w1, In p ps -> nonempty (names w) p = true -> names w1 = names w ->
     (p ∉ folderSet w1 ->
      exists w2, Dir.mark p em w1 = (w2, Throw ENOTEMPTY)
                 /\ folderSet w2 = {[p]} ∪ folderSet w1
                 /\ emitted w2 = emitted w1)
     /\ (p ∈ folderSet w1 ->
         exists w2, Dir.mark p em w1 = (w2, Ok tt)
                    /\ folderSet w2 = folderSet w1 ∖ {[p]}
                    /\ emitted w2 = emitted w1 ++ [(em, "mark"%string, p)]))
  /\ exists w',
       visits ps em w = (w', outcomes (nonempty (names w)) [] ps)
       /\ folderSet w' = ∅
       /\ emitted w'
          = emitted w
            ++ map (fun p => (em, "mark"%string, p)) (marks (nonempty (names w)) [] ps)
       /\ forall p, In p ps ->
            count_occ string_dec (marks (nonempty (names w)) [] ps) p = 1%nat.
Proof.
  intros Hempty Hdirs Hcount. split.
  - intros p w1 Hin Hne Hns.
    assert (Hdir : names w1 !! p = Some Dir) by (rewrite Hns; auto).
    pose proof (mark_cases p em w1 Hdir) as Hm. rewrite Hns, Hne in Hm.
    split; intros Htr.
    + rewrite bool_decide_eq_false_2 in Hm by assumption. eauto.
    + rewrite bool_decide_eq_true_2 in Hm by assumption. eauto.
  - destruct (visits_follow_protocol em (names w) ps [] w eq_refl Hdirs)
      as (w' & Hrun & Hns & Htr & Hem).
    { intros q. rewrite Hempty. cbn. split; [set_solver|]. intros [_ ?]; discriminate. }
    exists w'. split; [assumption|]. split; [|split; [assumption|]].
    + apply elem_of_equiv_empty_L. intros q Hq. apply Htr in Hq as [Hne Hodd].
      cbn [app] in Hodd.
      destruct (in_dec string_dec q ps) as [Hin|Hnin].
      * rewrite (Hcount q Hin), Hne in Hodd. discriminate.
      * unfold times_seen in Hodd.
        rewrite (proj1 (count_occ_not_In string_dec ps q) Hnin) in Hodd. discriminate.
    + intros p Hin. rewrite marks_count, (Hcount p Hin).
      destruct (nonempty (names w) p); reflexivity.
Qed.

End MarkProtocol.

(** ** The removal and its result *)

Section Removal.

Lemma emit_foreign name path ls l :
  Index.emit name path (Index.foreign ls) l = l.
Proof.
  unfold Index.emit, Index.foreign. induction ls as [|x ls IH]; [reflexivity|].
  cbn [map fold_left fst snd Index.call].
  destruct (String.eqb (fst x) name); exact IH.
Qed.

Lemma emit_listening name path ls l :
  Index.emit name path (Index.listening (Index.foreign ls)) l
  = if String.eqb name "init" || String.eqb name "mark"
    then Index.update path l else l.
Proof.
  unfold Index.listening, Index.on, Index.emit. rewrite !fold_left_app.
  fold (Index.emit name path (Index.foreign ls) l). rewrite emit_foreign.
  cbn [fold_left fst snd Index.call].
  rewrite (String.eqb_sym "mark" name), (String.eqb_sym "init" name).
  destruct (String.eqb_spec name "mark") as [->|]; [reflexivity|].
  cbn [orb]. rewrite orb_false_r. reflexivity.
Qed.

Lemma touched_snoc evs name path :
  touched (evs ++ [(name, path)])
  = touched evs
    ++ (if String.eqb name "init" || String.eqb name "mark" then [path] else []).
Proof.
  unfold touched. rewrite List.filter_app, map_app. cbn [List.filter fst snd].
  now destruct (String.eqb name "init" || String.eqb name "mark").
Qed.

Lemma counted_emit evs name path ls l :
  counted evs l ->
  counted (evs ++ [(name, path)])
    (Index.emit name path (Index.listening (Index.foreign ls)) l).
Proof.
  intros [Hc Hi]. rewrite emit_listening. unfold counted. rewrite touched_snoc.
  destruct (String.eqb name "init" || String.eqb name "mark").
  - cbn [Index.update Index.count Index.index]. rewrite length_app, Hi, Hc, Hi.
    cbn [length]. split; [lia|reflexivity].
  - rewrite app_nil_r. auto.
Qed.

Lemma run_counted ls r : forall evs l,
  counted evs l ->
  counted (evs ++ events_of r) (fst (Index.run r (Index.listening (Index.foreign ls)) l))
  /\ forall k lk,
       Index.history r (Index.listening (Index.foreign ls)) l !! k = Some lk ->
       counted (evs ++ take (S k) (events_of r)) lk.
Proof.
  induction r as [| e |name path rest IH]; intros evs l Hl.
  - cbn. rewrite app_nil_r. split; [assumption|]. intros k lk Hk. discriminate.
  - cbn. rewrite app_nil_r. split; [assumption|]. intros k lk Hk. discriminate.
  - cbn [Index.run Index.history events_of].
    pose proof (counted_emit evs name path ls l Hl) as Hl'.
    destruct (IH _ _ Hl') as [Hend Hhist]. split.
    + now rewrite <- app_assoc in Hend.
    + intros [|k] lk Hk.
      * cbn in Hk. injection Hk as <-. cbn [take]. rewrite take_0. exact Hl'.
      * cbn in Hk. specialize (Hhist k lk Hk).
        rewrite <- app_assoc in Hhist. exact Hhist.
Qed.

Lemma run_outcome em r : forall l, snd (Index.run r em l) = outcome_of r.
Proof. induction r as [| |name path rest IH]; intros l; cbn; auto. Qed.

(** C10.  Whatever events the removal emits and whatever listeners the
    caller has registered, after every emission [count] is the length of
    [index] and [index] lists the paths of the [init] and [mark] events
    emitted so far, in the order of emission; when the removal finishes,
    [remove_] returns that [count] and that [index] for all the events of
    the removal, and when it fails, [remove_] fails with the same error. *)
Theorem remove_counts_touched_paths path removal ls :
  (forall k lk,
     Index.history removal (Index.listening (Index.foreign ls)) (Index.mkLocals 0 [])
       !! k = Some lk ->
     Index.count lk = Z.of_nat (length (Index.index lk))
     /\ Index.index lk = touched (take (S k) (events_of removal)))
  /\ Index.remove_ path removal (Index.foreign ls)
     = match outcome_of removal with
       | Ok _ =>
         Ok (Index.mkLocals (Z.of_nat (length (touched (events_of removal))))
                            (touched (events_of removal)))
       | Throw e => Throw e
       | Diverge => Diverge
       end.
Proof.
  destruct (run_counted ls removal [] (Index.mkLocals 0 [])) as [Hend Hhist];
    [split; reflexivity|].
  split; [exact Hhist|].
  unfold Index.remove_. fold (Index.listening (Index.foreign ls)).
  pose proof (run_outcome (Index.listening (Index.foreign ls)) removal
                (Index.mkLocals 0 [])) as Hout.
  destruct (Index.run removal (Index.listening (Index.foreign ls)) (Index.mkLocals 0 []))
    as [l o]. cbn [fst snd] in Hend, Hout. subst o.
  destruct (outcome_of removal) as [[]|e|]; try reflexivity.
  rewrite emit_listening.
  change (String.eqb "done" "init" || String.eqb "done" "mark") with false.
  cbv iota. destruct Hend as [Hc Hi]. cbn [app] in Hi. rewrite Hc, Hi. reflexivity.
Qed.

End Removal.

(** ** Operations as sequences of passes *)

Section Performs.
Context `{Platform}.

(** One pass with a repeated array of bytes. *)
Lemma array_pass fd size (fill : Buffer) w :
  fill <> [] -> is_Some (Fs.content_of w fd) -> 0 <= size ->
  exists w',
    File.writeExtended fd size 0
      (fun bufferSize _ => Buf.alloc_from bufferSize fill) w = (w', Ok tt)
    /\ is_Some (Fs.content_of w' fd)
    /\ syscalls w' = syscalls w ++ array_calls fd fill (chunks size)
    /\ stable w w' /\ drawn w' = drawn w.
Proof.
  intros Hfill Hc Hsize. pose proof kMaxLength_pos as Hk.
  set (I := fun (pos : Z) (w1 : World) =>
    is_Some (Fs.content_of w1 fd) /\ stable w w1 /\ drawn w1 = drawn w).
  destruct (writeExtended_log I
              (fun ch => [SysWrite fd (fst ch) (Buf.cycle fill fill (Z.to_nat (snd ch)))])
              fd size (fun bufferSize _ => Buf.alloc_from bufferSize fill) w)
    as (w' & Hrun & (Hc' & Hst & Hdr) & Hlog); try assumption.
  - intros pos w1 ([c1 Hc1] & Hst1 & Hdr1) Hpos.
    set (len := Z.min (size - pos) kMaxLength).
    assert (Hlen : 0 <= len <= kMaxLength) by lia.
    destruct (write_Ok fd (Buf.cycle fill fill (Z.to_nat len)) len pos w1 _ Hc1)
      as (w2 & Hw & Hc2 & Hlog2 & Hst2 & Hdr2);
      [lia|rewrite cycle_length by assumption; lia|].
    exists (Buf.cycle fill fill (Z.to_nat len)), w1, w2.
    split; [now apply alloc_from_Ok|]. split; [assumption|].
    split; [|assumption].
    split; [eauto|split; [eapply stable_trans; eauto|congruence]].
  - repeat split; auto.
  - exists w'. unfold array_calls. rewrite <- flat_map_singleton. auto.
Qed.

(** One pass with random data: each chunk draws as many bytes as it
    writes. *)
Lemma random_pass fd size w :
  is_Some (Fs.content_of w fd) -> 0 <= size ->
  exists w',
    File.writeExtended fd size 0
      (fun bufferSize _ => Crypto.randomBytes bufferSize) w = (w', Ok tt)
    /\ is_Some (Fs.content_of w' fd)
    /\ syscalls w' = syscalls w ++ random_calls fd (entropy w) (drawn w) (chunks size)
    /\ stable w w' /\ drawn w' = (drawn w + Z.to_nat size)%nat.
Proof.
  intros Hc Hsize. pose proof kMaxLength_pos as Hk.
  set (I := fun (pos : Z) (w1 : World) =>
    is_Some (Fs.content_of w1 fd) /\ stable w w1
    /\ drawn w1 = (drawn w + Z.to_nat pos)%nat).
  destruct (writeExtended_log I
              (fun ch =>
                 [SysRandomBytes (snd ch);
                  SysWrite fd (fst ch)
                    (map (entropy w)
                       (seq (drawn w + Z.to_nat (fst ch)) (Z.to_nat (snd ch))))])
              fd size (fun bufferSize _ => Crypto.randomBytes bufferSize) w)
    as (w' & Hrun & (Hc' & Hst & Hdr) & Hlog); try assumption.
  - intros pos w1 ([c1 Hc1] & Hst1 & Hdr1) Hpos.
    set (len := Z.min (size - pos) kMaxLength).
    assert (Hlen : 0 <= len <= kMaxLength) by lia.
    set (data := map (entropy w) (seq (drawn w + Z.to_nat pos) (Z.to_nat len))).
    set (w1' := with_drawn (drawn w1 + Z.to_nat len) (log (SysRandomBytes len) w1)).
    assert (Hent : entropy w1 = entropy w) by (destruct Hst1 as (_ & _ & He & _); exact He).
    assert (Hr : Crypto.randomBytes len w1 = (w1', Ok data)).
    { rewrite randomBytes_Ok by lia. unfold w1', data. now rewrite Hent, Hdr1. }
    destruct (write_Ok fd data len pos w1' c1 Hc1)
      as (w2 & Hw & Hc2 & Hlog2 & Hst2 & Hdr2);
      [lia|unfold data; rewrite length_map, length_seq; lia|].
    exists data, w1', w2. split; [assumption|]. split; [assumption|]. split.
    + split; [eauto|]. split.
      * eapply stable_trans; [exact Hst1|].
        eapply stable_trans; [|exact Hst2]. unfold stable, w1'. cbn. auto 10.
      * rewrite Hdr2. unfold w1'. cbn [drawn with_drawn]. lia.
    + rewrite Hlog2. unfold w1'. cbn [syscalls with_drawn log fst snd].
      now rewrite <- app_assoc.
  - repeat split; auto; cbn; lia.
  - exists w'. unfold random_calls. auto.
Qed.

Lemma passes_calls_app fd e chs size ps1 : forall ps2 d,
  passes_calls fd e chs size (ps1 ++ ps2) d
  = passes_calls fd e chs size ps1 d
    ++ passes_calls fd e chs size ps2 (d + draws size ps1).
Proof.
  induction ps1 as [|p ps1 IH]; intros ps2 d; cbn [app passes_calls draws].
  - now rewrite Nat.add_0_r.
  - rewrite IH, <- app_assoc. do 3 f_equal. lia.
Qed.

Lemma draws_app size ps1 ps2 :
  draws size (ps1 ++ ps2) = (draws size ps1 + draws size ps2)%nat.
Proof. induction ps1 as [|p ps1 IH]; cbn [app draws]; lia. Qed.

Lemma performs_nil fd size : performs fd size (ret tt) [].
Proof.
  intros w Hc. exists w. cbn. rewrite app_nil_r, Nat.add_0_r.
  repeat split; auto.
Qed.

Lemma performs_seq fd size op1 op2 ps1 ps2 :
  performs fd size op1 ps1 -> performs fd size op2 ps2 ->
  performs fd size (op1 ;; op2) (ps1 ++ ps2).
Proof.
  intros H1 H2 w Hc.
  destruct (H1 w Hc) as (w1 & Hr1 & Hc1 & Hl1 & Hs1 & Hd1).
  destruct (H2 w1 Hc1) as (w2 & Hr2 & Hc2 & Hl2 & Hs2 & Hd2).
  exists w2. rewrite (bind_Ok _ _ _ _ _ Hr1). split; [assumption|].
  split; [assumption|].
  assert (He : entropy w1 = entropy w) by (destruct Hs1 as (_ & _ & He & _); exact He).
  split; [|split; [eapply stable_trans; eauto|rewrite draws_app; lia]].
  rewrite Hl2, Hl1, passes_calls_app, He, Hd1, <- app_assoc. reflexivity.
Qed.

Lemma performs_for_loop fd size body ps n : forall i,
  performs fd size body ps ->
  performs fd size (File.for_loop n i (fun _ => body)) (concat (replicate n ps)).
Proof.
  induction n as [|n IH]; intros i Hb; cbn [File.for_loop replicate concat].
  - apply performs_nil.
  - apply performs_seq; auto.
Qed.

Lemma performs_alloc fd size v :
  0 <= size ->
  performs fd size
    (File.writeExtended fd size 0 (fun bufferSize _ => Buf.alloc bufferSize v))
    [Const (Buf.byte_of_Z v)].
Proof.
  intros Hsize w [c Hc].
  destruct (alloc_pass fd size v w c Hc Hsize) as (w' & Hr & Hc' & Hl & Hs & Hd).
  exists w'. cbn [passes_calls pass_calls draws pass_draws].
  rewrite app_nil_r, Nat.add_0_r. repeat split; eauto; apply Hs.
Qed.

Lemma performs_alloc_from fd size (fill : Buffer) :
  0 <= size -> fill <> [] ->
  performs fd size
    (File.writeExtended fd size 0 (fun bufferSize _ => Buf.alloc_from bufferSize fill))
    [Array fill].
Proof.
  intros Hsize Hfill w Hc.
  destruct (array_pass fd size fill w Hfill Hc Hsize) as (w' & Hr & Hc' & Hl & Hs & Hd).
  exists w'. cbn [passes_calls pass_calls draws pass_draws].
  rewrite app_nil_r, Nat.add_0_r. repeat split; eauto; apply Hs.
Qed.

Lemma performs_randomBytes fd size :
  0 <= size ->
  performs fd size
    (File.writeExtended fd size 0 (fun bufferSize _ => Crypto.randomBytes bufferSize))
    [Random].
Proof.
  intros Hsize w Hc.
  destruct (random_pass fd size w Hc Hsize) as (w' & Hr & Hc' & Hl & Hs & Hd).
  exists w'. cbn [passes_calls pass_calls draws pass_draws].
  rewrite app_nil_r, Nat.add_0_r. repeat split; eauto; apply Hs.
Qed.

Lemma concat_replicate_singleton {A} (x : A) n :
  concat (replicate n [x]) = replicate n x.
Proof. induction n as [|n IH]; cbn; congruence. Qed.

Lemma performs_random fileData o :
  0 <= File.fileSize fileData ->
  performs (File.fd fileData) (File.fileSize fileData) (File.random fileData o)
    (replicate (Z.to_nat (File.passes_of o)) Random).
Proof.
  intros Hsize. unfold File.random, File.for_passes.
  rewrite <- concat_replicate_singleton.
  apply performs_for_loop, performs_randomBytes, Hsize.
Qed.

Lemma performs_zeros fileData o :
  0 <= File.fileSize fileData ->
  performs (File.fd fileData) (File.fileSize fileData) (File.zeros fileData o)
    (replicate (Z.to_nat (File.passes_of o)) (Const x00)).
Proof.
  intros Hsize. unfold File.zeros, File.for_passes.
  rewrite <- concat_replicate_singleton.
  change x00 with (Buf.byte_of_Z 0).
  apply performs_for_loop, performs_alloc, Hsize.
Qed.

Lemma performs_ones fileData o :
  0 <= File.fileSize fileData ->
  performs (File.fd fileData) (File.fileSize fileData) (File.ones fileData o)
    (replicate (Z.to_nat (File.passes_of o)) (Const xff)).
Proof.
  intros Hsize. unfold File.ones, File.for_passes.
  rewrite <- concat_replicate_singleton.
  change xff with (Buf.byte_of_Z 255).
  apply performs_for_loop, performs_alloc, Hsize.
Qed.

Lemma performs_byte fileData v :
  0 <= File.fileSize fileData ->
  performs (File.fd fileData) (File.fileSize fileData) (File.byte fileData None v)
    [Const (Buf.byte_of_Z v)].
Proof.
  intros Hsize. unfold File.byte, File.for_passes.
  change [Const (Buf.byte_of_Z v)]
    with (concat (replicate (Z.to_nat (default 1 None)) [Const (Buf.byte_of_Z v)])).
  apply performs_for_loop, performs_alloc, Hsize.
Qed.

Lemma performs_byteArray fileData data :
  0 <= File.fileSize fileData -> data <> [] ->
  performs (File.fd fileData) (File.fileSize fileData)
    (File.byteArray fileData None data) [Array (Buf.from data)].
Proof.
  intros Hsize Hdata. unfold File.byteArray, File.for_passes.
  change [Array (Buf.from data)]
    with (concat (replicate (Z.to_nat (default 1 None)) [Array (Buf.from data)])).
  apply performs_for_loop, performs_alloc_from; [exact Hsize|].
  destruct data; [congruence|discriminate].
Qed.

Lemma performs_forByte fileData condition increment fuel : forall initial,
  0 <= File.fileSize fileData ->
  counter_ends fuel initial condition increment = true ->
  performs (File.fd fileData) (File.fileSize fileData)
    (File.forByte fuel fileData initial condition increment)
    (map (fun v => Const (Buf.byte_of_Z v))
         (counter_values fuel initial condition increment)).
Proof.
  unfold File.forByte.
  induction fuel as [|fuel IH]; intros i Hsize Hends; [discriminate|].
  cbn [File.forByte_loop counter_values counter_ends] in *.
  destruct (condition i).
  - cbn [map].
    change (Const (Buf.byte_of_Z i)
            :: map (fun v => Const (Buf.byte_of_Z v))
                 (counter_values fuel (increment i) condition increment))
      with ([Const (Buf.byte_of_Z i)]
            ++ map (fun v => Const (Buf.byte_of_Z v))
                 (counter_values fuel (increment i) condition increment)).
    apply performs_seq; [apply performs_alloc, Hsize|apply IH; assumption].
  - apply performs_nil.
Qed.

Lemma counter_more_fuel condition increment fuel : forall i k,
  counter_ends fuel i condition increment = true ->
  counter_ends (fuel + k) i condition increment = true
  /\ counter_values (fuel + k) i condition increment
     = counter_values fuel i condition increment.
Proof.
  induction fuel as [|fuel IH]; intros i k Hends; [discriminate|].
  cbn [counter_ends counter_values Nat.add] in *.
  destruct (condition i); [|auto].
  destruct (IH _ k Hends) as [-> ->]. auto.
Qed.

End Performs.

(** ** Properties of the standards *)

Section StandardsProperties.
Context `{Platform}.

Lemma bind_assoc {A B C} (m : IO A) (f : A -> IO B) (g : B -> IO C) w :
  bind m (fun x => bind (f x) g) w = bind (bind m f) g w.
Proof.
  unfold bind. destruct (m w) as [w1 [a|e|]]; try reflexivity.
Qed.

Lemma end_Ok fileData w ino ino' :
  fdt w !! File.fd fileData = Some ino ->
  names w !! File.fileName fileData = Some (File ino') ->
  File.end_ fileData w
  = (log_emit (File.eventEmitter, "removed"%string, File.fileName fileData)
       (with_names (delete (File.fileName fileData))
          (log (SysUnlink (File.fileName fileData))
             (with_fdt (delete (File.fd fileData))
                (log (SysClose (File.fd fileData)) w)))),
     Ok tt).
Proof.
  intros Hfd Hn. unfold File.end_.
  rewrite (bind_Ok _ _ _ _ _ (close_Ok _ _ _ Hfd)).
  unfold bind, Fs.unlink. cbn [names with_fdt log]. rewrite Hn. reflexivity.
Qed.

(** [end] alone, and passes followed by a computation that finishes. *)
Lemma finishes_end fileData : finishes fileData (File.end_ fileData) [].
Proof.
  intros w ino ino' Hfd Hn Hc. eexists.
  rewrite (end_Ok fileData w ino ino') by assumption.
  split; [reflexivity|].
  cbn [syscalls names fdt emitted log_emit with_names with_fdt log passes_calls app].
  rewrite <- !app_assoc. auto.
Qed.

Lemma finishes_seq fileData op k ps1 ps2 :
  performs (File.fd fileData) (File.fileSize fileData) op ps1 ->
  finishes fileData k ps2 ->
  finishes fileData (op ;; k) (ps1 ++ ps2).
Proof.
  intros Hop Hk w ino ino' Hfd Hn Hc.
  destruct (Hop w Hc) as (w1 & Hr & Hc1 & Hl & (Hsn & Hsf & Hse & _ & _ & _ & Hsem) & Hd).
  destruct (Hk w1 ino ino') as (w' & Hr' & Hl' & Hn' & Hf' & Hem');
    [congruence|congruence|assumption|].
  exists w'. rewrite (bind_Ok _ _ _ _ _ Hr). split; [assumption|].
  split; [|split; [congruence|split; congruence]].
  rewrite Hl', Hl, passes_calls_app, Hse, Hd, <- !app_assoc. reflexivity.
Qed.

Lemma init_opens path w ino c :
  names w !! path = Some (File ino) -> inodes w !! ino = Some c ->
  exists w1,
    File.init path w
    = (w1, Ok (File.mkFileData (fresh (dom (fdt w))) path (Z.of_nat (length c))))
    /\ syscalls w1 = syscalls w ++ [SysStat path; SysOpen path (fresh (dom (fdt w)))]
    /\ fdt w1 = <[fresh (dom (fdt w)) := ino]> (fdt w)
    /\ names w1 = names w /\ entropy w1 = entropy w /\ drawn w1 = drawn w
    /\ emitted w1 = emitted w
    /\ Fs.content_of w1 (fresh (dom (fdt w))) = Some c.
Proof.
  intros Hn Hi. eexists. split; [apply (init_Ok path w ino c Hn Hi)|].
  cbn [syscalls fdt names entropy drawn emitted with_fdt log].
  rewrite <- app_assoc. repeat split; try reflexivity.
  unfold Fs.content_of. cbn. now rewrite lookup_insert_eq.
Qed.

Lemma delete_fresh_fd (m : gmap Z nat) ino :
  delete (fresh (dom m)) (<[fresh (dom m) := ino]> m) = m.
Proof.
  rewrite delete_insert_eq. apply delete_id.
  apply not_elem_of_dom, is_fresh.
Qed.

Lemma gutmann_counter fuel :
  (16 <= fuel)%nat ->
  counter_ends fuel 0 (fun i => i <? 255) (fun i => i + 17) = true
  /\ counter_values fuel 0 (fun i => i <? 255) (fun i => i + 17)
     = [0; 17; 34; 51; 68; 85; 102; 119; 136; 153; 170; 187; 204; 221; 238].
Proof.
  intros Hfuel. replace fuel with (16 + (fuel - 16))%nat by lia.
  destruct (counter_more_fuel (fun i => i <? 255) (fun i => i + 17) 16 0 (fuel - 16))
    as [-> ->]; [reflexivity|]. split; reflexivity.
Qed.

(** C7.  On a file, with fuel for the counter loop, [gutmann] returns; its
    calls are [stat] and [open], then the calls of these passes in this
    order: 4 random passes; the bytes 0x55 and 0xAA; the arrays
    [92 49 24], [49 24 92], [24 92 49]; one pass for each of the 15 counter
    values 0x00, 0x11, ..., 0xEE; the arrays [92 49 24], [49 24 92],
    [24 92 49], [6D B6 DB], [B6 DB 6D], [DB 6D B6]; 4 random passes; then
    [close] and [unlink]. *)
Theorem gutmann_runs_its_passes_in_order fuel path w ino c :
  (16 <= fuel)%nat ->
  names w !! path = Some (File ino) ->
  inodes w !! ino = Some c ->
  exists w',
    Standards.gutmann_unlink fuel path w = (w', Ok tt)
    /\ syscalls w'
       = syscalls w
         ++ [SysStat path; SysOpen path (fresh (dom (fdt w)))]
         ++ passes_calls (fresh (dom (fdt w))) (entropy w)
              (chunks (Z.of_nat (length c))) (Z.of_nat (length c))
              gutmann_passes (drawn w)
         ++ [SysClose (fresh (dom (fdt w))); SysUnlink path]
    /\ names w' = delete path (names w)
    /\ fdt w' = fdt w
    /\ emitted w' = emitted w ++ [(File.eventEmitter, "removed"%string, path)].
Proof.
  intros Hfuel Hn Hi.
  destruct (init_opens path w ino c Hn Hi)
    as (w1 & Hinit & Hl1 & Hf1 & Hn1 & He1 & Hd1 & Hem1 & Hc1).
  set (fileData := File.mkFileData (fresh (dom (fdt w))) path (Z.of_nat (length c))) in *.
  assert (Hsize : 0 <= File.fileSize fileData) by (cbn; lia).
  destruct (gutmann_counter fuel Hfuel) as [Hends Hvals].
  assert (Hops : exists ps,
    ps = gutmann_passes
    /\ finishes fileData
         (File.random fileData (Standards.with_passes 4) ;;
          File.byte fileData None 0x55 ;;
          File.byte fileData None 0xAA ;;
          File.byteArray fileData None [0x92; 0x49; 0x24] ;;
          File.byteArray fileData None [0x49; 0x24; 0x92] ;;
          File.byteArray fileData None [0x24; 0x92; 0x49] ;;
          File.forByte fuel fileData 0x00 (fun i => i <? 0xFF) (fun i => i + 0x11) ;;
          File.byteArray fileData None [0x92; 0x49; 0x24] ;;
          File.byteArray fileData None [0x49; 0x24; 0x92] ;;
          File.byteArray fileData None [0x24; 0x92; 0x49] ;;
          File.byteArray fileData None [0x6D; 0xB6; 0xDB] ;;
          File.byteArray fileData None [0xB6; 0xDB; 0x6D] ;;
          File.byteArray fileData None [0xDB; 0x6D; 0xB6] ;;
          File.random fileData (Standards.with_passes 4) ;;
          File.end_ fileData) ps).
  { eexists. split; [|
      repeat (first
        [ apply finishes_end
        | eapply finishes_seq;
          [ first
              [ apply performs_random; exact Hsize
              | apply performs_byte; exact Hsize
              | apply performs_byteArray; [exact Hsize|discriminate]
              | apply performs_forByte; [exact Hsize|exact Hends] ] | ] ])].
    rewrite Hvals. reflexivity. }
  destruct Hops as (ps & -> & Hops).
  destruct (Hops w1 ino ino) as (w' & Hrun & Hl & Hn' & Hf' & Hem').
  { rewrite Hf1. apply lookup_insert_eq. }
  { rewrite Hn1. exact Hn. }
  { exists c. exact Hc1. }
  exists w'. split.
  { unfold Standards.gutmann_unlink. rewrite (bind_Ok _ _ _ _ _ Hinit). exact Hrun. }
  split; [rewrite Hl, Hl1, He1, Hd1, <- !app_assoc; reflexivity|].
  split; [now rewrite Hn', Hn1|].
  split; [rewrite Hf', Hf1; apply delete_fresh_fd|].
  now rewrite Hem', Hem1.
Qed.

Lemma no_read_app l1 l2 : no_read (l1 ++ l2) = no_read l1 && no_read l2.
Proof. apply forallb_app. Qed.

Lemma passes_calls_no_read fd e chs size ps : forall d,
  no_read (passes_calls fd e chs size ps d) = true.
Proof.
  induction ps as [|p ps IH]; intros d; [reflexivity|].
  cbn [passes_calls]. rewrite no_read_app, IH, andb_true_r.
  unfold no_read. apply forallb_forall. intros x Hx.
  destruct p; cbn [pass_calls] in Hx; unfold random_calls, const_calls, array_calls in Hx.
  - apply in_flat_map in Hx as (ch & _ & [<-|[<-|[]]]); reflexivity.
  - apply in_map_iff in Hx as (ch & <- & _). reflexivity.
  - apply in_map_iff in Hx as (ch & <- & _). reflexivity.
Qed.

(** The passes of one standard, run from a path: [init], the passes,
    [end]. *)
Lemma standard_runs path w ino c (k : File.FileData -> IO unit) ps :
  names w !! path = Some (File ino) ->
  inodes w !! ino = Some c ->
  finishes (File.mkFileData (fresh (dom (fdt w))) path (Z.of_nat (length c)))
    (k (File.mkFileData (fresh (dom (fdt w))) path (Z.of_nat (length c)))) ps ->
  exists w' calls,
    bind (File.init path) k w = (w', Ok tt)
    /\ syscalls w' = syscalls w ++ calls
    /\ calls
       = [SysStat path; SysOpen path (fresh (dom (fdt w)))]
         ++ passes_calls (fresh (dom (fdt w))) (entropy w)
              (chunks (Z.of_nat (length c))) (Z.of_nat (length c)) ps (drawn w)
         ++ [SysClose (fresh (dom (fdt w))); SysUnlink path]
    /\ no_read calls = true
    /\ names w' = delete path (names w)
    /\ fdt w' = fdt w
    /\ emitted w' = emitted w ++ [(File.eventEmitter, "removed"%string, path)].
Proof.
  intros Hn Hi Hk.
  destruct (init_opens path w ino c Hn Hi)
    as (w1 & Hinit & Hl1 & Hf1 & Hn1 & He1 & Hd1 & Hem1 & Hc1).
  destruct (Hk w1 ino ino) as (w' & Hrun & Hl & Hn' & Hf' & Hem').
  { rewrite Hf1. apply lookup_insert_eq. }
  { rewrite Hn1. exact Hn. }
  { exists c. exact Hc1. }
  exists w'. eexists. split; [rewrite (bind_Ok _ _ _ _ _ Hinit); exact Hrun|].
  cbn [File.fd File.fileName File.fileSize] in *.
  split; [rewrite Hl, Hl1, He1, Hd1, <- !app_assoc; reflexivity|].
  split; [reflexivity|].
  split; [rewrite !no_read_app, passes_calls_no_read; reflexivity|].
  split; [now rewrite Hn', Hn1|].
  split; [rewrite Hf', Hf1; apply delete_fresh_fd|].
  now rewrite Hem', Hem1.
Qed.

(** C2, as amended.  The option [check] is carried and ignored.  On a
    file, [DOD 5220.22 M] and [HMG-IS5] return after a pass of zeros, a pass
    of ones and a random pass, and [NZSIT-402] after drawing one byte and a
    pass of that byte; none of their calls is a read, so nothing is read
    back or compared and no [VerificationError] arises; every operation of
    the standard runs and the file is unlinked. *)
Theorem check_is_ignored path w ino c :
  names w !! path = Some (File ino) ->
  inodes w !! ino = Some c ->
  (exists w' calls,
     Standards.DOD_5220_22_M_unlink path w = (w', Ok tt)
     /\ syscalls w' = syscalls w ++ calls
     /\ calls
        = [SysStat path; SysOpen path (fresh (dom (fdt w)))]
          ++ passes_calls (fresh (dom (fdt w))) (entropy w)
               (chunks (Z.of_nat (length c))) (Z.of_nat (length c))
               [Const x00; Const xff; Random] (drawn w)
          ++ [SysClose (fresh (dom (fdt w))); SysUnlink path]
     /\ no_read calls = true
     /\ names w' = delete path (names w))
  /\ (exists w' calls,
        Standards.HMG_IS5_unlink path w = (w', Ok tt)
        /\ syscalls w' = syscalls w ++ calls
        /\ calls
           = [SysStat path; SysOpen path (fresh (dom (fdt w)))]
             ++ passes_calls (fresh (dom (fdt w))) (entropy w)
                  (chunks (Z.of_nat (length c))) (Z.of_nat (length c))
                  [Const x00; Const xff; Random] (drawn w)
             ++ [SysClose (fresh (dom (fdt w))); SysUnlink path]
        /\ no_read calls = true
        /\ names w' = delete path (names w))
  /\ (exists w' calls,
        Standards.NZSIT_402_unlink path w = (w', Ok tt)
        /\ syscalls w' = syscalls w ++ calls
        /\ calls
           = [SysStat path; SysOpen path (fresh (dom (fdt w))); SysRandomBytes 1]
             ++ const_calls (fresh (dom (fdt w))) (entropy w (drawn w))
                  (chunks (Z.of_nat (length c)))
             ++ [SysClose (fresh (dom (fdt w))); SysUnlink path]
        /\ no_read calls = true
        /\ names w' = delete path (names w)).
Proof.
  intros Hn Hi.
  set (fileData := File.mkFileData (fresh (dom (fdt w))) path (Z.of_nat (length c))).
  assert (Hsize : 0 <= File.fileSize fileData) by (cbn; lia).
  split; [|split].
  - destruct (standard_runs path w ino c
                (fun fileData =>
                   File.zeros fileData Standards.check_true ;;
                   File.ones fileData Standards.check_true ;;
                   File.random fileData Standards.check_true ;;
                   File.end_ fileData)
                [Const x00; Const xff; Random] Hn Hi)
      as (w' & calls & Hrun & Hl & Hcalls & Hnr & Hn' & _).
    { fold fileData.
      apply (finishes_seq fileData _ _ [Const x00] [Const xff; Random]);
        [apply performs_zeros, Hsize|].
      apply (finishes_seq fileData _ _ [Const xff] [Random]);
        [apply performs_ones, Hsize|].
      apply (finishes_seq fileData _ _ [Random] []);
        [apply performs_random, Hsize|apply finishes_end]. }
    exists w', calls. auto.
  - destruct (standard_runs path w ino c
                (fun fileData =>
                   File.zeros fileData File.no_options ;;
                   File.ones fileData File.no_options ;;
                   File.random fileData Standards.check_true ;;
                   File.end_ fileData)
                [Const x00; Const xff; Random] Hn Hi)
      as (w' & calls & Hrun & Hl & Hcalls & Hnr & Hn' & _).
    { fold fileData.
      apply (finishes_seq fileData _ _ [Const x00] [Const xff; Random]);
        [apply performs_zeros, Hsize|].
      apply (finishes_seq fileData _ _ [Const xff] [Random]);
        [apply performs_ones, Hsize|].
      apply (finishes_seq fileData _ _ [Random] []);
        [apply performs_random, Hsize|apply finishes_end]. }
    exists w', calls. auto.
  - destruct (init_opens path w ino c Hn Hi)
      as (w1 & Hinit & Hl1 & Hf1 & Hn1 & He1 & Hd1 & Hem1 & Hc1).
    fold fileData in Hinit.
    set (w2 := with_drawn (drawn w1 + Z.to_nat 1) (log (SysRandomBytes 1) w1)).
    assert (Hfin : finishes fileData
              (File.for_passes (File.passes_of Standards.check_true) (fun _ =>
                 File.writeExtended (File.fd fileData) (File.fileSize fileData) 0
                   (fun bufferSize _ =>
                      Buf.alloc bufferSize (Buf.Z_of_byte (entropy w (drawn w))))) ;;
               File.end_ fileData)
              [Const (entropy w (drawn w))]).
    { apply (finishes_seq fileData _ _ [Const (entropy w (drawn w))] []);
        [|apply finishes_end].
      replace [Const (entropy w (drawn w))]
        with (concat (replicate (Z.to_nat (File.passes_of Standards.check_true))
                        [Const (Buf.byte_of_Z (Buf.Z_of_byte (entropy w (drawn w))))]))
        by (cbn; now rewrite byte_of_Z_of_byte).
      apply performs_for_loop, performs_alloc, Hsize. }
    destruct (Hfin w2 ino ino) as (w' & Hrun & Hl & Hn' & Hf' & Hem').
    { unfold w2. cbn [fdt with_drawn log]. rewrite Hf1. apply lookup_insert_eq. }
    { unfold w2. cbn [names with_drawn log]. rewrite Hn1. exact Hn. }
    { exists c. exact Hc1. }
    exists w'. eexists. split.
    { unfold Standards.NZSIT_402_unlink. rewrite (bind_Ok _ _ _ _ _ Hinit).
      unfold File.randomByte. rewrite <- bind_assoc.
      erewrite bind_Ok by (apply randomBytes_Ok; lia). fold w2.
      rewrite He1, Hd1. exact Hrun. }
    cbn [File.fd File.fileName File.fileSize fileData passes_calls pass_calls] in Hl.
    unfold w2 in Hl, Hn'. cbn [syscalls names with_drawn log] in Hl, Hn'.
    rewrite app_nil_r in Hl.
    split; [rewrite Hl, Hl1, <- !app_assoc; reflexivity|].
    split; [reflexivity|]. split.
    + cbn [app no_read forallb is_read negb andb]. fold (no_read
        (const_calls (fresh (dom (fdt w))) (entropy w (drawn w))
           (chunks (Z.of_nat (length c)))
         ++ [SysClose (fresh (dom (fdt w))); SysUnlink path])).
      rewrite no_read_app.
      change (const_calls (fresh (dom (fdt w))) (entropy w (drawn w))
                (chunks (Z.of_nat (length c))))
        with (pass_calls (fresh (dom (fdt w))) (entropy w)
                (chunks (Z.of_nat (length c))) (Const (entropy w (drawn w))) 0%nat).
      pose proof (passes_calls_no_read (fresh (dom (fdt w))) (entropy w)
                    (chunks (Z.of_nat (length c))) 0
                    [Const (entropy w (drawn w))] 0) as Hnr.
      cbn [passes_calls] in Hnr. rewrite app_nil_r in Hnr. rewrite Hnr. reflexivity.
    + now rewrite Hn', Hn1.
Qed.

End StandardsProperties.

(** ** What the passes leave in the file *)

Section Contents.
Context `{Platform}.

Lemma write_at_inside (c data : Buffer) (pos : nat) :
  (pos <= length c)%nat ->
  Fs.write_at c pos data = take pos c ++ data ++ drop (pos + length data) c.
Proof.
  intros Hle. unfold Fs.write_at.
  replace (pos - length c)%nat with 0%nat by lia. reflexivity.
Qed.

Lemma fill_chunk (c d f : Buffer) (pos len size : nat) :
  (pos <= length c)%nat -> length d = len -> (pos + len <= size)%nat ->
  take (pos + len) (take pos c ++ d ++ drop (pos + len) c) ++ f
    ++ drop size (take pos c ++ d ++ drop (pos + len) c)
  = take pos c ++ (d ++ f) ++ drop size c.
Proof.
  intros Hpos Hd Hsize.
  assert (Hl : length (take pos c ++ d) = (pos + len)%nat)
    by (rewrite length_app, length_take; lia).
  rewrite (app_assoc (take pos c) d).
  rewrite take_app_length' by (now rewrite Hl).
  rewrite drop_app, Hl.
  rewrite (drop_ge (take pos c ++ d)) by lia.
  rewrite drop_drop. cbn [app].
  replace (pos + len + (size - (pos + len)))%nat with size by lia.
  now rewrite <- !app_assoc.
Qed.

Lemma writeExtended_rec_fill fd size getBuffer pat :
  pure_pattern getBuffer pat ->
  forall fuel pos w c,
    Fs.content_of w fd = Some c ->
    0 <= pos <= size -> pos <= Z.of_nat (length c) ->
    (File.depth size pos <= fuel)%nat ->
    exists w',
      File.writeExtended_rec fuel fd size pos getBuffer w = (w', Ok tt)
      /\ Fs.content_of w' fd
         = Some (take (Z.to_nat pos) c
                 ++ fill_of pat (chunks_from fuel size pos)
                 ++ drop (Z.to_nat size) c)
      /\ Z.of_nat (length (fill_of pat (chunks_from fuel size pos))) = size - pos
      /\ stable w w' /\ drawn w' = drawn w.
Proof.
  intros Hpat. pose proof kMaxLength_pos as Hk.
  induction fuel as [|fuel IH]; intros pos w c Hc Hpos Hin Hfuel.
  - unfold File.depth in Hfuel. lia.
  - cbn [File.writeExtended_rec chunks_from].
    destruct (Z.leb_spec (size - pos) kMaxLength) as [Hle|Hgt].
    + destruct (Hpat (size - pos) pos w) as [Hg Hlen]; [lia|lia|].
      destruct (write_Ok fd (pat (size - pos) pos) (size - pos) pos w c Hc)
        as (w2 & Hw & Hc2 & _ & Hst2 & Hdr2); [lia|lia|].
      rewrite (bind_Ok _ _ _ _ _ Hg), (bind_Ok _ _ _ _ _ Hw).
      exists w2. split; [reflexivity|].
      unfold fill_of. cbn [flat_map fst snd]. rewrite app_nil_r.
      split; [|split; [lia|auto]]. rewrite Hc2, write_at_inside by lia.
      do 4 f_equal. lia.
    + destruct (Hpat kMaxLength pos w) as [Hg Hlen]; [lia|lia|].
      destruct (write_Ok fd (pat kMaxLength pos) kMaxLength pos w c Hc)
        as (w2 & Hw & Hc2 & _ & Hst2 & Hdr2); [lia|lia|].
      rewrite (bind_Ok _ _ _ _ _ Hg), (bind_Ok _ _ _ _ _ Hw).
      rewrite write_at_inside in Hc2 by lia.
      destruct (IH (pos + kMaxLength) w2 _ Hc2) as (w' & Hrun & Hc' & Hfl & Hst' & Hdr').
      { lia. }
      { rewrite !length_app, length_take, length_drop. lia. }
      { rewrite depth_step in Hfuel by lia. lia. }
      exists w'. split; [exact Hrun|].
      unfold fill_of in *. cbn [flat_map fst snd].
      split; [|split; [|split; [eapply stable_trans; eauto|congruence]]].
      * rewrite Hc'. f_equal.
        replace (Z.to_nat (pos + kMaxLength))
          with (Z.to_nat pos + length (pat kMaxLength pos))%nat by lia.
        apply fill_chunk; lia.
      * rewrite length_app. lia.
Qed.

(** X1.  With a pattern function that depends on the chunk alone,
    [writeExtended] from [pos] on a file that reaches [pos] returns and
    replaces the bytes from [pos] to [size] by the buffers of its chunks in
    order, [size - pos] bytes in all; the bytes before [pos] and those from
    [size] on are kept, and nothing else changes. *)
Theorem writeExtended_replaces_range fd size pos getBuffer pat w c :
  Fs.content_of w fd = Some c ->
  0 <= pos <= size -> pos <= Z.of_nat (length c) ->
  pure_pattern getBuffer pat ->
  exists w' data,
    File.writeExtended fd size pos getBuffer w = (w', Ok tt)
    /\ data = fill_of pat (chunks_from (File.depth size pos) size pos)
    /\ Z.of_nat (length data) = size - pos
    /\ Fs.content_of w' fd
       = Some (take (Z.to_nat pos) c ++ data ++ drop (Z.to_nat size) c)
    /\ stable w w' /\ drawn w' = drawn w.
Proof.
  intros Hc Hpos Hin Hpat.
  destruct (writeExtended_rec_fill fd size getBuffer pat Hpat (File.depth size pos)
              pos w c Hc Hpos Hin) as (w' & Hrun & Hc' & Hlen & Hst & Hdr); [lia|].
  exists w'. eexists. split; [exact Hrun|]. split; [reflexivity|]. auto.
Qed.

(** Passes of a pattern that depends on the chunk alone. *)
Lemma pure_passes fd size getBuffer pat n : forall i w c,
  pure_pattern getBuffer pat ->
  Fs.content_of w fd = Some c -> 0 <= size ->
  exists w',
    File.for_loop n i (fun _ => File.writeExtended fd size 0 getBuffer) w = (w', Ok tt)
    /\ Fs.content_of w' fd
       = Some (match n with
               | O => c
               | S _ => fill_of pat (chunks size) ++ drop (Z.to_nat size) c
               end)
    /\ Z.of_nat (length (fill_of pat (chunks size))) = size
    /\ stable w w' /\ drawn w' = drawn w.
Proof.
  induction n as [|n IH]; intros i w c Hpat Hc Hsize.
  - exists w. split; [reflexivity|]. split; [assumption|].
    destruct (writeExtended_rec_fill fd size getBuffer pat Hpat (File.depth size 0)
                0 w c Hc) as (_ & _ & _ & Hlen & _); [lia|lia|lia|].
    unfold chunks. split; [lia|]. auto using stable_refl.
  - destruct (writeExtended_rec_fill fd size getBuffer pat Hpat (File.depth size 0)
                0 w c Hc) as (w1 & Hrun & Hc1 & Hlen & Hst1 & Hdr1); [lia|lia|lia|].
    fold (chunks size) in Hc1, Hlen.
    change (Z.to_nat 0) with 0%nat in Hc1. rewrite take_0 in Hc1. cbn [app] in Hc1.
    destruct (IH (i + 1) w1 _ Hpat Hc1 Hsize) as (w2 & Hrun2 & Hc2 & _ & Hst2 & Hdr2).
    exists w2. cbn [File.for_loop].
    change (File.writeExtended_rec (File.depth size 0) fd size 0 getBuffer)
      with (File.writeExtended fd size 0 getBuffer) in Hrun.
    rewrite (bind_Ok _ _ _ _ _ Hrun).
    split; [assumption|]. split; [|split; [lia|split; [eapply stable_trans; eauto|congruence]]].
    rewrite Hc2. destruct n; [reflexivity|].
    rewrite drop_app_length' by lia. reflexivity.
Qed.

Lemma map_seq_shift {A} (f g : nat -> A) (a len : nat) :
  (forall j, (j < len)%nat -> f (a + j)%nat = g j) ->
  map f (seq a len) = map g (seq 0 len).
Proof.
  intros Hfg. rewrite <- (Nat.add_0_r a) at 1. rewrite <- fmap_add_seq.
  change (map f (Nat.add a <$> seq 0 len)) with (map f (map (Nat.add a) (seq 0 len))).
  rewrite map_map. apply map_ext_in. intros j Hj. apply Hfg.
  apply in_seq in Hj. lia.
Qed.

(** [Buffer.alloc] with a buffer as fill: the byte at [j] is the byte of
    the fill at [j] modulo its length. *)
Lemma cycle_from (pat : Buffer) n : forall i,
  pat <> [] -> (i <= length pat)%nat ->
  Buf.cycle pat (drop i pat) n
  = map (fun j => nth (j mod length pat) pat x00) (seq i n).
Proof.
  induction n as [|n IH]; intros i Hpat Hi; [reflexivity|].
  cbn [Buf.cycle seq map].
  destruct (decide (i < length pat)%nat) as [Hlt|Hge].
  - destruct (lookup_lt_is_Some_2 pat i Hlt) as [x Hx].
    rewrite (drop_S _ _ _ Hx). rewrite IH by (auto; lia).
    rewrite Nat.mod_small by lia. f_equal.
    symmetry. now apply nth_lookup_Some.
  - rewrite drop_ge by lia.
    destruct pat as [|b pat'] eqn:Epat; [congruence|]. rewrite <- Epat in *.
    assert (Hi' : i = length pat) by lia. subst i.
    rewrite Nat.Div0.mod_same. rewrite Epat at 2. cbn [nth]. f_equal.
    assert (Hd : pat' = drop 1 pat) by (rewrite Epat; reflexivity).
    rewrite Hd, IH by (rewrite ?Epat; cbn; auto; lia).
    rewrite (map_seq_shift (fun j => nth (j mod length pat) pat x00)
               (fun j => nth ((1 + j) mod length pat) pat x00) 1 n) by reflexivity.
    rewrite (map_seq_shift (fun j => nth (j mod length pat) pat x00)
               (fun j => nth ((1 + j) mod length pat) pat x00) (S (length pat)) n);
      [reflexivity|].
    intros j _. f_equal.
    replace (S (length pat) + j)%nat with ((1 + j) + 1 * length pat)%nat by lia.
    apply Nat.Div0.mod_add.
Qed.

(** The buffers of the chunks of a repeated fill, taken together: the fill
    starts again at every chunk. *)
Lemma fill_of_cycle (fill : Buffer) size : forall fuel pos m,
  fill <> [] -> 0 <= pos <= size -> pos = Z.of_nat m * kMaxLength ->
  (File.depth size pos <= fuel)%nat ->
  fill_of (fun len _ => Buf.cycle fill fill (Z.to_nat len)) (chunks_from fuel size pos)
  = map (fun x => nth ((x mod Z.to_nat kMaxLength) mod length fill) fill x00)
        (seq (Z.to_nat pos) (Z.to_nat (size - pos))).
Proof.
  pose proof kMaxLength_pos as Hk.
  assert (Hchunk : forall pos m len, pos = Z.of_nat m * kMaxLength ->
            0 <= len <= kMaxLength ->
            Buf.cycle fill fill (Z.to_nat len)
            = map (fun x => nth ((x mod Z.to_nat kMaxLength) mod length fill) fill x00)
                  (seq (Z.to_nat pos) (Z.to_nat len)) \/ fill = []).
  { intros pos m len Hm Hlen. destruct fill as [|b fill'] eqn:E; [now right|left].
    rewrite <- E. assert (Hne : fill <> []) by (rewrite E; discriminate).
    pose proof (cycle_from fill (Z.to_nat len) 0 Hne ltac:(lia)) as Hc.
    rewrite drop_0 in Hc. rewrite Hc. symmetry. apply map_seq_shift.
    intros j Hj. do 2 f_equal.
    replace (Z.to_nat pos + j)%nat with (j + m * Z.to_nat kMaxLength)%nat by nia.
    rewrite Nat.Div0.mod_add. apply Nat.mod_small. lia. }
  induction fuel as [|fuel IH]; intros pos m Hfill Hpos Hm Hfuel.
  - unfold File.depth in Hfuel. lia.
  - cbn [chunks_from]. unfold fill_of in *.
    destruct (Z.leb_spec (size - pos) kMaxLength) as [Hle|Hgt].
    + cbn [flat_map fst snd]. rewrite app_nil_r.
      destruct (Hchunk pos m (size - pos) Hm ltac:(lia)); [assumption|contradiction].
    + cbn [flat_map fst snd].
      rewrite (IH (pos + kMaxLength) (S m)); [|assumption|lia|lia|].
      2:{ rewrite depth_step in Hfuel by lia. lia. }
      assert (Hkk : 0 <= kMaxLength <= kMaxLength) by (clear -Hk; lia).
      destruct (Hchunk pos m kMaxLength Hm Hkk) as [->|]; [|contradiction].
      rewrite <- map_app. f_equal.
      replace (Z.to_nat (size - pos))
        with (Z.to_nat kMaxLength + Z.to_nat (size - (pos + kMaxLength)))%nat by lia.
      rewrite seq_app. do 2 f_equal. lia.
Qed.

(** X2.  [byteArray], for a non-empty array and at least one pass over a
    session whose size is the size of its file, fills the file with the
    bytes of the array, reduced modulo 256, repeated in order, and the
    repetition starts again with the first byte at every multiple of
    [kMaxLength]: the byte at offset [x] is the entry
    [(x mod kMaxLength) mod length] of the array. *)
Theorem byteArray_restarts_at_chunks fileData passes data w c :
  Fs.content_of w (File.fd fileData) = Some c ->
  File.fileSize fileData = Z.of_nat (length c) ->
  data <> [] -> 1 <= default 1 passes ->
  exists w',
    File.byteArray fileData passes data w = (w', Ok tt)
    /\ Fs.content_of w' (File.fd fileData)
       = Some (restarting (Buf.from data) (length c))
    /\ stable w w' /\ drawn w' = drawn w.
Proof.
  intros Hc Hsize Hdata Hp. pose proof kMaxLength_pos as Hk.
  assert (Hfill : Buf.from data <> [])
    by (destruct data; [congruence|discriminate]).
  assert (Hpat : pure_pattern
            (fun bufferSize _ => Buf.alloc_from bufferSize (Buf.from data))
            (fun len _ => Buf.cycle (Buf.from data) (Buf.from data) (Z.to_nat len))).
  { intros len pos w0 Hlen Hpos. rewrite alloc_from_Ok by assumption.
    split; [reflexivity|]. rewrite cycle_length by assumption. lia. }
  destruct (pure_passes (File.fd fileData) (File.fileSize fileData) _ _
              (Z.to_nat (default 1 passes)) 0 w c Hpat Hc ltac:(lia))
    as (w' & Hrun & Hc' & _ & Hst & Hdr).
  exists w'. split; [exact Hrun|]. split; [|auto].
  rewrite Hc'. destruct (Z.to_nat (default 1 passes)) eqn:E; [lia|].
  rewrite Hsize, Nat2Z.id, drop_all, app_nil_r. unfold chunks.
  rewrite (fill_of_cycle _ _ _ 0 0%nat) by (auto; lia).
  unfold restarting. rewrite Z.sub_0_r, Nat2Z.id. reflexivity.
Qed.

Lemma Z_of_byte_of_Z z : Buf.Z_of_byte (Buf.byte_of_Z z) = z mod 256.
Proof.
  unfold Buf.Z_of_byte, Buf.byte_of_Z.
  pose proof (Z.mod_pos_bound z 256 ltac:(lia)) as Hm.
  destruct (Byte.of_N (Z.to_N (z mod 256))) as [b|] eqn:E.
  - apply Byte.to_of_N in E. rewrite E. lia.
  - apply Byte.of_N_None_iff in E. lia.
Qed.

(** X3.  With at least one pass over a session whose size is the size of
    its file, [zeros] leaves every byte 0x00, [ones] leaves every byte 0xFF
    and [byte] leaves every byte equal to its argument modulo 256; none of
    them draws entropy or changes anything but the content. *)
Theorem constant_passes_fill fileData o w c :
  Fs.content_of w (File.fd fileData) = Some c ->
  File.fileSize fileData = Z.of_nat (length c) ->
  1 <= File.passes_of o ->
  (exists w',
     File.zeros fileData o w = (w', Ok tt)
     /\ Fs.content_of w' (File.fd fileData) = Some (replicate (length c) x00)
     /\ stable w w' /\ drawn w' = drawn w)
  /\ (exists w',
        File.ones fileData o w = (w', Ok tt)
        /\ Fs.content_of w' (File.fd fileData) = Some (replicate (length c) xff)
        /\ stable w w' /\ drawn w' = drawn w)
  /\ forall data, exists w' b,
       File.byte fileData (File.passes o) data w = (w', Ok tt)
       /\ Buf.Z_of_byte b = data mod 256
       /\ Fs.content_of w' (File.fd fileData) = Some (replicate (length c) b)
       /\ stable w w' /\ drawn w' = drawn w.
Proof.
  intros Hc Hsize Hp.
  assert (Hall : forall v, exists w',
            File.for_passes (File.passes_of o)
              (fun _ => File.writeExtended (File.fd fileData) (File.fileSize fileData) 0
                          (fun bufferSize _ => Buf.alloc bufferSize v)) w = (w', Ok tt)
            /\ Fs.content_of w' (File.fd fileData)
               = Some (replicate (length c) (Buf.byte_of_Z v))
            /\ stable w w' /\ drawn w' = drawn w).
  { intros v.
    destruct (alloc_passes (File.fd fileData) (File.fileSize fileData) v
                (Z.to_nat (File.passes_of o)) 0 w c Hc ltac:(lia))
      as (w' & Hrun & Hc' & _ & Hst & Hdr).
    exists w'. split; [exact Hrun|]. split; [|auto].
    rewrite Hc'. destruct (Z.to_nat (File.passes_of o)) eqn:E; [lia|].
    rewrite Hsize, Nat2Z.id, drop_all, app_nil_r. reflexivity. }
  split; [exact (Hall 0)|]. split; [exact (Hall 255)|].
  intros data. destruct (Hall data) as (w' & Hrun & Hc' & Hst & Hdr).
  exists w', (Buf.byte_of_Z data). split; [exact Hrun|].
  split; [apply Z_of_byte_of_Z|]. auto.
Qed.

Lemma write_at_extend (a c data : Buffer) (pos : nat) :
  length a = pos ->
  Fs.write_at (a ++ drop pos c) pos data
  = (a ++ data) ++ drop (pos + length data) c.
Proof.
  intros Ha. unfold Fs.write_at.
  rewrite take_app_length' by (now rewrite Ha).
  rewrite length_app, Ha, length_drop.
  replace (pos - (pos + (length c - pos)))%nat with 0%nat by lia.
  rewrite drop_app, Ha, (drop_ge a) by lia.
  rewrite drop_drop. cbn [replicate app].
  replace (pos + (pos + length data - pos))%nat with (pos + length data)%nat by lia.
  now rewrite <- app_assoc.
Qed.

(** One random pass: the content afterwards. *)
Lemma random_pass_content fd size w c :
  Fs.content_of w fd = Some c -> 0 <= size ->
  exists w',
    File.writeExtended fd size 0
      (fun bufferSize _ => Crypto.randomBytes bufferSize) w = (w', Ok tt)
    /\ Fs.content_of w' fd
       = Some (entropy_bytes (entropy w) (drawn w) (Z.to_nat size)
               ++ drop (Z.to_nat size) c)
    /\ stable w w' /\ drawn w' = (drawn w + Z.to_nat size)%nat.
Proof.
  intros Hc Hsize. pose proof kMaxLength_pos as Hk.
  set (I := fun (pos : Z) (w1 : World) =>
    Fs.content_of w1 fd
    = Some (entropy_bytes (entropy w) (drawn w) (Z.to_nat pos) ++ drop (Z.to_nat pos) c)
    /\ stable w w1 /\ drawn w1 = (drawn w + Z.to_nat pos)%nat).
  destruct (writeExtended_rule I fd size
              (fun bufferSize _ => Crypto.randomBytes bufferSize) w)
    as (w' & Hrun & Hc' & Hst & Hdr); try assumption.
  - intros pos w1 (Hc1 & Hst1 & Hdr1) Hpos.
    set (len := Z.min (size - pos) kMaxLength).
    assert (Hlen : 0 <= len <= kMaxLength) by lia.
    set (data := entropy_bytes (entropy w) (drawn w + Z.to_nat pos) (Z.to_nat len)).
    set (w1' := with_drawn (drawn w1 + Z.to_nat len) (log (SysRandomBytes len) w1)).
    assert (Hent : entropy w1 = entropy w) by (destruct Hst1 as (_ & _ & He & _); exact He).
    assert (Hr : Crypto.randomBytes len w1 = (w1', Ok data)).
    { rewrite randomBytes_Ok by lia. unfold w1', data, entropy_bytes.
      now rewrite Hent, Hdr1. }
    assert (Hdl : length data = Z.to_nat len)
      by (unfold data, entropy_bytes; now rewrite length_map, length_seq).
    destruct (write_Ok fd data len pos w1' _ Hc1)
      as (w2 & Hw & Hc2 & _ & Hst2 & Hdr2); [lia|lia|].
    exists data, w1', w2. split; [assumption|]. split; [assumption|].
    split; [|split].
    + rewrite Hc2, write_at_extend
        by (unfold entropy_bytes; now rewrite length_map, length_seq).
      rewrite Hdl. unfold data, entropy_bytes. rewrite <- map_app, <- seq_app.
      replace (Z.to_nat (pos + len)) with (Z.to_nat pos + Z.to_nat len)%nat by lia.
      reflexivity.
    + eapply stable_trans; [exact Hst1|].
      eapply stable_trans; [|exact Hst2]. unfold stable, w1'. cbn. auto 10.
    + rewrite Hdr2. unfold w1'. cbn [drawn with_drawn]. lia.
  - unfold I. rewrite drop_0. repeat split; auto; cbn; lia.
  - exists w'. auto.
Qed.

(** [n] random passes over a file of [size] bytes. *)
Lemma random_passes fd size n : forall i w c,
  Fs.content_of w fd = Some c -> size = Z.of_nat (length c) ->
  exists w',
    File.for_loop n i
      (fun _ => File.writeExtended fd size 0
                  (fun bufferSize _ => Crypto.randomBytes bufferSize)) w = (w', Ok tt)
    /\ Fs.content_of w' fd
       = Some (match n with
               | O => c
               | S m => entropy_bytes (entropy w) (drawn w + m * length c) (length c)
               end)
    /\ stable w w' /\ drawn w' = (drawn w + n * length c)%nat.
Proof.
  induction n as [|n IH]; intros i w c Hc Hsize.
  - exists w. cbn. auto using stable_refl.
  - destruct (random_pass_content fd size w c Hc ltac:(lia))
      as (w1 & Hrun & Hc1 & Hst1 & Hdr1).
    rewrite Hsize, Nat2Z.id, drop_all, app_nil_r in Hc1.
    rewrite Hsize, Nat2Z.id in Hdr1.
    assert (Hent : entropy w1 = entropy w) by (destruct Hst1 as (_ & _ & He & _); exact He).
    destruct (IH (i + 1) w1 _ Hc1) as (w2 & Hrun2 & Hc2 & Hst2 & Hdr2).
    { unfold entropy_bytes. now rewrite length_map, length_seq. }
    exists w2. cbn [File.for_loop]. rewrite (bind_Ok _ _ _ _ _ Hrun).
    split; [assumption|].
    assert (Hl : length (entropy_bytes (entropy w) (drawn w) (length c)) = length c)
      by (unfold entropy_bytes; now rewrite length_map, length_seq).
    rewrite Hl in *.
    split; [|split; [eapply stable_trans; eauto|lia]].
    rewrite Hc2. destruct n; [now rewrite Nat.mul_0_l, Nat.add_0_r|].
    rewrite Hent, Hdr1. do 2 f_equal. lia.
Qed.

(** X4.  [random], with [n >= 1] passes over a session whose size is the
    size of its file, leaves in the file the bytes of the last pass: the
    entropy from position [drawn + (n - 1) * size] on; it has then drawn
    [n * size] bytes, whatever the size of the chunks. *)
Theorem random_leaves_last_pass fileData o w c :
  Fs.content_of w (File.fd fileData) = Some c ->
  File.fileSize fileData = Z.of_nat (length c) ->
  1 <= File.passes_of o ->
  exists w',
    File.random fileData o w = (w', Ok tt)
    /\ Fs.content_of w' (File.fd fileData)
       = Some (entropy_bytes (entropy w)
                 (drawn w + (Z.to_nat (File.passes_of o) - 1) * length c) (length c))
    /\ drawn w' = (drawn w + Z.to_nat (File.passes_of o) * length c)%nat
    /\ stable w w'.
Proof.
  intros Hc Hsize Hp.
  destruct (random_passes (File.fd fileData) (File.fileSize fileData)
              (Z.to_nat (File.passes_of o)) 0 w c Hc Hsize)
    as (w' & Hrun & Hc' & Hst & Hdr).
  exists w'. split; [exact Hrun|]. split; [|auto].
  rewrite Hc'. destruct (Z.to_nat (File.passes_of o)) eqn:E; [lia|].
  do 3 f_equal. lia.
Qed.

(** X5.  With [passes <= 0] no pattern writes anything: [zeros], [ones],
    [random], [complementary], [byte], [byteArray] and [truncate] return
    and leave the world as it is; [randomByte] still draws its byte, and
    does nothing else. *)
Theorem no_pass_no_write fileData o w :
  File.passes_of o <= 0 ->
  File.zeros fileData o w = (w, Ok tt)
  /\ File.ones fileData o w = (w, Ok tt)
  /\ File.random fileData o w = (w, Ok tt)
  /\ File.complementary fileData o w = (w, Ok tt)
  /\ (forall data, File.byte fileData (File.passes o) data w = (w, Ok tt))
  /\ (forall data, File.byteArray fileData (File.passes o) data w = (w, Ok tt))
  /\ File.truncate fileData o w = (w, Ok tt)
  /\ File.randomByte fileData o w
     = (with_drawn (drawn w + 1) (log (SysRandomBytes 1) w), Ok tt).
Proof.
  intros Hp.
  assert (Hn : Z.to_nat (File.passes_of o) = 0%nat) by lia.
  unfold File.zeros, File.ones, File.random, File.complementary, File.byte,
    File.byteArray, File.truncate, File.randomByte, File.for_passes.
  change (default 1 (File.passes o)) with (File.passes_of o).
  rewrite Hn. repeat split; intros; reflexivity.
Qed.

Lemma ftruncate_runs fd len w ino c :
  fdt w !! fd = Some ino -> inodes w !! ino = Some c -> 0 <= len ->
  Fs.ftruncate fd len w
  = (with_inodes (insert ino (Fs.resize c (Z.to_nat len))) (log (SysFtruncate fd len) w),
     Ok tt).
Proof.
  intros Hfd Hc Hlen. unfold Fs.ftruncate. rewrite Hfd, Hc.
  destruct (Z.ltb_spec len 0); [lia|reflexivity].
Qed.

(** The loop of [truncate] on a file of [size] bytes: what remains is a
    prefix of the content, shorter than the content when a pass has run on
    content that is not empty, and of at most [(3/4)^n] of its length when
    the file has fewer than [2^53 / 3] bytes. *)
Lemma truncate_loop_prefix fd ino n : forall size w c,
  fdt w !! fd = Some ino -> inodes w !! ino = Some c ->
  size = Z.of_nat (length c) ->
  exists w' final,
    File.truncate_loop n fd size w = (w', Ok final)
    /\ (0 <= final <= size /\ (n <> 0%nat -> 0 < size -> final < size))
    /\ (3 * size < 2 ^ 53 -> 4 ^ Z.of_nat n * final <= 3 ^ Z.of_nat n * size)
    /\ inodes w' = <[ino := take (Z.to_nat final) c]> (inodes w)
    /\ names w' = names w /\ fdt w' = fdt w /\ emitted w' = emitted w
    /\ drawn w' = drawn w /\ entropy w' = entropy w.
Proof.
  induction n as [|n IH]; intros size w c Hfd Hc Hsize.
  - exists w, size. split; [reflexivity|].
    split; [split; [lia|congruence]|]. split; [intros _; lia|].
    rewrite Hsize, Nat2Z.id, firstn_all, insert_id by exact Hc. auto 10.
  - destruct (random_num_range w) as (num & Hr & Hnum).
    destruct (truncated_size_decreases num size Hnum ltac:(lia)) as ((H0 & Hle) & Hlt).
    pose proof (truncated_size_quarters num size Hnum ltac:(lia)) as Hquarters.
    set (s := File.truncated_size num size) in *.
    set (w0 := with_prng_drawn (S (prng_drawn w)) w) in *.
    pose proof (ftruncate_runs fd s w0 ino c Hfd Hc H0) as Hf.
    assert (Hres : Fs.resize c (Z.to_nat s) = take (Z.to_nat s) c).
    { unfold Fs.resize. replace (Z.to_nat s - length c)%nat with 0%nat by lia.
      apply app_nil_r. }
    rewrite Hres in Hf.
    set (w1 := with_inodes (insert ino (take (Z.to_nat s) c)) (log (SysFtruncate fd s) w0))
      in *.
    destruct (IH s w1 (take (Z.to_nat s) c))
      as (w' & final & Hrun & (Hfin & _) & Hgeo & Hi' & Hrest).
    { exact Hfd. }
    { cbn. apply lookup_insert_eq. }
    { rewrite length_take. lia. }
    exists w', final. cbn [File.truncate_loop].
    rewrite (bind_Ok _ _ _ _ _ Hr). fold s. rewrite (bind_Ok _ _ _ _ _ Hf).
    split; [exact Hrun|]. split; [split; [lia|intros _ Hpos; specialize (Hlt Hpos); lia]|].
    split.
    { intros Hrange. destruct (Hquarters Hrange) as (_ & Hhi).
      specialize (Hgeo ltac:(lia)).
      rewrite Nat2Z.inj_succ, !Z.pow_succ_r by lia.
      assert (0 < 4 ^ Z.of_nat n) by (apply Z.pow_pos_nonneg; lia).
      assert (0 < 3 ^ Z.of_nat n) by (apply Z.pow_pos_nonneg; lia).
      nia. }
    split; [|exact Hrest].
    rewrite Hi'. cbn [inodes w1 with_inodes log w0 with_prng_drawn].
    rewrite insert_insert_eq, take_take.
    replace (Z.to_nat final `min` Z.to_nat s)%nat with (Z.to_nat final) by lia.
    reflexivity.
Qed.

(** X6.  [truncate] on a session whose size is the size of its file keeps
    a prefix of the content and cuts the rest; with at least one pass on
    content that is not empty the prefix is shorter than the content, and
    on a file of fewer than [2^53 / 3] bytes at most [(3/4)^n] of the
    length is left after [n] passes.  It changes nothing else: no name, no
    descriptor, no event, no entropy. *)
Theorem truncate_keeps_a_prefix fileData o w c :
  Fs.content_of w (File.fd fileData) = Some c ->
  File.fileSize fileData = Z.of_nat (length c) ->
  exists w' kept,
    File.truncate fileData o w = (w', Ok tt)
    /\ Fs.content_of w' (File.fd fileData) = Some (take kept c)
    /\ (kept <= length c)%nat
    /\ (1 <= File.passes_of o -> c <> [] -> (kept < length c)%nat)
    /\ (3 * Z.of_nat (length c) < 2 ^ 53 ->
        4 ^ Z.of_nat (Z.to_nat (File.passes_of o)) * Z.of_nat kept
        <= 3 ^ Z.of_nat (Z.to_nat (File.passes_of o)) * Z.of_nat (length c))
    /\ names w' = names w /\ fdt w' = fdt w /\ emitted w' = emitted w
    /\ drawn w' = drawn w.
Proof.
  intros Hc Hsize. unfold Fs.content_of in Hc.
  destruct (fdt w !! File.fd fileData) as [ino|] eqn:Hfd; [|discriminate].
  destruct (truncate_loop_prefix (File.fd fileData) ino (Z.to_nat (File.passes_of o))
              (File.fileSize fileData) w c Hfd Hc Hsize)
    as (w' & final & Hrun & (Hfin & Hcut) & Hgeo & Hi' & Hn' & Hf' & He' & Hd' & _).
  exists w', (Z.to_nat final). unfold File.truncate.
  rewrite (bind_Ok _ _ _ _ _ Hrun). split; [reflexivity|]. split.
  { unfold Fs.content_of. rewrite Hf', Hfd, Hi'. apply lookup_insert_eq. }
  split; [lia|]. split.
  { intros Hp Hne. assert (0 < length c)%nat by (destruct c; [congruence|cbn; lia]).
    specialize (Hcut ltac:(lia) ltac:(lia)). lia. }
  split; [|auto].
  intros Hrange. rewrite (Z2Nat.id final) by lia. rewrite <- Hsize.
  apply Hgeo. rewrite Hsize. exact Hrange.
Qed.

(** X7.  [truncate] does not update the size of the session: a pass that
    follows it on the same session writes the original number of bytes,
    so [zeros] after [truncate] leaves the file as long as it was before
    [truncate], filled with 0x00. *)
Theorem pass_after_truncate_restores_length fileData o w c :
  Fs.content_of w (File.fd fileData) = Some c ->
  File.fileSize fileData = Z.of_nat (length c) ->
  exists w1 w2 kept,
    File.truncate fileData o w = (w1, Ok tt)
    /\ Fs.content_of w1 (File.fd fileData) = Some (take kept c)
    /\ File.zeros fileData File.no_options w1 = (w2, Ok tt)
    /\ Fs.content_of w2 (File.fd fileData) = Some (replicate (length c) x00).
Proof.
  intros Hc Hsize. pose proof Hc as Hc0. unfold Fs.content_of in Hc.
  destruct (fdt w !! File.fd fileData) as [ino|] eqn:Hfd; [|discriminate].
  destruct (truncate_loop_prefix (File.fd fileData) ino (Z.to_nat (File.passes_of o))
              (File.fileSize fileData) w c Hfd Hc Hsize)
    as (w1 & final & Hrun & Hfin & _ & Hi' & _ & Hf' & _).
  assert (Hc1 : Fs.content_of w1 (File.fd fileData) = Some (take (Z.to_nat final) c)).
  { unfold Fs.content_of. rewrite Hf', Hfd, Hi'. apply lookup_insert_eq. }
  destruct (alloc_pass (File.fd fileData) (File.fileSize fileData) 0 w1 _ Hc1 ltac:(lia))
    as (w2 & Hz & Hc2 & _).
  exists w1, w2, (Z.to_nat final). unfold File.truncate, File.zeros.
  rewrite (bind_Ok _ _ _ _ _ Hrun), for_passes_default, (bind_Ok _ _ _ _ _ Hz).
  split; [reflexivity|]. split; [exact Hc1|]. split; [reflexivity|].
  rewrite Hc2, Hsize, Nat2Z.id.
  rewrite drop_ge by (rewrite length_take; lia).
  now rewrite app_nil_r.
Qed.

(** [n] complement passes. *)
Lemma complement_passes fd size n : forall i w c,
  Fs.content_of w fd = Some c -> size = Z.of_nat (length c) ->
  exists w',
    File.for_loop n i
      (fun _ => File.writeExtended fd size 0
         (fun bufferSize pos =>
            let* buffer := Buf.alloc bufferSize 0 in
            let* data := Fs.read fd buffer 0 bufferSize pos in
            ret (map File.complement data))) w = (w', Ok tt)
    /\ Fs.content_of w' fd = Some (if Nat.even n then c else map File.complement c)
    /\ stable w w' /\ drawn w' = drawn w.
Proof.
  induction n as [|n IH]; intros i w c Hc Hsize.
  - exists w. cbn. auto using stable_refl.
  - destruct (complement_pass fd size w c Hc Hsize) as (w1 & Hrun & Hc1 & _ & Hst1 & Hdr1).
    destruct (IH (i + 1) w1 _ Hc1) as (w2 & Hrun2 & Hc2 & Hst2 & Hdr2).
    { now rewrite length_map. }
    exists w2. cbn [File.for_loop]. rewrite (bind_Ok _ _ _ _ _ Hrun).
    split; [assumption|]. split; [|split; [eapply stable_trans; eauto|congruence]].
    rewrite Hc2, Nat.even_succ, <- Nat.negb_even.
    destruct (Nat.even n); cbn [negb]; [reflexivity|].
    f_equal. rewrite <- list_fmap_compose.
    rewrite <- (list_fmap_id c) at 2. apply list_fmap_ext.
    intros j b _. apply complement_involutive.
Qed.

(** X8.  [complementary] with [n] passes over a session whose size is the
    size of its file: an even number of passes leaves the content as it
    was, an odd number leaves its byte-wise complement. *)
Theorem complementary_parity fileData o w c :
  Fs.content_of w (File.fd fileData) = Some c ->
  File.fileSize fileData = Z.of_nat (length c) ->
  exists w',
    File.complementary fileData o w = (w', Ok tt)
    /\ Fs.content_of w' (File.fd fileData)
       = Some (if Nat.even (Z.to_nat (File.passes_of o)) then c
               else map File.complement c)
    /\ stable w w' /\ drawn w' = drawn w.
Proof.
  intros Hc Hsize.
  destruct (complement_passes (File.fd fileData) (File.fileSize fileData)
              (Z.to_nat (File.passes_of o)) 0 w c Hc Hsize)
    as (w' & Hrun & Hc' & Hst & Hdr).
  exists w'. split; [exact Hrun|]. split; [|auto].
  exact Hc'.
Qed.

End Contents.

(** ** Sessions: [end] and [rename] *)

Section Sessions.
Context `{Platform}.

Lemma write_closed fd data len pos w :
  fdt w !! fd = None -> 0 <= pos -> len = Z.of_nat (length data) ->
  Fs.write fd data 0 len pos w = (log (SysWrite fd pos data) w, Throw EBADF).
Proof.
  intros Hfd Hpos ->. unfold Fs.write.
  replace ((0 <? 0) || (Z.of_nat (length data) <? 0) || (pos <? 0)
           || (Z.of_nat (length data) <? 0 + Z.of_nat (length data))) with false
    by (symmetry; repeat (apply orb_false_intro); apply Z.ltb_ge; lia).
  rewrite Hfd. simpl drop. now rewrite Nat2Z.id, firstn_all.
Qed.

Lemma bind_Throw {A B} (m : IO A) (k : A -> IO B) w w1 e :
  m w = (w1, Throw e) -> bind m k w = (w1, Throw e).
Proof. intros E. unfold bind. now rewrite E. Qed.

(** X9.  [end] ends the session for good: after it the descriptor of the
    session is closed, so a second [end] fails with [EBADF] at its [close],
    unlinks nothing and emits no second event, and a pass of [zeros] fails
    with [EBADF] at its first write and changes no content. *)
Theorem end_invalidates_session fileData w ino ino' :
  fdt w !! File.fd fileData = Some ino ->
  names w !! File.fileName fileData = Some (File ino') ->
  0 <= File.fileSize fileData ->
  exists w1,
    File.end_ fileData w = (w1, Ok tt)
    /\ fdt w1 !! File.fd fileData = None
    /\ (exists w2,
          File.end_ fileData w1 = (w2, Throw EBADF)
          /\ syscalls w2 = syscalls w1 ++ [SysClose (File.fd fileData)]
          /\ names w2 = names w1 /\ emitted w2 = emitted w1)
    /\ forall o, 1 <= File.passes_of o ->
         exists w2 data,
           File.zeros fileData o w1 = (w2, Throw EBADF)
           /\ syscalls w2 = syscalls w1 ++ [SysWrite (File.fd fileData) 0 data]
           /\ inodes w2 = inodes w1 /\ names w2 = names w1.
Proof.
  intros Hfd Hn Hsize. pose proof kMaxLength_pos as Hk.
  eexists. split; [apply (end_Ok fileData w ino ino' Hfd Hn)|].
  set (w1 := log_emit _ _).
  assert (Hclosed : fdt w1 !! File.fd fileData = None) by (cbn; apply lookup_delete_eq).
  split; [exact Hclosed|]. split.
  - eexists. split.
    + unfold File.end_. apply bind_Throw. unfold Fs.close. rewrite Hclosed. reflexivity.
    + cbn. auto.
  - intros o Hp. unfold File.zeros, File.for_passes.
    destruct (Z.to_nat (File.passes_of o)) as [|n] eqn:E; [lia|].
    cbn [File.for_loop]. unfold File.writeExtended, File.depth.
    cbn [File.writeExtended_rec]. rewrite Z.sub_0_r.
    destruct (Z.leb_spec (File.fileSize fileData) kMaxLength) as [Hle|Hgt].
    + eexists _, _. split.
      * apply bind_Throw.
        rewrite (bind_Ok _ _ _ _ _ (alloc_Ok (File.fileSize fileData) 0 w1 (conj Hsize Hle))).
        apply bind_Throw. apply write_closed; [exact Hclosed|lia|].
        rewrite length_replicate. lia.
      * cbn. auto.
    + eexists _, _. split.
      * apply bind_Throw.
        rewrite (bind_Ok _ _ _ _ _ (alloc_Ok kMaxLength 0 w1 (conj (Z.lt_le_incl _ _ Hk) (Z.le_refl _)))).
        apply bind_Throw. apply write_closed; [exact Hclosed|lia|].
        rewrite length_replicate. lia.
      * cbn. auto.
Qed.

(** What [rename] does to the world. *)
Lemma rename_runs fileData w ino c :
  fdt w !! File.fd fileData = Some ino ->
  names w !! File.fileName fileData = Some (File ino) ->
  inodes w !! ino = Some c ->
  names w !! path_join (path_dirname (File.fileName fileData))
                (File.new_name (map (entropy w) (seq (drawn w) 9)))
  <> Some Dir ->
  exists w' fd',
    File.rename fileData w
    = (w', Ok (File.mkFileData fd'
                 (path_join (path_dirname (File.fileName fileData))
                    (File.new_name (map (entropy w) (seq (drawn w) 9))))
                 (Z.of_nat (length c))))
    /\ fd' = fresh (dom (delete (File.fd fileData) (fdt w)))
    /\ names w'
       = <[path_join (path_dirname (File.fileName fileData))
             (File.new_name (map (entropy w) (seq (drawn w) 9))) := File ino]>
           (delete (File.fileName fileData) (names w))
    /\ fdt w' = <[fd' := ino]> (delete (File.fd fileData) (fdt w))
    /\ inodes w' = inodes w /\ entropy w' = entropy w
    /\ drawn w' = (drawn w + 9)%nat /\ emitted w' = emitted w.
Proof.
  intros Hfd Hname Hino Hfree.
  set (newName := File.new_name (map (entropy w) (seq (drawn w) 9))) in *.
  set (newPath := path_join (path_dirname (File.fileName fileData)) newName) in *.
  set (w1 := with_fdt (delete (File.fd fileData)) (log (SysClose (File.fd fileData)) w)).
  set (w2 := with_drawn (drawn w1 + Z.to_nat 9) (log (SysRandomBytes 9) w1)).
  set (w3 := with_names (fun ns => <[newPath := File ino]> (delete (File.fileName fileData) ns))
               (log (SysRename (File.fileName fileData) newPath) w2)).
  set (fd' := fresh (dom (fdt w3))).
  assert (Hinit : File.init newPath w3
            = (with_fdt (insert fd' ino)
                 (log (SysOpen newPath fd') (log (SysStat newPath) w3)),
               Ok (File.mkFileData fd' newPath (Z.of_nat (length c))))).
  { apply (init_Ok newPath w3 ino c); [|exact Hino].
    cbn [names w3 with_names log w2 with_drawn w1 with_fdt]. apply lookup_insert_eq. }
  eexists _, fd'. split.
  { unfold File.rename.
    rewrite (bind_Ok _ _ _ _ _ (close_Ok _ _ _ Hfd)). fold w1.
    erewrite bind_Ok by (apply randomBytes_Ok; lia).
    fold w2. change (entropy w1) with (entropy w). change (drawn w1) with (drawn w).
    change (Z.to_nat 9) with 9%nat. fold newName. fold newPath.
    rewrite (bind_Ok _ _ _ _ _ (fs_rename_Ok _ newPath w2 ino Hname Hfree)).
    fold w3. exact Hinit. }
  cbn. repeat split; reflexivity.
Qed.

(** X10.  [rename] followed by [end] on the session it returns: the file is
    known under neither its old nor its new name, its descriptors are
    closed, its content is untouched, and the one [removed] event carries
    the new, random path. *)
Theorem rename_then_end_leaves_no_name fileData w ino c :
  fdt w !! File.fd fileData = Some ino ->
  names w !! File.fileName fileData = Some (File ino) ->
  inodes w !! ino = Some c ->
  names w !! path_join (path_dirname (File.fileName fileData))
                (File.new_name (map (entropy w) (seq (drawn w) 9)))
  <> Some Dir ->
  exists w' newPath,
    (let* renamed := File.rename fileData in File.end_ renamed) w = (w', Ok tt)
    /\ newPath = path_join (path_dirname (File.fileName fileData))
                   (File.new_name (map (entropy w) (seq (drawn w) 9)))
    /\ names w' !! File.fileName fileData = None
    /\ names w' !! newPath = None
    /\ names w' = delete newPath (delete (File.fileName fileData) (names w))
    /\ fdt w' = delete (File.fd fileData) (fdt w)
    /\ inodes w' = inodes w
    /\ emitted w' = emitted w ++ [(File.eventEmitter, "removed"%string, newPath)].
Proof.
  intros Hfd Hname Hino Hfree.
  destruct (rename_runs fileData w ino c Hfd Hname Hino Hfree)
    as (w1 & fd' & Hrun & Hfd' & Hn1 & Hf1 & Hi1 & _ & _ & Hem1).
  set (newPath := path_join (path_dirname (File.fileName fileData))
                    (File.new_name (map (entropy w) (seq (drawn w) 9)))) in *.
  set (renamed := File.mkFileData fd' newPath (Z.of_nat (length c))) in *.
  pose proof (end_Ok renamed w1 ino ino) as Hend.
  rewrite Hf1, Hn1 in Hend. cbn [File.fd File.fileName renamed] in Hend.
  rewrite !lookup_insert_eq in Hend. specialize (Hend eq_refl eq_refl).
  eexists _, newPath. rewrite (bind_Ok _ _ _ _ _ Hrun). split; [exact Hend|].
  split; [reflexivity|].
  cbn [names fdt inodes emitted log_emit with_names with_fdt log].
  rewrite Hn1, Hf1, Hi1, Hem1, delete_insert_eq, delete_insert_eq.
  split.
  { destruct (decide (newPath = File.fileName fileData)) as [->|Hne].
    - apply lookup_delete_eq.
    - rewrite lookup_delete_ne by exact Hne. apply lookup_delete_eq. }
  split; [apply lookup_delete_eq|]. split; [reflexivity|].
  split; [|auto].
  rewrite Hfd'. apply delete_id, not_elem_of_dom, is_fresh.
Qed.

End Sessions.

(** ** The catalogue of standards *)

Section Catalogue.
Context `{Platform}.

Lemma content_inode w fd ino c :
  fdt w !! fd = Some ino -> Fs.content_of w fd = Some c -> inodes w !! ino = Some c.
Proof. unfold Fs.content_of. now intros ->. Qed.

Lemma overwrites_with_intro (k : File.FileData -> IO unit) ps ps' :
  (forall fileData, 0 <= File.fileSize fileData -> finishes fileData (k fileData) ps') ->
  ps' = ps ->
  overwrites_with (fun path => bind (File.init path) k) ps.
Proof.
  intros Hk <- path w ino c Hn Hi.
  destruct (standard_runs path w ino c k ps' Hn Hi)
    as (w' & calls & Hrun & Hl & -> & _ & Hn' & Hf' & Hem').
  { apply Hk. cbn. lia. }
  exists w'. auto.
Qed.

(** X11.  The standards of a single pass: on a file each of them returns
    after [stat] and [open], the calls of its pass, [close] and [unlink],
    and one [removed] event; [randomData] is one random pass, [zeros] one
    pass of 0x00, [ones] one pass of 0xFF. *)
Theorem single_pass_standards :
  overwrites_with Standards.randomData_unlink [Random]
  /\ overwrites_with Standards.zeros_unlink [Const x00]
  /\ overwrites_with Standards.ones_unlink [Const xff].
Proof.
  repeat split;
    (eapply overwrites_with_intro;
     [ intros fileData Hsize;
       repeat (first
         [ apply finishes_end
         | eapply finishes_seq;
           [ first
               [ apply performs_random; exact Hsize
               | apply performs_zeros; exact Hsize
               | apply performs_ones; exact Hsize ] | ] ])
     | reflexivity ]).
Qed.

(** X12.  The standards of several passes: on a file each of them returns
    after [stat] and [open], the calls of its passes in this order,
    [close] and [unlink], and one [removed] event; [GOST_R50739-95] is
    zeros then random, [VSITR] zeros and ones three times then random,
    [schneier] zeros, ones and five random passes, [pfitzner] 33 random
    passes. *)
Theorem multi_pass_standards :
  overwrites_with Standards.GOST_R50739_95_unlink [Const x00; Random]
  /\ overwrites_with Standards.VSITR_unlink
       [Const x00; Const xff; Const x00; Const xff; Const x00; Const xff; Random]
  /\ overwrites_with Standards.schneier_unlink
       [Const x00; Const xff; Random; Random; Random; Random; Random]
  /\ overwrites_with Standards.pfitzner_unlink (replicate 33 Random).
Proof.
  repeat split;
    (eapply overwrites_with_intro;
     [ intros fileData Hsize;
       repeat (first
         [ apply finishes_end
         | eapply finishes_seq;
           [ first
               [ apply performs_random; exact Hsize
               | apply performs_zeros; exact Hsize
               | apply performs_ones; exact Hsize ] | ] ])
     | reflexivity ]).
Qed.

(** X13.  [AR380-19] on a file of content [c]: a random pass, one more
    random byte [b], and the complement; when the file is unlinked every
    byte of its content is the complement of [b], the byte drawn after the
    random pass, and [length c + 1] bytes of entropy have been drawn. *)
Theorem AR380_19_leaves_complement path w ino c :
  names w !! path = Some (File ino) ->
  inodes w !! ino = Some c ->
  exists w' b,
    Standards.AR380_19_unlink path w = (w', Ok tt)
    /\ b = entropy w (drawn w + length c)
    /\ inodes w' !! ino = Some (replicate (length c) (File.complement b))
    /\ drawn w' = (drawn w + length c + 1)%nat
    /\ names w' = delete path (names w)
    /\ fdt w' = fdt w.
Proof.
  intros Hn Hi.
  destruct (init_opens path w ino c Hn Hi)
    as (w1 & Hinit & _ & Hf1 & Hn1 & He1 & Hd1 & _ & Hc1).
  set (fd := fresh (dom (fdt w))) in *.
  set (size := Z.of_nat (length c)) in *.
  destruct (random_pass_content fd size w1 c Hc1 ltac:(lia))
    as (w2 & Hr2 & Hc2 & Hst2 & Hd2).
  unfold size in Hc2, Hd2. rewrite Nat2Z.id, drop_all, app_nil_r in Hc2.
  rewrite Nat2Z.id in Hd2.
  assert (He2 : entropy w2 = entropy w)
    by (destruct Hst2 as (_ & _ & He & _); congruence).
  set (w2' := with_drawn (drawn w2 + 1) (log (SysRandomBytes 1) w2)).
  set (b := entropy w (drawn w + length c)%nat).
  assert (Hb : Crypto.randomBytes 1 w2 = (w2', Ok [b])).
  { rewrite randomBytes_Ok by lia. unfold w2', b.
    cbn [Z.to_nat Pos.to_nat Pos.iter_op seq map]. now rewrite He2, Hd2, Hd1. }
  destruct (alloc_pass fd size (Buf.Z_of_byte b) w2' _ Hc2 ltac:(lia))
    as (w3 & Hr3 & Hc3 & _ & Hst3 & Hd3).
  rewrite byte_of_Z_of_byte in Hc3. unfold size in Hc3.
  rewrite Nat2Z.id, drop_ge, app_nil_r in Hc3
    by (unfold entropy_bytes; rewrite length_map, length_seq; lia).
  destruct (complement_pass fd size w3 _ Hc3) as (w4 & Hr4 & Hc4 & _ & Hst4 & Hd4).
  { now rewrite length_replicate. }
  assert (Hf4 : fdt w4 = <[fd := ino]> (fdt w)).
  { destruct Hst4 as (_ & -> & _). destruct Hst3 as (_ & -> & _).
    cbn [fdt w2' with_drawn log]. destruct Hst2 as (_ & -> & _). exact Hf1. }
  assert (Hn4 : names w4 = names w).
  { destruct Hst4 as (-> & _). destruct Hst3 as (-> & _).
    cbn [names w2' with_drawn log]. destruct Hst2 as (-> & _). exact Hn1. }
  set (fileData := File.mkFileData fd path size) in *.
  pose proof (end_Ok fileData w4 ino ino) as Hend.
  rewrite Hf4, Hn4 in Hend. cbn [File.fd File.fileName fileData] in Hend.
  rewrite lookup_insert_eq in Hend. specialize (Hend eq_refl Hn).
  assert (Hrandom : File.random fileData File.no_options w1 = (w2, Ok tt)).
  { unfold File.random. rewrite for_passes_default.
    now rewrite (bind_Ok _ _ _ _ _ Hr2). }
  assert (HrandomByte : File.randomByte fileData File.no_options w2 = (w3, Ok tt)).
  { unfold File.randomByte. rewrite (bind_Ok _ _ _ _ _ Hb). cbn [File.first_byte].
    rewrite for_passes_default. now rewrite (bind_Ok _ _ _ _ _ Hr3). }
  assert (Hcompl : File.complementary fileData File.no_options w3 = (w4, Ok tt)).
  { unfold File.complementary. rewrite for_passes_default.
    now rewrite (bind_Ok _ _ _ _ _ Hr4). }
  eexists _, b. split.
  { unfold Standards.AR380_19_unlink. rewrite (bind_Ok _ _ _ _ _ Hinit).
    fold fileData.
    rewrite (bind_Ok _ _ _ _ _ Hrandom), (bind_Ok _ _ _ _ _ HrandomByte),
      (bind_Ok _ _ _ _ _ Hcompl).
    exact Hend. }
  split; [reflexivity|].
  cbn [inodes names fdt drawn log_emit with_names with_fdt log].
  split; [|split; [|split]].
  - change (map File.complement (replicate (length c) b))
      with (File.complement <$> replicate (length c) b) in Hc4.
    rewrite fmap_replicate in Hc4. eapply content_inode; [|exact Hc4].
    rewrite Hf4. apply lookup_insert_eq.
  - rewrite Hd4, Hd3. unfold w2'. cbn [drawn with_drawn]. lia.
  - now rewrite Hn4.
  - rewrite Hf4. apply delete_fresh_fd.
Qed.

End Catalogue.

(** ** The standard [secure] *)

Section Secure.
Context `{Platform}.

Lemma and_then_lift {A B} (m : IO A) (k : A -> Stamped.IOS B) w st w' a :
  m w = (w', Ok a) ->
  Stamped.and_then (Stamped.lift m) k (Stamped.mkState w st)
  = k a (Stamped.mkState w' st).
Proof.
  intros E. unfold Stamped.and_then, Stamped.lift. cbn [Stamped.world Stamped.stamps].
  now rewrite E.
Qed.

(** X14.  The standard [secure] on a file of content [c]: one random pass,
    a rename to a random name in the same directory, one truncation, the
    reset of both timestamps, and the unlink.  When the file is unlinked
    its content is a prefix of the random data of the pass, shorter than
    it unless it is empty and at most three quarters of the original
    length on a file of fewer than [2^53 / 3] bytes, its access and
    modification times are the epoch, and neither its old nor its new name
    exists. *)
Theorem secure_unlink_sanitises path s ino c :
  names (Stamped.world s) !! path = Some (File ino) ->
  inodes (Stamped.world s) !! ino = Some c ->
  names (Stamped.world s)
    !! path_join (path_dirname path)
         (File.new_name
            (map (entropy (Stamped.world s))
               (seq (drawn (Stamped.world s) + length c) 9)))
  <> Some Dir ->
  exists s' newPath kept,
    Stamped.secure_unlink path s = (s', Ok tt)
    /\ newPath
       = path_join (path_dirname path)
           (File.new_name
              (map (entropy (Stamped.world s))
                 (seq (drawn (Stamped.world s) + length c) 9)))
    /\ inodes (Stamped.world s') !! ino
       = Some (take kept
                 (entropy_bytes (entropy (Stamped.world s)) (drawn (Stamped.world s))
                    (length c)))
    /\ (c <> [] -> (kept < length c)%nat)
    /\ (3 * Z.of_nat (length c) < 2 ^ 53 -> 4 * Z.of_nat kept <= 3 * Z.of_nat (length c))
    /\ Stamped.stamps s' = <[ino := (0, 0)]> (Stamped.stamps s)
    /\ names (Stamped.world s') !! path = None
    /\ names (Stamped.world s') !! newPath = None
    /\ fdt (Stamped.world s') = fdt (Stamped.world s)
    /\ emitted (Stamped.world s')
       = emitted (Stamped.world s) ++ [(File.eventEmitter, "removed"%string, newPath)].
Proof.
  destruct s as [w st]. cbn [Stamped.world Stamped.stamps].
  intros Hn Hi Hfree.
  destruct (init_opens path w ino c Hn Hi)
    as (w1 & Hinit & _ & Hf1 & Hn1 & He1 & Hd1 & Hem1 & Hc1).
  set (fd := fresh (dom (fdt w))) in *.
  set (size := Z.of_nat (length c)) in *.
  set (fileData := File.mkFileData fd path size) in *.
  destruct (random_pass_content fd size w1 c Hc1 ltac:(lia))
    as (w2 & Hr2 & Hc2 & Hst2 & Hd2).
  unfold size in Hc2, Hd2. rewrite Nat2Z.id, drop_all, app_nil_r in Hc2.
  rewrite Nat2Z.id in Hd2. rewrite He1, Hd1 in Hc2.
  set (data := entropy_bytes (entropy w) (drawn w) (length c)) in *.
  assert (Hdl : length data = length c)
    by (unfold data, entropy_bytes; now rewrite length_map, length_seq).
  destruct Hst2 as (Hn2 & Hf2 & He2 & _ & _ & _ & Hem2).
  assert (Hrandom : File.random fileData File.no_options w1 = (w2, Ok tt)).
  { unfold File.random. rewrite for_passes_default.
    now rewrite (bind_Ok _ _ _ _ _ Hr2). }
  assert (Hfd2 : fdt w2 !! fd = Some ino) by (rewrite Hf2, Hf1; apply lookup_insert_eq).
  pose proof (content_inode w2 fd ino data Hfd2 Hc2) as Hi2.
  destruct (rename_runs fileData w2 ino data Hfd2)
    as (w3 & fd3 & Hren & Hfd3 & Hn3 & Hf3 & Hi3 & He3 & Hd3 & Hem3).
  { cbn [File.fileName fileData]. congruence. }
  { exact Hi2. }
  { cbn [File.fileName fileData]. rewrite Hn2, Hn1, He2, He1, Hd2, Hd1. exact Hfree. }
  cbn [File.fileName File.fd fileData] in Hren, Hfd3, Hn3, Hf3.
  rewrite He2, He1, Hd2, Hd1 in Hren, Hn3.
  set (newPath := path_join (path_dirname path)
                    (File.new_name (map (entropy w) (seq (drawn w + length c) 9)))) in *.
  rewrite Hdl in Hren.
  set (renamed := File.mkFileData fd3 newPath (Z.of_nat (length c))) in *.
  assert (Hfd3' : fdt w3 !! fd3 = Some ino) by (rewrite Hf3; apply lookup_insert_eq).
  destruct (truncate_loop_prefix fd3 ino 1 (Z.of_nat (length c)) w3 data Hfd3')
    as (w4 & final & Htr & (Hfin & Hcut) & Hgeo & Hi4 & Hn4 & Hf4 & Hem4 & _).
  { now rewrite Hi3. }
  { now rewrite Hdl. }
  assert (Htrunc : File.truncate renamed File.no_options w3 = (w4, Ok tt)).
  { unfold File.truncate. now rewrite (bind_Ok _ _ _ _ _ Htr). }
  pose proof (end_Ok renamed w4 ino ino) as Hend.
  rewrite Hf4, Hn4, Hf3, Hn3 in Hend. cbn [File.fd File.fileName renamed] in Hend.
  rewrite !lookup_insert_eq in Hend. specialize (Hend eq_refl eq_refl).
  eexists _, newPath, (Z.to_nat final). split.
  { unfold Stamped.secure_unlink.
    rewrite (and_then_lift _ _ _ _ _ _ Hinit). cbn [Stamped.world Stamped.stamps].
    fold fileData.
    rewrite (and_then_lift _ _ _ _ _ _ Hrandom). cbn [Stamped.world Stamped.stamps].
    rewrite (and_then_lift _ _ _ _ _ _ Hren). cbn [Stamped.world Stamped.stamps].
    fold renamed.
    rewrite (and_then_lift _ _ _ _ _ _ Htrunc). cbn [Stamped.world Stamped.stamps].
    unfold Stamped.and_then at 1, Stamped.resetTimestamps, Stamped.futimes.
    cbn [Stamped.world Stamped.stamps File.fd renamed].
    rewrite Hf4, Hfd3'.
    unfold Stamped.lift. cbn [Stamped.world Stamped.stamps]. rewrite Hend.
    reflexivity. }
  split; [reflexivity|].
  cbn [Stamped.world Stamped.stamps inodes names fdt emitted log_emit with_names
         with_fdt log].
  split; [rewrite Hi4; apply lookup_insert_eq|].
  split.
  { intros Hne. assert (0 < length c)%nat by (destruct c; [congruence|cbn; lia]).
    specialize (Hcut ltac:(lia) ltac:(lia)). lia. }
  split.
  { intros Hrange. specialize (Hgeo Hrange).
    change (4 ^ Z.of_nat 1) with 4 in Hgeo. change (3 ^ Z.of_nat 1) with 3 in Hgeo. lia. }
  split; [reflexivity|].
  rewrite Hn4, Hn3, Hn2, Hn1, delete_insert_eq.
  split.
  { destruct (decide (newPath = path)) as [->|Hne].
    - apply lookup_delete_eq.
    - rewrite lookup_delete_ne by exact Hne. apply lookup_delete_eq. }
  split; [apply lookup_delete_eq|].
  split.
  { rewrite Hf4, Hf3, delete_insert_eq, Hfd3, Hf2, Hf1.
    rewrite delete_id by (apply not_elem_of_dom, is_fresh).
    apply delete_fresh_fd. }
  rewrite Hem4, Hem3, Hem2, Hem1. reflexivity.
Qed.

End Secure.

(** ** Directories *)

Section Directories.
Context `{Platform}.

Lemma append_cons a (p r : string) : (String a p ++ r)%string = String a (p ++ r).
Proof. reflexivity. Qed.

Lemma strip_prefix_app p : forall r, Fs.strip_prefix p (p ++ r) = Some r.
Proof.
  induction p as [|a p IH]; intros r; [reflexivity|].
  rewrite append_cons. cbn [Fs.strip_prefix]. now rewrite Ascii.eqb_refl.
Qed.

Lemma strip_prefix_inv p : forall s r, Fs.strip_prefix p s = Some r -> s = (p ++ r)%string.
Proof.
  induction p as [|a p IH]; intros s r Hs; cbn [Fs.strip_prefix] in Hs.
  - now injection Hs as ->.
  - destruct s as [|b s]; [discriminate|].
    destruct (Ascii.eqb_spec a b) as [->|]; [|discriminate].
    rewrite append_cons. f_equal. now apply IH.
Qed.

Lemma strip_prefix_longer p : forall q, Fs.strip_prefix (p ++ String q "") p = None.
Proof.
  induction p as [|a p IH]; intros q; [reflexivity|].
  rewrite append_cons. cbn [Fs.strip_prefix]. now rewrite Ascii.eqb_refl.
Qed.

Lemma child_name_inv d k f :
  Fs.child_name d k = Some f ->
  k = ((d ++ "/") ++ f)%string /\ Fs.has_slash f = false /\ f <> ""%string.
Proof.
  unfold Fs.child_name. intros Hk.
  destruct (Fs.strip_prefix (d ++ "/") k) as [r|] eqn:Hs; [|discriminate].
  destruct (Fs.has_slash r) eqn:Hsl; [discriminate|].
  destruct (String.eqb_spec r "") as [|Hr]; [discriminate|].
  cbn in Hk. injection Hk as <-. split; [now apply strip_prefix_inv|]. auto.
Qed.

Lemma child_name_app d f :
  Fs.has_slash f = false -> f <> ""%string ->
  Fs.child_name d ((d ++ "/") ++ f) = Some f.
Proof.
  intros Hsl Hf. unfold Fs.child_name. rewrite strip_prefix_app, Hsl.
  destruct (String.eqb_spec f ""); [contradiction|reflexivity].
Qed.

Lemma child_name_self d : Fs.child_name d d = None.
Proof. unfold Fs.child_name. now rewrite strip_prefix_longer. Qed.

Lemma elem_of_children ns d f :
  f ∈ Fs.children ns d <-> exists k, is_Some (ns !! k) /\ Fs.child_name d k = Some f.
Proof.
  unfold Fs.children. rewrite list_elem_of_omap. split.
  - intros (k & Hk & Hf). exists k. split; [|exact Hf].
    now apply elem_of_dom, elem_of_elements.
  - intros (k & Hk & Hf). exists k. split; [|exact Hf].
    now apply elem_of_elements, elem_of_dom.
Qed.

Lemma children_nil ns d :
  Fs.children ns d = [] <-> forall k, is_Some (ns !! k) -> Fs.child_name d k = None.
Proof.
  split.
  - intros Hnil k Hk. destruct (Fs.child_name d k) as [f|] eqn:Hf; [|reflexivity].
    assert (Hin : f ∈ Fs.children ns d) by (apply elem_of_children; eauto).
    rewrite Hnil in Hin. now apply elem_of_nil in Hin.
  - intros Hall. destruct (Fs.children ns d) as [|f l] eqn:Hch; [reflexivity|].
    assert (Hin : f ∈ Fs.children ns d) by (rewrite Hch; left).
    apply elem_of_children in Hin as (k & Hk & Hf). rewrite (Hall k Hk) in Hf.
    discriminate.
Qed.

Lemma readdir_Dir p w :
  names w !! p = Some Dir ->
  Fs.readdir p w = (log (SysReaddir p) w, Ok (Fs.children (names w) p)).
Proof. intros Hd. unfold Fs.readdir. now rewrite Hd. Qed.

(** X15.  Two calls of [mark] on the same directory, from any state of
    the tracked set, leave the set as it was.  On a directory with entries
    exactly one of the two succeeds and emits the one [mark] event, the
    first if the path was tracked and the second if it was not; the other
    fails with [ENOTEMPTY].  On an empty directory both succeed. *)
Theorem mark_twice_restores_tracking p em w :
  names w !! p = Some Dir ->
  exists w1 w2 o1 o2,
    Dir.mark p em w = (w1, o1)
    /\ Dir.mark p em w1 = (w2, o2)
    /\ folderSet w2 = folderSet w
    /\ names w2 = names w
    /\ if nonempty (names w) p then
         emitted w2 = emitted w ++ [(em, "mark"%string, p)]
         /\ (if bool_decide (p ∈ folderSet w)
             then o1 = Ok tt /\ o2 = Throw ENOTEMPTY
             else o1 = Throw ENOTEMPTY /\ o2 = Ok tt)
       else
         emitted w2 = emitted w ++ [(em, "mark"%string, p); (em, "mark"%string, p)]
         /\ o1 = Ok tt /\ o2 = Ok tt.
Proof.
  intros Hd. pose proof (mark_cases p em w Hd) as H1.
  destruct (nonempty (names w) p) eqn:Hne.
  - destruct (bool_decide (p ∈ folderSet w)) eqn:Htr.
    + apply bool_decide_eq_true in Htr.
      eexists _, _, _, _. split; [exact H1|].
      split.
      { rewrite mark_cases by exact Hd. cbn [names folderSet log_emit with_folderSet log].
        rewrite Hne.
        rewrite bool_decide_eq_false_2; [reflexivity|].
        rewrite elem_of_difference, elem_of_singleton. tauto. }
      cbn [names folderSet emitted log_emit with_folderSet log].
      split; [|auto].
      apply set_eq. intros x.
      rewrite elem_of_union, elem_of_difference, elem_of_singleton.
      destruct (decide (x = p)) as [->|]; tauto.
    + apply bool_decide_eq_false in Htr.
      eexists _, _, _, _. split; [exact H1|].
      split.
      { rewrite mark_cases by exact Hd. cbn [names folderSet log_emit with_folderSet log].
        rewrite Hne.
        rewrite bool_decide_eq_true_2; [reflexivity|].
        rewrite elem_of_union, elem_of_singleton. tauto. }
      cbn [names folderSet emitted log_emit with_folderSet log].
      split; [|auto].
      apply set_eq. intros x.
      rewrite elem_of_difference, elem_of_union, elem_of_singleton.
      destruct (decide (x = p)) as [->|]; tauto.
  - eexists _, _, _, _. split; [exact H1|].
    split.
    { rewrite mark_cases by exact Hd. cbn [names log_emit log]. rewrite Hne. reflexivity. }
    cbn [names folderSet emitted log_emit log]. rewrite <- app_assoc. auto.
Qed.

(** X16.  The tracked set keeps a path whose directory is emptied between
    the two visits: after a first visit that fails on the one entry of the
    directory and the unlink of that entry, the second visit finds the
    directory empty, succeeds and emits [mark], and leaves the path in the
    set. *)
Theorem mark_keeps_path_of_emptied_directory p em w f ino :
  names w !! p = Some Dir ->
  Fs.children (names w) p = [f] ->
  names w !! ((p ++ "/") ++ f)%string = Some (File ino) ->
  p ∉ folderSet w ->
  exists w1 w2 w3,
    Dir.mark p em w = (w1, Throw ENOTEMPTY)
    /\ Fs.unlink ((p ++ "/") ++ f) w1 = (w2, Ok tt)
    /\ Dir.mark p em w2 = (w3, Ok tt)
    /\ emitted w3 = emitted w ++ [(em, "mark"%string, p)]
    /\ p ∈ folderSet w3.
Proof.
  intros Hd Hch Hf Hnot.
  set (key := ((p ++ "/") ++ f)%string) in *.
  pose proof (mark_cases p em w Hd) as H1. unfold nonempty in H1. rewrite Hch in H1.
  rewrite bool_decide_eq_false_2 in H1 by exact Hnot.
  set (w1 := log (SysRmdir p) _) in H1.
  assert (Hu : Fs.unlink key w1
               = (with_names (delete key) (log (SysUnlink key) w1), Ok tt)).
  { unfold Fs.unlink. cbn [names w1 with_folderSet log]. now rewrite Hf. }
  set (w2 := with_names (delete key) (log (SysUnlink key) w1)) in *.
  assert (Hkp : key <> p).
  { intros E. rewrite E in Hf. congruence. }
  assert (Hd2 : names w2 !! p = Some Dir).
  { cbn [names w2 w1 with_names with_folderSet log].
    now rewrite lookup_delete_ne by exact Hkp. }
  assert (Hempty : Fs.children (names w2) p = []).
  { apply children_nil. intros k Hk.
    cbn [names w2 w1 with_names with_folderSet log] in Hk.
    destruct (decide (k = key)) as [->|Hne].
    - rewrite lookup_delete_eq in Hk. now destruct Hk.
    - rewrite lookup_delete_ne in Hk by congruence.
      destruct (Fs.child_name p k) as [g|] eqn:Hg; [|reflexivity].
      assert (Hin : g ∈ Fs.children (names w) p) by (apply elem_of_children; eauto).
      rewrite Hch in Hin. apply list_elem_of_singleton in Hin. subst g.
      apply child_name_inv in Hg as (-> & _). contradiction. }
  pose proof (mark_cases p em w2 Hd2) as H3. unfold nonempty in H3. rewrite Hempty in H3.
  eexists _, _, _. split; [exact H1|]. split; [exact Hu|]. split; [exact H3|].
  cbn [emitted folderSet log_emit w2 w1 with_names with_folderSet log].
  split; [reflexivity|]. rewrite elem_of_union, elem_of_singleton. tauto.
Qed.

(** X17.  [init] of [dir.ts] admits empty directories only.  On an empty
    directory it emits [init] and returns the session; on a directory with
    entries it fails with [ENOTEMPTY], on a file with [ENOTDIR], on a
    missing path with [ENOENT], and then it emits nothing.  It never
    changes a name. *)
Theorem dir_init_admits_empty_directories_only p em w :
  exists w' o,
    Dir.init p em w = (w', o)
    /\ names w' = names w
    /\ match o with
       | Ok d =>
         names w !! p = Some Dir /\ Fs.children (names w) p = []
         /\ d = Dir.mkFolderData p em
         /\ emitted w' = emitted w ++ [(em, "init"%string, p)]
       | Throw e =>
         emitted w' = emitted w
         /\ e = match names w !! p with
                | Some Dir => ENOTEMPTY
                | Some (File _) => ENOTDIR
                | None => ENOENT
                end
         /\ (names w !! p = Some Dir -> Fs.children (names w) p <> [])
       | Diverge => False
       end.
Proof.
  unfold Dir.init, bind, Fs.readdir.
  destruct (names w !! p) as [[ino|]|] eqn:Hp.
  - eexists _, _. split; [reflexivity|]. cbn. repeat split; auto; try discriminate.
  - destruct (Fs.children (names w) p) as [|f l] eqn:Hch.
    + cbn [length Nat.eqb negb]. eexists _, _. split; [reflexivity|]. cbn. auto.
    + cbn [length Nat.eqb negb]. unfold Fs.rmdir. cbn [names log]. rewrite Hp, Hch.
      eexists _, _. split; [reflexivity|]. cbn. repeat split; auto.
  - eexists _, _. split; [reflexivity|]. cbn. repeat split; auto; try discriminate.
Qed.

Lemma children_renamed ns p q :
  Fs.children ns q = [] ->
  Fs.children (<[q := Dir]> (delete p ns)) q = [].
Proof.
  rewrite !children_nil. intros Hall k Hk.
  destruct (decide (k = q)) as [->|Hne]; [apply child_name_self|].
  rewrite lookup_insert_ne in Hk by congruence.
  apply Hall. destruct (decide (k = p)) as [->|Hne'].
  - rewrite lookup_delete_eq in Hk. now destruct Hk.
  - now rewrite lookup_delete_ne in Hk by congruence.
Qed.

(** X18.  The session of [dir.ts] on an empty directory: [init], [rename],
    [end].  The directory is renamed to a name of 12 digits and letters in
    the same parent, provided no file has that name and nothing lives
    under it, and removed under that name; neither path remains, and the
    events are [init] with the old path and [removed] with the new one. *)
Theorem dir_session_removes_empty_directory p em w :
  names w !! p = Some Dir ->
  Fs.children (names w) p = [] ->
  names w !! path_join (path_dirname p)
               (File.new_name (map (entropy w) (seq (drawn w) 9))) = None ->
  Fs.children (names w)
    (path_join (path_dirname p) (File.new_name (map (entropy w) (seq (drawn w) 9))))
  = [] ->
  exists w' newName,
    (let* folderData := Dir.init p em in
     let* renamed := Dir.rename folderData in
     Dir.end_ renamed) w = (w', Ok tt)
    /\ newName = File.new_name (map (entropy w) (seq (drawn w) 9))
    /\ String.length newName = 12%nat /\ all_alnum newName = true
    /\ names w' = delete p (names w)
    /\ names w' !! path_join (path_dirname p) newName = None
    /\ syscalls w'
       = syscalls w
         ++ [SysReaddir p; SysRandomBytes 9;
             SysRename p (path_join (path_dirname p) newName);
             SysRmdir (path_join (path_dirname p) newName)]
    /\ emitted w'
       = emitted w
         ++ [(em, "init"%string, p);
             (em, "removed"%string, path_join (path_dirname p) newName)].
Proof.
  intros Hd Hch Hfree Hunder.
  set (newName := File.new_name (map (entropy w) (seq (drawn w) 9))) in *.
  set (newPath := path_join (path_dirname p) newName) in *.
  destruct (new_name_triples 3 (map (entropy w) (seq (drawn w) 9)))
    as [Hlen Haln]; [now rewrite length_map, length_seq|].
  fold newName in Hlen, Haln.
  set (w1 := log_emit (em, "init"%string, p) (log (SysReaddir p) w)).
  assert (Hinit : Dir.init p em w = (w1, Ok (Dir.mkFolderData p em))).
  { unfold Dir.init. rewrite (bind_Ok _ _ _ _ _ (readdir_Dir p w Hd)), Hch. reflexivity. }
  set (w2 := with_drawn (drawn w1 + Z.to_nat 9) (log (SysRandomBytes 9) w1)).
  set (w3 := with_names (fun ns => <[newPath := Dir]> (delete p ns))
               (log (SysRename p newPath) w2)).
  assert (Hren : Dir.rename (Dir.mkFolderData p em) w1
                 = (w3, Ok (Dir.mkFolderData newPath em))).
  { unfold Dir.rename. erewrite bind_Ok by (apply randomBytes_Ok; lia).
    fold w2. cbn [Dir.folderName Dir.emitter].
    change (entropy w1) with (entropy w). change (drawn w1) with (drawn w).
    change (Z.to_nat 9) with 9%nat. fold newName. fold newPath.
    unfold bind, Fs.rename. cbn [names w2 w1 with_drawn log log_emit].
    rewrite Hd, Hfree. reflexivity. }
  assert (Hend : Dir.end_ (Dir.mkFolderData newPath em) w3
                 = (log_emit (em, "removed"%string, newPath)
                      (with_names (delete newPath) (log (SysRmdir newPath) w3)), Ok tt)).
  { unfold Dir.end_, bind, Fs.rmdir. cbn [Dir.folderName Dir.emitter].
    cbn [names w3 w2 w1 with_names with_drawn log log_emit].
    rewrite lookup_insert_eq, children_renamed by exact Hunder. reflexivity. }
  eexists _, newName.
  rewrite (bind_Ok _ _ _ _ _ Hinit), (bind_Ok _ _ _ _ _ Hren). split; [exact Hend|].
  split; [reflexivity|]. split; [exact Hlen|]. split; [exact Haln|].
  cbn [names syscalls emitted w3 w2 w1 with_names with_drawn log log_emit].
  rewrite delete_insert_eq.
  assert (Hnp : newPath <> p) by (intros E; rewrite E in Hfree; congruence).
  split; [apply delete_id; now rewrite lookup_delete_ne by congruence|].
  split; [apply lookup_delete_eq|].
  rewrite <- !app_assoc. auto.
Qed.

(** X19.  [rename] of the older [dir.ts] never ends with the error it
    throws itself ("If this message appears, something went wrong"): the
    [rmdir] before it fails whenever [readdir] has found entries.  It
    returns a path only for an empty directory, then renamed to that path;
    every failure is an error of the file system, and no name has changed
    then. *)
Theorem dir_rename_guard_is_unreachable p w :
  exists w' r,
    Dir0.rename p w = (w', r)
    /\ match r with
       | Dir0.Returned newPath =>
         names w !! p = Some Dir /\ Fs.children (names w) p = []
         /\ newPath = path_join (path_dirname p)
                        (File.new_name (map (entropy w) (seq (drawn w) 9)))
         /\ names w' = <[newPath := Dir]> (delete p (names w))
       | Dir0.Failed (Dir0.Os e) => names w' = names w
       | Dir0.Failed (Dir0.JsError _) => False
       | Dir0.Diverged => False
       end.
Proof.
  unfold Dir0.rename, Dir0.escalate, Fs.readdir.
  destruct (names w !! p) as [[ino|]|] eqn:Hp.
  - eexists _, _. split; [reflexivity|]. reflexivity.
  - destruct (Fs.children (names w) p) as [|f l] eqn:Hch.
    + cbn [length Nat.eqb negb].
      rewrite randomBytes_Ok by lia. unfold Fs.rename.
      cbn [names entropy drawn with_drawn log]. rewrite Hp.
      change (Z.to_nat 9) with 9%nat.
      destruct (names w !! path_join (path_dirname p)
                  (File.new_name (map (entropy w) (seq (drawn w) 9))))
        as [[ino|]|] eqn:Hq;
        (eexists _, _; split; [reflexivity|]); cbn; auto.
    + cbn [length Nat.eqb negb]. unfold Fs.rmdir. cbn [names log]. rewrite Hp, Hch.
      eexists _, _. split; [reflexivity|]. reflexivity.
  - eexists _, _. split; [reflexivity|]. reflexivity.
Qed.

End Directories.

(** ** Failures of the session operations *)

Section Failures.
Context `{Platform}.

(** X20.  [init] opens a descriptor only when it succeeds.  It succeeds
    exactly on a file, with a fresh descriptor and the size of the file in
    the session; on a directory it fails with [EISDIR] at [open], on a
    missing path with [ENOENT] at [stat]; after a failure the table of
    descriptors is as before.  It never touches a name or a content. *)
Theorem init_opens_only_on_success path w :
  exists w' o,
    File.init path w = (w', o)
    /\ names w' = names w /\ inodes w' = inodes w /\ emitted w' = emitted w
    /\ match o with
       | Ok fileData =>
         exists ino c,
           names w !! path = Some (File ino) /\ inodes w !! ino = Some c
           /\ fileData
              = File.mkFileData (fresh (dom (fdt w))) path (Z.of_nat (length c))
           /\ fdt w !! File.fd fileData = None
           /\ fdt w' = <[File.fd fileData := ino]> (fdt w)
       | Throw e =>
         fdt w' = fdt w
         /\ e = match names w !! path with
                | Some Dir => EISDIR
                | _ => ENOENT
                end
       | Diverge => False
       end.
Proof.
  unfold File.init, bind, Fs.stat_size, Fs.open.
  destruct (names w !! path) as [[ino|]|] eqn:Hp.
  - destruct (inodes w !! ino) as [c|] eqn:Hi.
    + cbn [names log]. rewrite Hp. eexists _, _. split; [reflexivity|].
      cbn. repeat split. exists ino, c. repeat split; auto.
      apply not_elem_of_dom, is_fresh.
    + eexists _, _. split; [reflexivity|]. cbn. auto.
  - cbn [names log]. rewrite Hp. eexists _, _. split; [reflexivity|]. cbn. auto.
  - eexists _, _. split; [reflexivity|]. cbn. auto.
Qed.

(** X21.  When a directory has the name [rename] draws, [rename] fails
    with [EISDIR]; the file keeps its name, but the descriptor of the
    session is closed by then and nine bytes of entropy are spent: the
    session cannot be used again. *)
Theorem rename_failure_closes_session fileData w ino :
  fdt w !! File.fd fileData = Some ino ->
  names w !! File.fileName fileData = Some (File ino) ->
  names w !! path_join (path_dirname (File.fileName fileData))
                (File.new_name (map (entropy w) (seq (drawn w) 9)))
  = Some Dir ->
  exists w',
    File.rename fileData w = (w', Throw EISDIR)
    /\ names w' = names w
    /\ fdt w' = delete (File.fd fileData) (fdt w)
    /\ fdt w' !! File.fd fileData = None
    /\ drawn w' = (drawn w + 9)%nat
    /\ emitted w' = emitted w.
Proof.
  intros Hfd Hname Hdir. unfold File.rename.
  rewrite (bind_Ok _ _ _ _ _ (close_Ok _ _ _ Hfd)).
  erewrite bind_Ok by (apply randomBytes_Ok; lia).
  cbn [entropy drawn with_fdt log]. change (Z.to_nat 9) with 9%nat.
  unfold bind at 1, Fs.rename. cbn [names with_drawn with_fdt log].
  rewrite Hname, Hdir. eexists. split; [reflexivity|].
  cbn. repeat split. apply lookup_delete_eq.
Qed.

(** X22.  [byteArray] with an empty array on a file that is not empty
    fails at its first buffer with [ERR_INVALID_ARG_VALUE], before any
    write: the file is left as it is. *)
Theorem byteArray_rejects_empty_array fileData passes w :
  0 < File.fileSize fileData -> 1 <= default 1 passes ->
  File.byteArray fileData passes [] w = (w, Throw ERR_INVALID_ARG_VALUE).
Proof.
  intros Hsize Hp. pose proof kMaxLength_pos as Hk.
  unfold File.byteArray, File.for_passes.
  destruct (Z.to_nat (default 1 passes)) as [|n] eqn:E; [lia|].
  cbn [File.for_loop]. unfold File.writeExtended, File.depth.
  cbn [File.writeExtended_rec]. rewrite Z.sub_0_r.
  assert (Hfail : forall len, 0 < len <= kMaxLength ->
            Buf.alloc_from len (Buf.from []) w = (w, Throw ERR_INVALID_ARG_VALUE)).
  { intros len Hlen. unfold Buf.alloc_from.
    destruct (Z.ltb_spec len 0); [lia|]. destruct (Z.ltb_spec kMaxLength len); [lia|].
    cbn. destruct (Z.eqb_spec len 0); [lia|reflexivity]. }
  destruct (Z.leb_spec (File.fileSize fileData) kMaxLength) as [Hle|Hgt];
    apply bind_Throw, bind_Throw, Hfail; lia.
Qed.

End Failures.

(** ** The model at work: concrete runs *)

Section Runs.

Lemma writeExtended_covers_range_witness :
  exists w' calls,
    File.writeExtended (H := Sample.platform) 3 10 0 Sample.zeros_pattern
      (Sample.world Sample.ten Sample.no_random) = (w', Ok tt)
    /\ syscalls w' = syscalls (Sample.world Sample.ten Sample.no_random) ++ calls
    /\ consecutive (H := Sample.platform) 10 0 (writes_to 3 calls)
    /\ cursor_after 0 (writes_to 3 calls) = 10
    /\ forall x, covering x (writes_to 3 calls)
                 = if decide (0 <= x < 10) then 1%nat else 0%nat.
Proof.
  apply (writeExtended_covers_range (H := Sample.platform) 3 10 Sample.zeros_pattern
           (Sample.world Sample.ten Sample.no_random)).
  - lia.
  - eexists. reflexivity.
  - apply (alloc_well_behaved (H := Sample.platform)).
Defined.

(** With [size = 0] one write is issued: "no writes issued" fails. *)
Lemma writeExtended_size_zero_issues_a_write :
  snd Sample.empty_run = Ok tt
  /\ List.filter is_write (syscalls (fst Sample.empty_run)) = [SysWrite 3 0 []]
  /\ List.filter is_write (syscalls (fst Sample.empty_run)) <> [].
Proof. vm_compute. repeat split; congruence. Qed.

Lemma writeExtended_size_zero_witness :
  exists w' calls,
    File.writeExtended (H := Sample.platform) 3 0 0 Sample.zeros_pattern
      (Sample.world Sample.ten Sample.no_random) = (w', Ok tt)
    /\ syscalls w' = syscalls (Sample.world Sample.ten Sample.no_random) ++ calls
    /\ List.filter is_write calls = [SysWrite 3 0 []]
    /\ Fs.content_of w' 3 = Fs.content_of (Sample.world Sample.ten Sample.no_random) 3.
Proof.
  apply (writeExtended_size_zero (H := Sample.platform) 3 Sample.zeros_pattern
           (Sample.world Sample.ten Sample.no_random)).
  - eexists. reflexivity.
  - apply (alloc_well_behaved (H := Sample.platform)).
Defined.

(** [truncate] can set a file of 1000 bytes to exactly 250 bytes, which is
    not strictly above 25%, and to exactly 750 bytes, which is not strictly
    below 75%; and on a file of one byte the sizes are 0, 0, 0, which do
    not decrease: "strictly between" and "strictly decrease" both fail. *)
Lemma truncate_reaches_a_quarter_and_stalls :
  (snd Sample.truncate_run = Ok tt
   /\ List.filter Sample.is_ftruncate (syscalls (fst Sample.truncate_run))
      = [SysFtruncate 3 250]
   /\ ~ strictly_between_quarters 250 1000)
  /\ (snd Sample.truncate_top_run = Ok tt
      /\ List.filter Sample.is_ftruncate (syscalls (fst Sample.truncate_top_run))
         = [SysFtruncate 3 750]
      /\ ~ strictly_between_quarters 750 1000)
  /\ (snd Sample.truncate_small_run = Ok tt
      /\ List.filter Sample.is_ftruncate (syscalls (fst Sample.truncate_small_run))
         = [SysFtruncate 3 0; SysFtruncate 3 0; SysFtruncate 3 0]
      /\ ~ strictly_between_quarters 0 1
      /\ ~ 0 < 0).
Proof.
  split; [|split].
  - split; [vm_compute; reflexivity|]. split; [vm_compute; reflexivity|].
    unfold strictly_between_quarters. lia.
  - split; [vm_compute; reflexivity|]. split; [vm_compute; reflexivity|].
    unfold strictly_between_quarters. lia.
  - split; [vm_compute; reflexivity|]. split; [vm_compute; reflexivity|].
    unfold strictly_between_quarters. split; lia.
Qed.

Lemma truncate_shrinks_witness :
  exists w' sizes,
    File.truncate (Sample.session Sample.ten) (File.mkOptions (Some 3) None)
      (Sample.world Sample.ten Sample.no_random) = (w', Ok tt)
    /\ syscalls w'
       = syscalls (Sample.world Sample.ten Sample.no_random)
         ++ map (SysFtruncate 3) sizes
    /\ length sizes = 3%nat
    /\ shrinking 10 sizes
    /\ exists c', Fs.content_of w' 3 = Some c'
         /\ (1 <= 3 -> Z.of_nat (length c') = List.last sizes 10).
Proof.
  apply (truncate_shrinks (Sample.session Sample.ten) (File.mkOptions (Some 3) None)
           (Sample.world Sample.ten Sample.no_random) Sample.ten).
  - reflexivity.
  - vm_compute. discriminate.
  - vm_compute. reflexivity.
Defined.

Lemma complementary_twice_restores_witness :
  exists w1 w2,
    File.complementary (H := Sample.platform) (Sample.session Sample.ten)
      File.no_options (Sample.world Sample.ten Sample.no_random) = (w1, Ok tt)
    /\ Fs.content_of w1 3 = Some (map File.complement Sample.ten)
    /\ syscalls w1
       = syscalls (Sample.world Sample.ten Sample.no_random)
         ++ complement_calls 3 Sample.ten (chunks (H := Sample.platform) 10)
    /\ File.complementary (H := Sample.platform) (Sample.session Sample.ten)
         File.no_options w1 = (w2, Ok tt)
    /\ Fs.content_of w2 3 = Some Sample.ten.
Proof.
  apply (complementary_twice_restores (H := Sample.platform) (Sample.session Sample.ten)
           (Sample.world Sample.ten Sample.no_random) Sample.ten).
  - reflexivity.
  - reflexivity.
Defined.

Lemma randomByte_one_draw_witness :
  exists w',
    File.randomByte (H := Sample.platform) (Sample.session Sample.ten)
      (File.mkOptions (Some 2) None) (Sample.world Sample.ten Sample.no_random)
    = (w', Ok tt)
    /\ drawn w' = 1%nat
    /\ syscalls w'
       = SysRandomBytes 1
         :: concat (replicate 2 (const_calls 3 x0b (chunks (H := Sample.platform) 10)))
    /\ Fs.content_of w' 3 = Some (replicate 10 x0b).
Proof.
  apply (randomByte_one_draw (H := Sample.platform) (Sample.session Sample.ten)
           (File.mkOptions (Some 2) None) (Sample.world Sample.ten Sample.no_random)
           Sample.ten).
  - vm_compute. discriminate.
  - reflexivity.
  - reflexivity.
Defined.

Lemma rename_twelve_characters_witness :
  exists w' fd' newName,
    newName = "CzBVep0E6Q4z"%string
    /\ File.rename (H := Sample.platform) (Sample.session Sample.ten)
         (Sample.world Sample.ten Sample.no_random)
       = (w', Ok (File.mkFileData fd' (Sample.join "/tmp" newName) 10))
    /\ String.length newName = 12%nat
    /\ all_alnum newName = true
    /\ Fs.has_slash newName = false
    /\ syscalls w'
       = [SysClose 3; SysRandomBytes 9;
          SysRename "/tmp/f" (Sample.join "/tmp" newName);
          SysStat (Sample.join "/tmp" newName);
          SysOpen (Sample.join "/tmp" newName) fd']
    /\ names w'
       = <[Sample.join "/tmp" newName := File 7%nat]>
           (delete "/tmp/f"%string (names (Sample.world Sample.ten Sample.no_random)))
    /\ fdt w' = <[fd' := 7%nat]> (delete 3 (fdt (Sample.world Sample.ten Sample.no_random)))
    /\ Fs.content_of w' fd' = Some Sample.ten.
Proof.
  apply (rename_twelve_characters (H := Sample.platform) (Sample.session Sample.ten)
           (Sample.world Sample.ten Sample.no_random) 7%nat Sample.ten).
  - reflexivity.
  - reflexivity.
  - reflexivity.
  - vm_compute. discriminate.
Defined.

Lemma mark_protocol_leaves_no_entry_witness :
  exists w',
    visits ["/tmp"; "/tmp/d"; "/tmp"]%string 1%nat (Sample.world Sample.ten Sample.no_random)
    = (w', [Throw ENOTEMPTY; Ok tt; Ok tt])
    /\ folderSet w' = ∅
    /\ emitted w' = [(1%nat, "mark", "/tmp/d"); (1%nat, "mark", "/tmp")]%string.
Proof.
  destruct (mark_protocol_leaves_no_entry 1%nat (Sample.world Sample.ten Sample.no_random)
              ["/tmp"; "/tmp/d"; "/tmp"]%string) as (_ & w' & Hrun & Hset & Hem & _).
  - reflexivity.
  - intros p [<-|[<-|[<-|[]]]]; reflexivity.
  - intros p [<-|[<-|[<-|[]]]]; vm_compute; reflexivity.
  - exists w'. split; [exact Hrun|]. split; [exact Hset|exact Hem].
Defined.

Lemma gutmann_runs_its_passes_in_order_witness :
  exists w',
    Standards.gutmann_unlink (H := Sample.platform) 16 "/tmp/f"
      (Sample.closed_world Sample.ten) = (w', Ok tt)
    /\ syscalls w'
       = [SysStat "/tmp/f"; SysOpen "/tmp/f" 0]
         ++ passes_calls 0 (entropy (Sample.closed_world Sample.ten))
              (chunks (H := Sample.platform) 10) 10 gutmann_passes 0
         ++ [SysClose 0; SysUnlink "/tmp/f"]
    /\ names w' = delete "/tmp/f"%string (names (Sample.closed_world Sample.ten))
    /\ fdt w' = ∅
    /\ emitted w' = [(File.eventEmitter, "removed", "/tmp/f")]%string.
Proof.
  apply (gutmann_runs_its_passes_in_order (H := Sample.platform) 16 "/tmp/f"
           (Sample.closed_world Sample.ten) 7%nat Sample.ten).
  - vm_compute. lia.
  - reflexivity.
  - reflexivity.
Defined.

(** [DOD 5220.22 M], whose three passes all ask for the check, returns and
    unlinks the file without a single read: nothing is read back. *)
Lemma dod_never_reads_back :
  snd Sample.dod_run = Ok tt
  /\ existsb is_read (syscalls (fst Sample.dod_run)) = false
  /\ names (fst Sample.dod_run) !! "/tmp/f"%string = None.
Proof. vm_compute. repeat split; reflexivity. Qed.

Lemma check_is_ignored_witness :
  exists w' calls,
    Standards.DOD_5220_22_M_unlink (H := Sample.platform) "/tmp/f"
      (Sample.closed_world Sample.ten) = (w', Ok tt)
    /\ syscalls w' = calls
    /\ no_read calls = true
    /\ names w' = delete "/tmp/f"%string (names (Sample.closed_world Sample.ten)).
Proof.
  destruct (check_is_ignored (H := Sample.platform) "/tmp/f"
              (Sample.closed_world Sample.ten) 7%nat Sample.ten)
    as ((w' & calls & Hrun & Hl & _ & Hnr & Hn) & _).
  - reflexivity.
  - reflexivity.
  - exists w', calls. split; [exact Hrun|]. split; [exact Hl|]. split; [exact Hnr|exact Hn].
Defined.

Lemma remove_counts_touched_paths_witness :
  Index.remove_ "/a" Sample.removal (Index.foreign [("done"%string, 1%nat)])
  = Ok (Index.mkLocals 2 ["/a"; "/b"]%string).
Proof.
  exact (proj2 (remove_counts_touched_paths "/a" Sample.removal
                  [("done"%string, 1%nat)])).
Defined.

Lemma writeExtended_replaces_range_witness :
  exists w',
    File.writeExtended (H := Sample.platform) 3 8 2 Sample.zeros_pattern
      (Sample.world Sample.ten Sample.no_random) = (w', Ok tt)
    /\ Fs.content_of w' 3 = Some (Sample.bytes [1; 2; 0; 0; 0; 0; 0; 0; 9; 10]).
Proof.
  destruct (writeExtended_replaces_range (H := Sample.platform) 3 8 2 Sample.zeros_pattern
              (fun len _ => replicate (Z.to_nat len) x00)
              (Sample.world Sample.ten Sample.no_random) Sample.ten)
    as (w' & data & Hrun & Hdata & _ & Hc & _).
  - reflexivity.
  - lia.
  - vm_compute. discriminate.
  - intros len pos w Hlen Hpos. split.
    + apply (alloc_Ok (H := Sample.platform) len 0 w Hlen).
    + rewrite length_replicate. lia.
  - exists w'. split; [exact Hrun|]. rewrite Hc, Hdata. reflexivity.
Defined.

Lemma byteArray_restarts_at_chunks_witness :
  exists w',
    File.byteArray (H := Sample.platform) (Sample.session Sample.ten) None [1; 2; 3]
      (Sample.world Sample.ten Sample.no_random) = (w', Ok tt)
    /\ Fs.content_of w' 3 = Some (Sample.bytes [1; 2; 3; 1; 1; 2; 3; 1; 1; 2]).
Proof.
  destruct (byteArray_restarts_at_chunks (H := Sample.platform) (Sample.session Sample.ten)
              None [1; 2; 3] (Sample.world Sample.ten Sample.no_random) Sample.ten)
    as (w' & Hrun & Hc & _).
  - reflexivity.
  - reflexivity.
  - discriminate.
  - vm_compute. discriminate.
  - exists w'. split; [exact Hrun|exact Hc].
Defined.

Lemma constant_passes_fill_witness :
  (exists w',
     File.zeros (H := Sample.platform) (Sample.session Sample.ten)
       (File.mkOptions (Some 2) None) (Sample.world Sample.ten Sample.no_random)
     = (w', Ok tt)
     /\ Fs.content_of w' 3 = Some (replicate 10 x00))
  /\ exists w',
       File.byte (H := Sample.platform) (Sample.session Sample.ten) (Some 2) 300
         (Sample.world Sample.ten Sample.no_random) = (w', Ok tt)
       /\ Fs.content_of w' 3 = Some (replicate 10 x2c).
Proof.
  destruct (constant_passes_fill (H := Sample.platform) (Sample.session Sample.ten)
              (File.mkOptions (Some 2) None) (Sample.world Sample.ten Sample.no_random)
              Sample.ten) as ((w1 & Hz & Hcz & _) & _ & Hbyte).
  - reflexivity.
  - reflexivity.
  - vm_compute. discriminate.
  - split; [exists w1; split; [exact Hz|exact Hcz]|].
    destruct (Hbyte 300) as (w2 & b & Hb & Hmod & Hcb & _).
    exists w2. split; [exact Hb|].
    rewrite <- (byte_of_Z_of_byte b), Hmod in Hcb. exact Hcb.
Defined.

Lemma random_leaves_last_pass_witness :
  exists w',
    File.random (H := Sample.platform) (Sample.session Sample.ten)
      (File.mkOptions (Some 2) None) (Sample.world Sample.ten Sample.no_random)
    = (w', Ok tt)
    /\ Fs.content_of w' 3
       = Some (entropy_bytes (entropy (Sample.world Sample.ten Sample.no_random)) 10 10)
    /\ drawn w' = 20%nat.
Proof.
  destruct (random_leaves_last_pass (H := Sample.platform) (Sample.session Sample.ten)
              (File.mkOptions (Some 2) None) (Sample.world Sample.ten Sample.no_random)
              Sample.ten) as (w' & Hrun & Hc & Hd & _).
  - reflexivity.
  - reflexivity.
  - vm_compute. discriminate.
  - exists w'. split; [exact Hrun|]. split; [exact Hc|exact Hd].
Defined.

Lemma no_pass_no_write_witness :
  File.zeros (H := Sample.platform) (Sample.session Sample.ten)
    (File.mkOptions (Some 0) None) (Sample.world Sample.ten Sample.no_random)
  = (Sample.world Sample.ten Sample.no_random, Ok tt)
  /\ exists w',
       File.randomByte (H := Sample.platform) (Sample.session Sample.ten)
         (File.mkOptions (Some 0) None) (Sample.world Sample.ten Sample.no_random)
       = (w', Ok tt)
       /\ drawn w' = 1%nat /\ syscalls w' = [SysRandomBytes 1].
Proof.
  destruct (no_pass_no_write (H := Sample.platform) (Sample.session Sample.ten)
              (File.mkOptions (Some 0) None) (Sample.world Sample.ten Sample.no_random))
    as (Hz & _ & _ & _ & _ & _ & _ & Hrb).
  - vm_compute. discriminate.
  - split; [exact Hz|]. eexists. split; [exact Hrb|]. split; reflexivity.
Defined.

Lemma truncate_keeps_a_prefix_witness :
  exists w' kept,
    File.truncate (Sample.session Sample.ten) (File.mkOptions (Some 2) None)
      (Sample.world Sample.ten Sample.no_random) = (w', Ok tt)
    /\ Fs.content_of w' 3 = Some (take kept Sample.ten)
    /\ (kept < 10)%nat
    /\ 16 * Z.of_nat kept <= 9 * 10.
Proof.
  destruct (truncate_keeps_a_prefix (Sample.session Sample.ten)
              (File.mkOptions (Some 2) None) (Sample.world Sample.ten Sample.no_random)
              Sample.ten) as (w' & kept & Hrun & Hc & _ & Hcut & Hgeo & _).
  - reflexivity.
  - reflexivity.
  - exists w', kept. split; [exact Hrun|]. split; [exact Hc|]. split.
    + apply Hcut; [vm_compute|]; discriminate.
    + apply Hgeo. vm_compute. reflexivity.
Defined.

Lemma pass_after_truncate_restores_length_witness :
  exists w1 w2 kept,
    File.truncate (Sample.session Sample.ten) (File.mkOptions (Some 1) None)
      (Sample.world Sample.ten Sample.no_random) = (w1, Ok tt)
    /\ Fs.content_of w1 3 = Some (take kept Sample.ten)
    /\ File.zeros (H := Sample.platform) (Sample.session Sample.ten) File.no_options w1
       = (w2, Ok tt)
    /\ Fs.content_of w2 3 = Some (replicate 10 x00).
Proof.
  apply (pass_after_truncate_restores_length (H := Sample.platform)
           (Sample.session Sample.ten) (File.mkOptions (Some 1) None)
           (Sample.world Sample.ten Sample.no_random) Sample.ten).
  - reflexivity.
  - reflexivity.
Defined.

Lemma complementary_parity_witness :
  exists w',
    File.complementary (H := Sample.platform) (Sample.session Sample.ten)
      (File.mkOptions (Some 3) None) (Sample.world Sample.ten Sample.no_random)
    = (w', Ok tt)
    /\ Fs.content_of w' 3 = Some (map File.complement Sample.ten).
Proof.
  destruct (complementary_parity (H := Sample.platform) (Sample.session Sample.ten)
              (File.mkOptions (Some 3) None) (Sample.world Sample.ten Sample.no_random)
              Sample.ten) as (w' & Hrun & Hc & _).
  - reflexivity.
  - reflexivity.
  - exists w'. split; [exact Hrun|exact Hc].
Defined.

Lemma end_invalidates_session_witness :
  exists w1 w2 w3,
    File.end_ (Sample.session Sample.ten) (Sample.world Sample.ten Sample.no_random)
    = (w1, Ok tt)
    /\ File.end_ (Sample.session Sample.ten) w1 = (w2, Throw EBADF)
    /\ emitted w2 = emitted w1
    /\ File.zeros (H := Sample.platform) (Sample.session Sample.ten) File.no_options w1
       = (w3, Throw EBADF)
    /\ inodes w3 = inodes w1.
Proof.
  destruct (end_invalidates_session (H := Sample.platform) (Sample.session Sample.ten)
              (Sample.world Sample.ten Sample.no_random) 7%nat 7%nat)
    as (w1 & Hend & _ & (w2 & Hend2 & _ & _ & Hem) & Hz).
  - reflexivity.
  - reflexivity.
  - vm_compute. discriminate.
  - destruct (Hz File.no_options) as (w3 & data & Hrun & _ & Hi & _).
    + vm_compute. discriminate.
    + exists w1, w2, w3. auto.
Defined.

Lemma rename_then_end_leaves_no_name_witness :
  exists w',
    (let* renamed := File.rename (H := Sample.platform) (Sample.session Sample.ten) in
     File.end_ renamed) (Sample.world Sample.ten Sample.no_random) = (w', Ok tt)
    /\ names w' !! "/tmp/f"%string = None
    /\ names w' !! "/tmp/CzBVep0E6Q4z"%string = None
    /\ emitted w' = [(File.eventEmitter, "removed", "/tmp/CzBVep0E6Q4z")]%string.
Proof.
  destruct (rename_then_end_leaves_no_name (H := Sample.platform)
              (Sample.session Sample.ten) (Sample.world Sample.ten Sample.no_random)
              7%nat Sample.ten)
    as (w' & newPath & Hrun & Hp & Hold & Hnew & _ & _ & _ & Hem).
  - reflexivity.
  - reflexivity.
  - reflexivity.
  - vm_compute. discriminate.
  - exists w'. split; [exact Hrun|]. split; [exact Hold|].
    rewrite Hp in Hnew, Hem. split; [exact Hnew|exact Hem].
Defined.

Lemma single_pass_standards_witness :
  exists w',
    Standards.randomData_unlink (H := Sample.platform) "/tmp/f"
      (Sample.closed_world Sample.ten) = (w', Ok tt)
    /\ syscalls w'
       = [SysStat "/tmp/f"; SysOpen "/tmp/f" 0]
         ++ passes_calls 0 (entropy (Sample.closed_world Sample.ten))
              (chunks (H := Sample.platform) 10) 10 [Random] 0
         ++ [SysClose 0; SysUnlink "/tmp/f"]
    /\ names w' !! "/tmp/f"%string = None.
Proof.
  destruct (proj1 (single_pass_standards (H := Sample.platform)) "/tmp/f"%string
              (Sample.closed_world Sample.ten) 7%nat Sample.ten)
    as (w' & Hrun & Hl & Hn & _).
  - reflexivity.
  - reflexivity.
  - exists w'. split; [exact Hrun|]. split; [exact Hl|]. rewrite Hn. reflexivity.
Defined.

Lemma multi_pass_standards_witness :
  exists w',
    Standards.schneier_unlink (H := Sample.platform) "/tmp/f"
      (Sample.closed_world Sample.ten) = (w', Ok tt)
    /\ syscalls w'
       = [SysStat "/tmp/f"; SysOpen "/tmp/f" 0]
         ++ passes_calls 0 (entropy (Sample.closed_world Sample.ten))
              (chunks (H := Sample.platform) 10) 10
              [Const x00; Const xff; Random; Random; Random; Random; Random] 0
         ++ [SysClose 0; SysUnlink "/tmp/f"]
    /\ names w' !! "/tmp/f"%string = None.
Proof.
  destruct (proj1 (proj2 (proj2 (multi_pass_standards (H := Sample.platform))))
              "/tmp/f"%string (Sample.closed_world Sample.ten) 7%nat Sample.ten)
    as (w' & Hrun & Hl & Hn & _).
  - reflexivity.
  - reflexivity.
  - exists w'. split; [exact Hrun|]. split; [exact Hl|]. rewrite Hn. reflexivity.
Defined.

Lemma AR380_19_leaves_complement_witness :
  exists w',
    Standards.AR380_19_unlink (H := Sample.platform) "/tmp/f"
      (Sample.closed_world Sample.ten) = (w', Ok tt)
    /\ inodes w' !! 7%nat = Some (replicate 10 x82)
    /\ drawn w' = 11%nat
    /\ names w' !! "/tmp/f"%string = None.
Proof.
  destruct (AR380_19_leaves_complement (H := Sample.platform) "/tmp/f"
              (Sample.closed_world Sample.ten) 7%nat Sample.ten)
    as (w' & b & Hrun & Hb & Hi & Hd & Hn & _).
  - reflexivity.
  - reflexivity.
  - exists w'. split; [exact Hrun|]. rewrite Hb in Hi.
    split; [exact Hi|]. split; [exact Hd|]. rewrite Hn. reflexivity.
Defined.

Lemma secure_unlink_sanitises_witness :
  exists s' kept,
    Stamped.secure_unlink (H := Sample.platform) "/tmp/f"
      (Stamped.mkState (Sample.closed_world Sample.ten) ∅) = (s', Ok tt)
    /\ inodes (Stamped.world s') !! 7%nat
       = Some (take kept
                 (entropy_bytes (entropy (Sample.closed_world Sample.ten)) 0 10))
    /\ (kept < 10)%nat
    /\ 4 * Z.of_nat kept <= 3 * 10
    /\ Stamped.stamps s' = {[ 7%nat := (0, 0) ]}
    /\ names (Stamped.world s') !! "/tmp/f"%string = None
    /\ names (Stamped.world s') !! "/tmp/faLH7BE2W4Cl"%string = None.
Proof.
  destruct (secure_unlink_sanitises (H := Sample.platform) "/tmp/f"
              (Stamped.mkState (Sample.closed_world Sample.ten) ∅) 7%nat Sample.ten)
    as (s' & newPath & kept & Hrun & Hp & Hi & Hcut & Hk & Hst & Hold & Hnew & _).
  - reflexivity.
  - reflexivity.
  - vm_compute. discriminate.
  - exists s', kept. split; [exact Hrun|]. split; [exact Hi|].
    split; [apply Hcut; discriminate|].
    split; [apply Hk; vm_compute; reflexivity|].
    split; [exact Hst|]. split; [exact Hold|]. rewrite Hp in Hnew. exact Hnew.
Defined.

Lemma mark_twice_restores_tracking_witness :
  exists w1 w2,
    Dir.mark "/tmp" 1%nat (Sample.world Sample.ten Sample.no_random)
    = (w1, Throw ENOTEMPTY)
    /\ Dir.mark "/tmp" 1%nat w1 = (w2, Ok tt)
    /\ folderSet w2 = ∅
    /\ emitted w2 = [(1%nat, "mark", "/tmp")]%string.
Proof.
  destruct (mark_twice_restores_tracking "/tmp" 1%nat
              (Sample.world Sample.ten Sample.no_random))
    as (w1 & w2 & o1 & o2 & H1 & H2 & Hset & _ & Hrest).
  - reflexivity.
  - change (nonempty (names (Sample.world Sample.ten Sample.no_random)) "/tmp")
      with true in Hrest.
    change (bool_decide ("/tmp"%string ∈ folderSet (Sample.world Sample.ten Sample.no_random)))
      with false in Hrest.
    destruct Hrest as (Hem & Ho1 & Ho2). subst o1 o2.
    exists w1, w2. split; [exact H1|]. split; [exact H2|].
    split; [exact Hset|exact Hem].
Defined.

Lemma mark_keeps_path_of_emptied_directory_witness :
  exists w1 w2 w3,
    Dir.mark "/a" 1%nat Sample.folder_world = (w1, Throw ENOTEMPTY)
    /\ Fs.unlink "/a/x" w1 = (w2, Ok tt)
    /\ Dir.mark "/a" 1%nat w2 = (w3, Ok tt)
    /\ emitted w3 = [(1%nat, "mark", "/a")]%string
    /\ "/a"%string ∈ folderSet w3.
Proof.
  apply (mark_keeps_path_of_emptied_directory "/a" 1%nat Sample.folder_world "x" 1%nat).
  - reflexivity.
  - vm_compute. reflexivity.
  - reflexivity.
  - apply not_elem_of_empty.
Defined.

Lemma dir_session_removes_empty_directory_witness :
  exists w',
    (let* folderData := Dir.init "/tmp/d" 1%nat in
     let* renamed := Dir.rename (H := Sample.platform) folderData in
     Dir.end_ renamed) (Sample.world Sample.ten Sample.no_random) = (w', Ok tt)
    /\ names w' = delete "/tmp/d"%string (names (Sample.world Sample.ten Sample.no_random))
    /\ emitted w'
       = [(1%nat, "init", "/tmp/d"); (1%nat, "removed", "/tmp/CzBVep0E6Q4z")]%string.
Proof.
  destruct (dir_session_removes_empty_directory (H := Sample.platform) "/tmp/d" 1%nat
              (Sample.world Sample.ten Sample.no_random))
    as (w' & newName & Hrun & Hname & _ & _ & Hn & _ & _ & Hem).
  - reflexivity.
  - vm_compute. reflexivity.
  - vm_compute. reflexivity.
  - vm_compute. reflexivity.
  - exists w'. split; [exact Hrun|]. split; [exact Hn|]. rewrite Hname in Hem. exact Hem.
Defined.

Lemma rename_failure_closes_session_witness :
  exists w',
    File.rename (H := Sample.platform) (Sample.session Sample.ten) Sample.blocked_world
    = (w', Throw EISDIR)
    /\ names w' = names Sample.blocked_world
    /\ fdt w' !! 3 = None
    /\ drawn w' = 9%nat.
Proof.
  destruct (rename_failure_closes_session (H := Sample.platform)
              (Sample.session Sample.ten) Sample.blocked_world 7%nat)
    as (w' & Hrun & Hn & _ & Hfd & Hd & _).
  - reflexivity.
  - reflexivity.
  - vm_compute. reflexivity.
  - exists w'. split; [exact Hrun|]. split; [exact Hn|]. split; [exact Hfd|exact Hd].
Defined.

Lemma byteArray_rejects_empty_array_witness :
  File.byteArray (H := Sample.platform) (Sample.session Sample.ten) None []
    (Sample.world Sample.ten Sample.no_random)
  = (Sample.world Sample.ten Sample.no_random, Throw ERR_INVALID_ARG_VALUE).
Proof.
  apply (byteArray_rejects_empty_array (H := Sample.platform) (Sample.session Sample.ten)
           None (Sample.world Sample.ten Sample.no_random)).
  - vm_compute. reflexivity.
  - vm_compute. discriminate.
Defined.

End Runs.
